(** * Committed-entry application pipeline of a replicated range

    A shallow embedding of [replica_application_state_machine.go]
    (package [storage]): the force-error check [checkForcedErr], the
    application batch ([replicaAppBatch]), the ephemeral batch
    ([ephemeralReplicaAppBatch]) and the side-effect dispatcher
    ([replicaStateMachine.ApplySideEffects]).

    Conventions.
    - Go's [uint64]/[int64] values are integers of [Z]; arithmetic that can
      wrap is written with [u64] / [i64].
    - A Go pointer that may be nil is an [option]; dereferencing [None]
      aborts with [GoPanic].
    - Calls that leave the file (storage engine, state loader, raft group,
      locks, handlers) are recorded as events, and what they return is read
      from an environment of oracles ([Env]).
    - Logging ([log.VEventf], [log.Infof]) and wall-clock reads are left out:
      they neither return a value nor touch the state modelled here. *)

From Stdlib Require Import ZArith List String Bool Lia.
Import ListNotations.
Open Scope string_scope.
Open Scope list_scope.
Open Scope Z_scope.

Set Implicit Arguments.

(* ------------------------------------------------------------------ *)
(** ** Machine integers *)

Definition u64 (z : Z) : Z := z mod 2 ^ 64.
Definition i64 (z : Z) : Z := (z + 2 ^ 63) mod 2 ^ 64 - 2 ^ 63.

Definition is_u64 (z : Z) : Prop := 0 <= z < 2 ^ 64.
Definition is_i64 (z : Z) : Prop := - 2 ^ 63 <= z < 2 ^ 63.

Definition bytes := list Byte.byte.

(* ------------------------------------------------------------------ *)
(** ** Outcomes of a call

    A call either returns ([Done]) or leaves through one of three exits:
    the error value built by [makeNonDeterministicFailure] /
    [wrapWithNonDeterministicFailure] (carrying its safe explanation),
    [log.Fatalf], or a runtime panic.  Messages are kept as the format
    strings of the source, their arguments left out. *)

Inductive Exit : Type :=
| NonDeterministicFailure (safeExpl : string)
| LogFatal (msg : string)
| GoPanic (msg : string).

Inductive Outcome (A : Type) : Type :=
| Done (a : A)
| Abort (e : Exit).

Arguments Done {A} a.
Arguments Abort {A} e.

Definition obind {A B} (m : Outcome A) (f : A -> Outcome B) : Outcome B :=
  match m with
  | Done a => f a
  | Abort e => Abort e
  end.

Definition deref {A} (p : option A) : Outcome A :=
  match p with
  | Some a => Done a
  | None => Abort (GoPanic "nil pointer dereference")
  end.

Declare Scope outcome_scope.
Delimit Scope outcome_scope with outcome.
Notation "x <- m ;; k" := (obind m (fun x => k))
  (at level 100, m at next level, right associativity) : outcome_scope.

(* ------------------------------------------------------------------ *)
(** ** package hlc *)

(** Modelled from the spec: [hlc.Timestamp] is declared in package [hlc];
    a timestamp is a wall time with a logical tie-breaker. *)
Record hlc_Timestamp : Type := mkTimestamp {
  WallTime : Z;  (* int64 *)
  Logical : Z    (* int32 *)
}.

Definition zeroTimestamp : hlc_Timestamp := mkTimestamp 0 0.

(** Go's [==] on the struct. *)
Definition Timestamp_eqb (t s : hlc_Timestamp) : bool :=
  (WallTime t =? WallTime s) && (Logical t =? Logical s).

(** Modelled from the spec: [hlc.Timestamp.Less] is declared in package
    [hlc]; the spec writes the check as [gc_threshold < command.timestamp],
    the order of (wall time, logical) pairs. *)
Definition Less (t s : hlc_Timestamp) : bool :=
  (WallTime t <? WallTime s)
  || ((WallTime t =? WallTime s) && (Logical t <? Logical s)).

(** Modelled from the spec: [hlc.Timestamp.Forward] ("advance the batch's
    max_timestamp by the command's timestamp") moves the receiver to [s]
    when it is behind. *)
Definition Forward (t s : hlc_Timestamp) : hlc_Timestamp :=
  if Less t s then s else t.

(* ------------------------------------------------------------------ *)
(** ** package enginepb *)

(** Modelled from the spec: [enginepb.MVCCStats] is declared in package
    [enginepb]; the spec names [contains_estimates], [sys_bytes] and
    [live_bytes], the remaining counters are those the repository's tests
    set.  All counters are [int64]. *)
Record enginepb_MVCCStats : Type := mkStats {
  ContainsEstimates : bool;
  LiveBytes : Z;
  LiveCount : Z;
  KeyBytes : Z;
  KeyCount : Z;
  ValBytes : Z;
  ValCount : Z;
  SysBytes : Z;
  SysCount : Z
}.

Definition zeroStats : enginepb_MVCCStats :=
  mkStats false 0 0 0 0 0 0 0 0.

(** [enginepb.MVCCStatsDelta] has the fields of [MVCCStats]; [ToStats] is
    the conversion between the two struct types. *)
Definition enginepb_MVCCStatsDelta : Type := enginepb_MVCCStats.
Definition ToStats (d : enginepb_MVCCStatsDelta) : enginepb_MVCCStats := d.
Definition ToStatsDelta (s : enginepb_MVCCStats) : enginepb_MVCCStatsDelta := s.

Definition Stats_isZero (s : enginepb_MVCCStats) : bool :=
  negb (ContainsEstimates s)
  && (LiveBytes s =? 0) && (LiveCount s =? 0)
  && (KeyBytes s =? 0) && (KeyCount s =? 0)
  && (ValBytes s =? 0) && (ValCount s =? 0)
  && (SysBytes s =? 0) && (SysCount s =? 0).

(** Modelled from the spec: [MVCCStats.Add] ("add the stats delta
    (commutative, so no ordering required)") adds counter by counter; the
    sum contains estimates when either side does. *)
Definition Stats_Add (ms oms : enginepb_MVCCStats) : enginepb_MVCCStats :=
  {| ContainsEstimates := ContainsEstimates ms || ContainsEstimates oms;
     LiveBytes := i64 (LiveBytes ms + LiveBytes oms);
     LiveCount := i64 (LiveCount ms + LiveCount oms);
     KeyBytes := i64 (KeyBytes ms + KeyBytes oms);
     KeyCount := i64 (KeyCount ms + KeyCount oms);
     ValBytes := i64 (ValBytes ms + ValBytes oms);
     ValCount := i64 (ValCount ms + ValCount oms);
     SysBytes := i64 (SysBytes ms + SysBytes oms);
     SysCount := i64 (SysCount ms + SysCount oms) |}.

Definition Stats_set_ContainsEstimates (v : bool) (s : enginepb_MVCCStats) :=
  mkStats v (LiveBytes s) (LiveCount s) (KeyBytes s) (KeyCount s)
          (ValBytes s) (ValCount s) (SysBytes s) (SysCount s).

Definition Stats_set_SysBytes (v : Z) (s : enginepb_MVCCStats) :=
  mkStats (ContainsEstimates s) (LiveBytes s) (LiveCount s) (KeyBytes s)
          (KeyCount s) (ValBytes s) (ValCount s) v (SysCount s).

Definition Stats_wf (s : enginepb_MVCCStats) : Prop :=
  is_i64 (LiveBytes s) /\ is_i64 (LiveCount s) /\ is_i64 (KeyBytes s)
  /\ is_i64 (KeyCount s) /\ is_i64 (ValBytes s) /\ is_i64 (ValCount s)
  /\ is_i64 (SysBytes s) /\ is_i64 (SysCount s).

(* ------------------------------------------------------------------ *)
(** ** package roachpb *)

(** Modelled from the spec: the descriptors, the lease and the errors are
    declared in package [roachpb].  A range descriptor lists its replicas;
    a lease carries its [sequence] and [proposed_timestamp] and names the
    replica that holds it; the fields kept are those this file reads. *)
Record roachpb_ReplicaDescriptor : Type := mkReplicaDescriptor {
  NodeID : Z;
  StoreID : Z;
  ReplicaID : Z
}.

Record roachpb_RangeDescriptor : Type := mkRangeDescriptor {
  RangeID : Z;
  Replicas : list roachpb_ReplicaDescriptor;
  NextReplicaID : Z
}.

(** Modelled from the spec: [RangeDescriptor.GetReplicaDescriptor] is
    declared in package [roachpb]; the spec reads the check as "the
    destination replica is in the current descriptor": the first replica
    of the descriptor on the given store. *)
Definition GetReplicaDescriptor (desc : roachpb_RangeDescriptor) (storeID : Z)
  : option roachpb_ReplicaDescriptor :=
  find (fun rd => StoreID rd =? storeID) (Replicas desc).

Record roachpb_Lease : Type := mkLease {
  Start : hlc_Timestamp;
  Expiration : option hlc_Timestamp;
  Replica : roachpb_ReplicaDescriptor;
  ProposedTS : option hlc_Timestamp;
  Epoch : Z;
  Sequence : Z
}.

Definition zeroLease : roachpb_Lease :=
  mkLease zeroTimestamp None (mkReplicaDescriptor 0 0 0) None 0 0.

(** The errors built in this file ([roachpb.NewError], [roachpb.NewErrorf])
    and the one a testing filter may hand back. *)
Inductive roachpb_Error : Type :=
| EmptyRaftEntryError
    (* "no-op on empty Raft entry" *)
| LeaseRejectedError (Existing Requested : roachpb_Lease) (Message : string)
| NotLeaseHolderError (lease : roachpb_Lease) (proposerStoreID : Z)
    (desc : option roachpb_RangeDescriptor) (proposerLeaseSequence : Z)
| IllegalLeaseIndexError (leaseIndex maxLeaseIndex : Z)
    (* "command observed at lease index %d, but required < %d" *)
| BatchTimestampBeforeGCError (Timestamp Threshold : hlc_Timestamp)
| OtherError (msg : string).

(** Modelled from the spec: [proposalReevaluationReason] (the retry kind)
    is an [int] enumeration declared with the proposals; this file compares
    it with 0 for "no re-evaluation", the other value being the
    "illegal lease index" retry hint. *)
Definition proposalReevaluationReason : Type := Z.
Definition proposalNoReevaluation : proposalReevaluationReason := 0.
Definition proposalIllegalLeaseIndex : proposalReevaluationReason := 1.

(* ------------------------------------------------------------------ *)
(** ** package storagepb *)

(** Modelled from the spec: [ReplicaState], [ReplicatedEvalResult] and
    [RaftCommand] are declared in package [storagepb] (section 3, "ReplicaState"
    and "Command"); the fields are those this file reads and writes, a
    pointer field being an [option]. *)
Record roachpb_RaftTruncatedState : Type := mkTruncatedState {
  TruncIndex : Z;
  TruncTerm : Z
}.

Record storagepb_ReplicaState : Type := mkReplicaState {
  RaftAppliedIndex : Z;                         (* uint64 *)
  LeaseAppliedIndex : Z;                        (* uint64 *)
  Desc : option roachpb_RangeDescriptor;
  Lease : option roachpb_Lease;
  TruncatedState : option roachpb_RaftTruncatedState;
  GCThreshold : option hlc_Timestamp;
  Stats : option enginepb_MVCCStats;
  DeprecatedTxnSpanGCThreshold : option hlc_Timestamp;
  UsingAppliedStateKey : bool
}.

Definition zeroReplicaState : storagepb_ReplicaState :=
  mkReplicaState 0 0 None None None None None None false.

Definition isSome {A} (o : option A) : bool :=
  match o with Some _ => true | None => false end.
Definition isNone {A} (o : option A) : bool := negb (isSome o).

(** [*state == storagepb.ReplicaState{}]: the pointers are compared as
    pointers, so the struct is the zero value when all of them are nil. *)
Definition ReplicaState_isZero (s : storagepb_ReplicaState) : bool :=
  (RaftAppliedIndex s =? 0) && (LeaseAppliedIndex s =? 0)
  && isNone (Desc s) && isNone (Lease s) && isNone (TruncatedState s)
  && isNone (GCThreshold s) && isNone (Stats s)
  && isNone (DeprecatedTxnSpanGCThreshold s)
  && negb (UsingAppliedStateKey s).

Definition set_RaftAppliedIndex (v : Z) (s : storagepb_ReplicaState) :=
  mkReplicaState v (LeaseAppliedIndex s) (Desc s) (Lease s) (TruncatedState s)
    (GCThreshold s) (Stats s) (DeprecatedTxnSpanGCThreshold s)
    (UsingAppliedStateKey s).
Definition set_LeaseAppliedIndex (v : Z) (s : storagepb_ReplicaState) :=
  mkReplicaState (RaftAppliedIndex s) v (Desc s) (Lease s) (TruncatedState s)
    (GCThreshold s) (Stats s) (DeprecatedTxnSpanGCThreshold s)
    (UsingAppliedStateKey s).
Definition set_Desc v (s : storagepb_ReplicaState) :=
  mkReplicaState (RaftAppliedIndex s) (LeaseAppliedIndex s) v (Lease s)
    (TruncatedState s) (GCThreshold s) (Stats s)
    (DeprecatedTxnSpanGCThreshold s) (UsingAppliedStateKey s).
Definition set_Lease v (s : storagepb_ReplicaState) :=
  mkReplicaState (RaftAppliedIndex s) (LeaseAppliedIndex s) (Desc s) v
    (TruncatedState s) (GCThreshold s) (Stats s)
    (DeprecatedTxnSpanGCThreshold s) (UsingAppliedStateKey s).
Definition set_TruncatedState v (s : storagepb_ReplicaState) :=
  mkReplicaState (RaftAppliedIndex s) (LeaseAppliedIndex s) (Desc s) (Lease s)
    v (GCThreshold s) (Stats s) (DeprecatedTxnSpanGCThreshold s)
    (UsingAppliedStateKey s).
Definition set_GCThreshold v (s : storagepb_ReplicaState) :=
  mkReplicaState (RaftAppliedIndex s) (LeaseAppliedIndex s) (Desc s) (Lease s)
    (TruncatedState s) v (Stats s) (DeprecatedTxnSpanGCThreshold s)
    (UsingAppliedStateKey s).
Definition set_Stats v (s : storagepb_ReplicaState) :=
  mkReplicaState (RaftAppliedIndex s) (LeaseAppliedIndex s) (Desc s) (Lease s)
    (TruncatedState s) (GCThreshold s) v (DeprecatedTxnSpanGCThreshold s)
    (UsingAppliedStateKey s).
Definition set_DeprecatedTxnSpanGCThreshold v (s : storagepb_ReplicaState) :=
  mkReplicaState (RaftAppliedIndex s) (LeaseAppliedIndex s) (Desc s) (Lease s)
    (TruncatedState s) (GCThreshold s) (Stats s) v (UsingAppliedStateKey s).
Definition set_UsingAppliedStateKey (v : bool) (s : storagepb_ReplicaState) :=
  mkReplicaState (RaftAppliedIndex s) (LeaseAppliedIndex s) (Desc s) (Lease s)
    (TruncatedState s) (GCThreshold s) (Stats s)
    (DeprecatedTxnSpanGCThreshold s) v.

(** Payloads of the non-trivial effects.  Only what this file reads of
    them is kept. *)
Record roachpb_SplitTrigger : Type := mkSplitTrigger {
  SplitLeftDesc : roachpb_RangeDescriptor;
  SplitRightDesc : roachpb_RangeDescriptor
}.
Record storagepb_Split : Type := mkSplit {
  SplitTrigger : roachpb_SplitTrigger
}.
Record storagepb_Merge : Type := mkMerge {
  LeftDesc : roachpb_RangeDescriptor;
  RightDesc : roachpb_RangeDescriptor
}.
Record storagepb_ComputeChecksum : Type := mkComputeChecksum {
  ChecksumID : Z
}.
Record storagepb_ChangeReplicas : Type := mkChangeReplicas {
  ChangeType : Z;
  ChangedReplica : roachpb_ReplicaDescriptor
}.
Record storagepb_AddSSTable : Type := mkAddSSTable {
  SSTData : bytes;
  CRC32 : Z
}.
Record storagepb_SuggestedCompaction : Type := mkSuggestedCompaction {
  CompactionBytes : Z
}.

Record storagepb_ReplicatedEvalResult : Type := mkReplicatedEvalResult {
  BlockReads : bool;
  State : option storagepb_ReplicaState;
  Split : option storagepb_Split;
  Merge : option storagepb_Merge;
  ComputeChecksum : option storagepb_ComputeChecksum;
  IsLeaseRequest : bool;
  Timestamp : hlc_Timestamp;
  DeprecatedDelta : option enginepb_MVCCStats;
  Delta : enginepb_MVCCStatsDelta;
  ChangeReplicas : option storagepb_ChangeReplicas;
  RaftLogDelta : Z;                              (* int64 *)
  AddSSTable : option storagepb_AddSSTable;
  SuggestedCompactions : list storagepb_SuggestedCompaction;
  PrevLeaseProposal : option hlc_Timestamp
}.

(** [storagepb.ReplicatedEvalResult{}] *)
Definition zeroReplicatedEvalResult : storagepb_ReplicatedEvalResult :=
  mkReplicatedEvalResult false None None None None false zeroTimestamp None
    zeroStats None 0 None [] None.

(** [res.Equal(storagepb.ReplicatedEvalResult{})] *)
Definition ReplicatedEvalResult_isZero (r : storagepb_ReplicatedEvalResult)
  : bool :=
  negb (BlockReads r) && isNone (State r) && isNone (Split r)
  && isNone (Merge r) && isNone (ComputeChecksum r)
  && negb (IsLeaseRequest r) && Timestamp_eqb (Timestamp r) zeroTimestamp
  && isNone (DeprecatedDelta r) && Stats_isZero (Delta r)
  && isNone (ChangeReplicas r) && (RaftLogDelta r =? 0)
  && isNone (AddSSTable r)
  && match SuggestedCompactions r with [] => true | _ => false end
  && isNone (PrevLeaseProposal r).

Definition set_BlockReads v (r : storagepb_ReplicatedEvalResult) :=
  mkReplicatedEvalResult v (State r) (Split r) (Merge r) (ComputeChecksum r)
    (IsLeaseRequest r) (Timestamp r) (DeprecatedDelta r) (Delta r)
    (ChangeReplicas r) (RaftLogDelta r) (AddSSTable r)
    (SuggestedCompactions r) (PrevLeaseProposal r).
Definition set_State v (r : storagepb_ReplicatedEvalResult) :=
  mkReplicatedEvalResult (BlockReads r) v (Split r) (Merge r)
    (ComputeChecksum r) (IsLeaseRequest r) (Timestamp r) (DeprecatedDelta r)
    (Delta r) (ChangeReplicas r) (RaftLogDelta r) (AddSSTable r)
    (SuggestedCompactions r) (PrevLeaseProposal r).
Definition set_Split v (r : storagepb_ReplicatedEvalResult) :=
  mkReplicatedEvalResult (BlockReads r) (State r) v (Merge r)
    (ComputeChecksum r) (IsLeaseRequest r) (Timestamp r) (DeprecatedDelta r)
    (Delta r) (ChangeReplicas r) (RaftLogDelta r) (AddSSTable r)
    (SuggestedCompactions r) (PrevLeaseProposal r).
Definition set_Merge v (r : storagepb_ReplicatedEvalResult) :=
  mkReplicatedEvalResult (BlockReads r) (State r) (Split r) v
    (ComputeChecksum r) (IsLeaseRequest r) (Timestamp r) (DeprecatedDelta r)
    (Delta r) (ChangeReplicas r) (RaftLogDelta r) (AddSSTable r)
    (SuggestedCompactions r) (PrevLeaseProposal r).
Definition set_ComputeChecksum v (r : storagepb_ReplicatedEvalResult) :=
  mkReplicatedEvalResult (BlockReads r) (State r) (Split r) (Merge r) v
    (IsLeaseRequest r) (Timestamp r) (DeprecatedDelta r) (Delta r)
    (ChangeReplicas r) (RaftLogDelta r) (AddSSTable r)
    (SuggestedCompactions r) (PrevLeaseProposal r).
Definition set_IsLeaseRequest v (r : storagepb_ReplicatedEvalResult) :=
  mkReplicatedEvalResult (BlockReads r) (State r) (Split r) (Merge r)
    (ComputeChecksum r) v (Timestamp r) (DeprecatedDelta r) (Delta r)
    (ChangeReplicas r) (RaftLogDelta r) (AddSSTable r)
    (SuggestedCompactions r) (PrevLeaseProposal r).
Definition set_Timestamp v (r : storagepb_ReplicatedEvalResult) :=
  mkReplicatedEvalResult (BlockReads r) (State r) (Split r) (Merge r)
    (ComputeChecksum r) (IsLeaseRequest r) v (DeprecatedDelta r) (Delta r)
    (ChangeReplicas r) (RaftLogDelta r) (AddSSTable r)
    (SuggestedCompactions r) (PrevLeaseProposal r).
Definition set_DeprecatedDelta v (r : storagepb_ReplicatedEvalResult) :=
  mkReplicatedEvalResult (BlockReads r) (State r) (Split r) (Merge r)
    (ComputeChecksum r) (IsLeaseRequest r) (Timestamp r) v (Delta r)
    (ChangeReplicas r) (RaftLogDelta r) (AddSSTable r)
    (SuggestedCompactions r) (PrevLeaseProposal r).
Definition set_Delta v (r : storagepb_ReplicatedEvalResult) :=
  mkReplicatedEvalResult (BlockReads r) (State r) (Split r) (Merge r)
    (ComputeChecksum r) (IsLeaseRequest r) (Timestamp r) (DeprecatedDelta r)
    v (ChangeReplicas r) (RaftLogDelta r) (AddSSTable r)
    (SuggestedCompactions r) (PrevLeaseProposal r).
Definition set_ChangeReplicas v (r : storagepb_ReplicatedEvalResult) :=
  mkReplicatedEvalResult (BlockReads r) (State r) (Split r) (Merge r)
    (ComputeChecksum r) (IsLeaseRequest r) (Timestamp r) (DeprecatedDelta r)
    (Delta r) v (RaftLogDelta r) (AddSSTable r)
    (SuggestedCompactions r) (PrevLeaseProposal r).
Definition set_RaftLogDelta v (r : storagepb_ReplicatedEvalResult) :=
  mkReplicatedEvalResult (BlockReads r) (State r) (Split r) (Merge r)
    (ComputeChecksum r) (IsLeaseRequest r) (Timestamp r) (DeprecatedDelta r)
    (Delta r) (ChangeReplicas r) v (AddSSTable r)
    (SuggestedCompactions r) (PrevLeaseProposal r).
Definition set_AddSSTable v (r : storagepb_ReplicatedEvalResult) :=
  mkReplicatedEvalResult (BlockReads r) (State r) (Split r) (Merge r)
    (ComputeChecksum r) (IsLeaseRequest r) (Timestamp r) (DeprecatedDelta r)
    (Delta r) (ChangeReplicas r) (RaftLogDelta r) v
    (SuggestedCompactions r) (PrevLeaseProposal r).
Definition set_SuggestedCompactions v (r : storagepb_ReplicatedEvalResult) :=
  mkReplicatedEvalResult (BlockReads r) (State r) (Split r) (Merge r)
    (ComputeChecksum r) (IsLeaseRequest r) (Timestamp r) (DeprecatedDelta r)
    (Delta r) (ChangeReplicas r) (RaftLogDelta r) (AddSSTable r)
    v (PrevLeaseProposal r).
Definition set_PrevLeaseProposal v (r : storagepb_ReplicatedEvalResult) :=
  mkReplicatedEvalResult (BlockReads r) (State r) (Split r) (Merge r)
    (ComputeChecksum r) (IsLeaseRequest r) (Timestamp r) (DeprecatedDelta r)
    (Delta r) (ChangeReplicas r) (RaftLogDelta r) (AddSSTable r)
    (SuggestedCompactions r) v.

Record storagepb_WriteBatch : Type := mkWriteBatch { Data : bytes }.
Record storagepb_LogicalOpLog : Type := mkLogicalOpLog { Ops : list bytes }.

Record storagepb_RaftCommand : Type := mkRaftCommand {
  ProposerLeaseSequence : Z;
  DeprecatedProposerLease : option roachpb_Lease;
  ProposerReplica : roachpb_ReplicaDescriptor;
  MaxLeaseIndex : Z;                             (* uint64 *)
  ReplicatedEvalResult : storagepb_ReplicatedEvalResult;
  WriteBatch : option storagepb_WriteBatch;
  LogicalOpLog : option storagepb_LogicalOpLog
}.

Definition set_ReplicatedEvalResult v (c : storagepb_RaftCommand) :=
  mkRaftCommand (ProposerLeaseSequence c) (DeprecatedProposerLease c)
    (ProposerReplica c) (MaxLeaseIndex c) v (WriteBatch c) (LogicalOpLog c).
Definition set_WriteBatch v (c : storagepb_RaftCommand) :=
  mkRaftCommand (ProposerLeaseSequence c) (DeprecatedProposerLease c)
    (ProposerReplica c) (MaxLeaseIndex c) (ReplicatedEvalResult c) v
    (LogicalOpLog c).
Definition set_LogicalOpLog v (c : storagepb_RaftCommand) :=
  mkRaftCommand (ProposerLeaseSequence c) (DeprecatedProposerLease c)
    (ProposerReplica c) (MaxLeaseIndex c) (ReplicatedEvalResult c)
    (WriteBatch c) v.

(* ------------------------------------------------------------------ *)
(** ** package raftpb *)

(** Modelled from the spec: an entry carries
    [(index, term, kind in {normal, conf-change}, payload)]; [raftpb.Entry]
    and [raftpb.ConfChange] are declared by the consensus library. *)
Inductive raftpb_EntryType : Type :=
| EntryNormal
| EntryConfChange
| EntryTypeOther (n : Z).

Record raftpb_Entry : Type := mkEntry {
  Term : Z;        (* uint64 *)
  Index : Z;       (* uint64 *)
  Type_ : raftpb_EntryType;
  EntryData : bytes
}.

Record raftpb_ConfChange : Type := mkConfChange {
  ccID : Z;
  ccType : Z;
  ccNodeID : Z;
  ccContext : bytes
}.

Definition zeroConfChange : raftpb_ConfChange := mkConfChange 0 0 0 [].

(* ------------------------------------------------------------------ *)
(** ** package storage: commands *)

Record result_LocalResult : Type := mkLocalResult { Reply : bytes }.

(** The release function returned by [maybeAcquireSplitMergeLock]. *)
Inductive UnlockToken : Type :=
| UnlockSplit (t : roachpb_SplitTrigger)
| UnlockMerge (m : storagepb_Merge).

(** Modelled from the spec: [ProposalData] is declared with the proposals;
    this file reads the proposal's command and its [applied] mark ("a
    command may successfully apply at most once"). *)
Record ProposalData : Type := mkProposalData {
  command : storagepb_RaftCommand;
  applied : bool
}.

(** Modelled from the spec: [replicatedCmd] is declared in
    [replica_application_cmd.go]; the fields are those this file reads and
    writes ([cmd.ent], [cmd.idKey], [cmd.raftCmd], [cmd.cc], [cmd.proposal]
    and the fields "populated during staging"). *)
Record replicatedCmd : Type := mkCmd {
  ent : raftpb_Entry;
  idKey : string;
  raftCmd : storagepb_RaftCommand;
  cc : raftpb_ConfChange;
  proposal : option ProposalData;
  leaseIndex : Z;                                (* uint64 *)
  forcedErr : option roachpb_Error;
  proposalRetry : proposalReevaluationReason;
  splitMergeUnlock : option UnlockToken;
  localResult : option result_LocalResult
}.

Definition set_raftCmd v (c : replicatedCmd) :=
  mkCmd (ent c) (idKey c) v (cc c) (proposal c) (leaseIndex c) (forcedErr c)
    (proposalRetry c) (splitMergeUnlock c) (localResult c).
Definition set_cc v (c : replicatedCmd) :=
  mkCmd (ent c) (idKey c) (raftCmd c) v (proposal c) (leaseIndex c)
    (forcedErr c) (proposalRetry c) (splitMergeUnlock c) (localResult c).
Definition set_proposal v (c : replicatedCmd) :=
  mkCmd (ent c) (idKey c) (raftCmd c) (cc c) v (leaseIndex c) (forcedErr c)
    (proposalRetry c) (splitMergeUnlock c) (localResult c).
Definition set_leaseIndex v (c : replicatedCmd) :=
  mkCmd (ent c) (idKey c) (raftCmd c) (cc c) (proposal c) v (forcedErr c)
    (proposalRetry c) (splitMergeUnlock c) (localResult c).
Definition set_forcedErr v (c : replicatedCmd) :=
  mkCmd (ent c) (idKey c) (raftCmd c) (cc c) (proposal c) (leaseIndex c) v
    (proposalRetry c) (splitMergeUnlock c) (localResult c).
Definition set_proposalRetry v (c : replicatedCmd) :=
  mkCmd (ent c) (idKey c) (raftCmd c) (cc c) (proposal c) (leaseIndex c)
    (forcedErr c) v (splitMergeUnlock c) (localResult c).
Definition set_splitMergeUnlock v (c : replicatedCmd) :=
  mkCmd (ent c) (idKey c) (raftCmd c) (cc c) (proposal c) (leaseIndex c)
    (forcedErr c) (proposalRetry c) v (localResult c).
Definition set_localResult v (c : replicatedCmd) :=
  mkCmd (ent c) (idKey c) (raftCmd c) (cc c) (proposal c) (leaseIndex c)
    (forcedErr c) (proposalRetry c) (splitMergeUnlock c) v.

(** [cmd.replicatedResult()] is [&cmd.raftCmd.ReplicatedEvalResult]. *)
Definition replicatedResult (c : replicatedCmd)
  : storagepb_ReplicatedEvalResult :=
  ReplicatedEvalResult (raftCmd c).
Definition set_replicatedResult v (c : replicatedCmd) : replicatedCmd :=
  set_raftCmd (set_ReplicatedEvalResult v (raftCmd c)) c.

(** Modelled from the spec: [replicatedCmd.IsLocal] ("true if this replica
    is waiting for completion") holds when the command is bound to a local
    proposal. *)
Definition IsLocal (c : replicatedCmd) : bool := isSome (proposal c).

(** Modelled from the spec: [replicatedCmd.Rejected] holds for a command
    with a [forced_err]. *)
Definition Rejected (c : replicatedCmd) : bool := isSome (forcedErr c).

(* ------------------------------------------------------------------ *)
(** ** package storage: replica, batches, state machine *)

(** Writes accumulated in an [engine.Batch]. *)
Inductive BatchOp : Type :=
| OpApplyBatchRepr (repr : bytes)
| OpSplitHardState (t : roachpb_SplitTrigger)
| OpPreDestroy (rangeID nextReplicaID : Z)
| OpTruncatedState (t : roachpb_RaftTruncatedState)
| OpDeleteLegacyAppliedKeys
| OpSetRangeAppliedState (raftIdx leaseIdx : Z) (ms : enginepb_MVCCStats)
| OpSetLegacyAppliedIndex (raftIdx leaseIdx : Z)
| OpSetLegacyMVCCStats (ms : enginepb_MVCCStats).

Definition engine_Batch : Type := list BatchOp.

(** Calls on the replica and its store made by this file, in call order. *)
Inductive Event : Type :=
| EvAcquireSplitLock (t : roachpb_SplitTrigger)
| EvAcquireMergeLock (m : storagepb_Merge)
| EvUnlock (u : UnlockToken)
| EvReadOnlyCmdLock
| EvReadOnlyCmdUnlock
| EvAddSSTablePreApply (term index : Z) (sst : storagepb_AddSSTable)
| EvMetricAddSSTableApplications
| EvMetricAddSSTableApplicationCopies
| EvLogicalOpLog (ops : option storagepb_LogicalOpLog)
| EvMetricMVCCStats (prev cur : enginepb_MVCCStats)
| EvWriteStats (mutations : Z)
| EvSplitQueueAdd
| EvMergeQueueAdd
| EvHandleTruncatedState (t : roachpb_RaftTruncatedState)
| EvHandleRaftLogDelta (delta : Z)
| EvHandleSuggestedCompactions (sc : list storagepb_SuggestedCompaction)
| EvHandleSplit (s : storagepb_Split)
| EvHandleMerge (m : storagepb_Merge)
| EvHandleDesc (d : roachpb_RangeDescriptor)
| EvHandleLease (l : roachpb_Lease)
| EvHandleGCThreshold (t : hlc_Timestamp)
| EvHandleUsingAppliedStateKey
| EvHandleChangeReplicas (c : storagepb_ChangeReplicas)
| EvHandleComputeChecksum (c : storagepb_ComputeChecksum)
| EvAssertState
| EvHandleNoRaftLogDelta
| EvHandleLocalEvalResult (lr : result_LocalResult)
| EvApplyConfChange (c : raftpb_ConfChange).

Record storage_Replica : Type := mkReplica {
  mu_state : storagepb_ReplicaState;    (* r.mu.state *)
  raftLogSizeTrusted : bool;            (* r.mu.raftLogSizeTrusted *)
  r_RangeID : Z;
  r_StoreID : Z;
  clock : hlc_Timestamp;                (* r.store.Clock() *)
  engine : list engine_Batch;           (* batches committed to r.store.engine *)
  trace : list Event
}.

Definition set_mu_state v (r : storage_Replica) :=
  mkReplica v (raftLogSizeTrusted r) (r_RangeID r) (r_StoreID r) (clock r)
    (engine r) (trace r).
Definition set_raftLogSizeTrusted v (r : storage_Replica) :=
  mkReplica (mu_state r) v (r_RangeID r) (r_StoreID r) (clock r) (engine r)
    (trace r).
Definition set_clock v (r : storage_Replica) :=
  mkReplica (mu_state r) (raftLogSizeTrusted r) (r_RangeID r) (r_StoreID r) v
    (engine r) (trace r).
Definition set_engine v (r : storage_Replica) :=
  mkReplica (mu_state r) (raftLogSizeTrusted r) (r_RangeID r) (r_StoreID r)
    (clock r) v (trace r).
Definition emit (e : Event) (r : storage_Replica) :=
  mkReplica (mu_state r) (raftLogSizeTrusted r) (r_RangeID r) (r_StoreID r)
    (clock r) (engine r) (trace r ++ [e]).

Record applyCommittedEntriesStats : Type := mkApplyStats {
  batchesProcessed : Z;
  entriesProcessed : Z;
  stateAssertions : Z;
  numEmptyEntries : Z
}.

(** [replicaAppBatch].  The Go field [stats] is the storage [state.Stats]
    points to ([b.state.Stats = &b.stats]); it is the [Stats] of [b_state]
    here, a value of its own, apart from the replica's. *)
Record replicaAppBatch : Type := mkAppBatch {
  b_batch : option engine_Batch;   (* nil once committed or closed *)
  b_state : storagepb_ReplicaState;
  maxTS : hlc_Timestamp;
  migrateToAppliedStateKey : bool;
  entries : Z;
  emptyEntries : Z;
  mutations : Z
}.

Definition zeroAppBatch : replicaAppBatch :=
  mkAppBatch None zeroReplicaState zeroTimestamp false 0 0 0.

Definition set_b_batch v (b : replicaAppBatch) :=
  mkAppBatch v (b_state b) (maxTS b) (migrateToAppliedStateKey b) (entries b)
    (emptyEntries b) (mutations b).
Definition set_b_state v (b : replicaAppBatch) :=
  mkAppBatch (b_batch b) v (maxTS b) (migrateToAppliedStateKey b) (entries b)
    (emptyEntries b) (mutations b).
Definition set_maxTS v (b : replicaAppBatch) :=
  mkAppBatch (b_batch b) (b_state b) v (migrateToAppliedStateKey b)
    (entries b) (emptyEntries b) (mutations b).
Definition set_migrateToAppliedStateKey v (b : replicaAppBatch) :=
  mkAppBatch (b_batch b) (b_state b) (maxTS b) v (entries b) (emptyEntries b)
    (mutations b).
Definition set_entries v (b : replicaAppBatch) :=
  mkAppBatch (b_batch b) (b_state b) (maxTS b) (migrateToAppliedStateKey b) v
    (emptyEntries b) (mutations b).
Definition set_emptyEntries v (b : replicaAppBatch) :=
  mkAppBatch (b_batch b) (b_state b) (maxTS b) (migrateToAppliedStateKey b)
    (entries b) v (mutations b).
Definition set_mutations v (b : replicaAppBatch) :=
  mkAppBatch (b_batch b) (b_state b) (maxTS b) (migrateToAppliedStateKey b)
    (entries b) (emptyEntries b) v.

Record ephemeralReplicaAppBatch : Type := mkEphemeralBatch {
  mb_state : storagepb_ReplicaState
}.

(** [replicaStateMachine]; [b.r], [b.sm] and [mb.r] point back into it. *)
Record replicaStateMachine : Type := mkStateMachine {
  r : storage_Replica;
  batch : replicaAppBatch;
  ephemeralBatch : ephemeralReplicaAppBatch;
  stats : applyCommittedEntriesStats
}.

Definition set_r v (sm : replicaStateMachine) :=
  mkStateMachine v (batch sm) (ephemeralBatch sm) (stats sm).
Definition set_batch v (sm : replicaStateMachine) :=
  mkStateMachine (r sm) v (ephemeralBatch sm) (stats sm).
Definition set_ephemeralBatch v (sm : replicaStateMachine) :=
  mkStateMachine (r sm) (batch sm) v (stats sm).
Definition set_stats v (sm : replicaStateMachine) :=
  mkStateMachine (r sm) (batch sm) (ephemeralBatch sm) v.

(* ------------------------------------------------------------------ *)
(** ** The environment: what the calls leaving this file return *)

Record ApplyFilterArgs : Type := mkApplyFilterArgs {
  fa_CmdID : string;
  fa_ReplicatedEvalResult : storagepb_ReplicatedEvalResult;
  fa_StoreID : Z;
  fa_RangeID : Z
}.

Record Env : Type := mkEnv {
  (* roachpb.Lease.Equivalent *)
  Equivalent : roachpb_Lease -> roachpb_Lease -> bool;
  (* r.store.cfg.TestingKnobs.TestingApplyFilter *)
  TestingApplyFilter :
    option (ApplyFilterArgs -> Z * option roachpb_Error);
  (* r.acquireSplitLock / r.acquireMergeLock: does the call fail? *)
  acquireSplitLockFails : roachpb_SplitTrigger -> bool;
  acquireMergeLockFails : storagepb_Merge -> bool;
  (* engine.RocksDBBatchCount: None when the header cannot be read *)
  RocksDBBatchCount : bytes -> option Z;
  (* engine.Batch.ApplyBatchRepr *)
  ApplyBatchReprFails : engine_Batch -> bytes -> bool;
  (* addSSTablePreApply: was the file copied? *)
  addSSTablePreApply : Z -> Z -> storagepb_AddSSTable -> bool;
  (* r.store.GetReplica, rhsRepl.preDestroyRaftMuLocked *)
  GetReplicaFails : Z -> bool;
  preDestroyFails : Z -> Z -> bool;
  (* handleTruncatedStateBelowRaft: None on error, else (apply, writes) *)
  handleTruncatedStateBelowRaft :
    option roachpb_RaftTruncatedState -> roachpb_RaftTruncatedState ->
    option (bool * list BatchOp);
  (* the state loader; MigrateToRangeAppliedStateKey is handed
     b.state.Stats and returns the stats as the deletions leave them,
     None on error *)
  MigrateToRangeAppliedStateKey :
    engine_Batch -> enginepb_MVCCStats -> option enginepb_MVCCStats;
  SetRangeAppliedStateFails : engine_Batch -> Z -> Z -> bool;
  SetLegacyAppliedIndexBlind : engine_Batch -> Z -> Z -> option Z;
  CalcAppliedIndexSysBytes : Z -> Z -> Z;
  SetMVCCStatsFails : engine_Batch -> enginepb_MVCCStats -> bool;
  (* engine.Batch.Commit *)
  CommitFails : engine_Batch -> bool;
  (* queue conditions, throttles included *)
  shouldQueueSplit : storagepb_ReplicaState -> bool;
  shouldQueueMerge : storagepb_ReplicaState -> bool;
  (* r.prepareLocalResult: the reply it sets on the command *)
  prepareLocalResultReply : storage_Replica -> replicatedCmd -> option result_LocalResult;
  (* r.handleTruncatedStateResult: the log-size delta it returns *)
  handleTruncatedStateResult : roachpb_RaftTruncatedState -> Z;
  (* r.withRaftGroup *)
  withRaftGroupFails : raftpb_ConfChange -> bool
}.

(* ------------------------------------------------------------------ *)
(** ** The force-error check *)

Notation "' p <- m ;; k" := (obind m (fun p => k))
  (at level 100, p pattern, m at next level, right associativity)
  : outcome_scope.

Section ForceErrorCheck.

Variable env : Env.

(** The lease comparison of [checkForcedErr] (the [leaseMismatch]
    variable), with the lease the command requests when it is a lease
    request. *)
Definition leaseMismatch (raftCmd : storagepb_RaftCommand)
    (isLeaseRequest : bool) (requestedLease : roachpb_Lease)
    (replicaState : storagepb_ReplicaState) : Outcome bool :=
  (match DeprecatedProposerLease raftCmd with
   | Some deprecated =>
       cur <- deref (Lease replicaState) ;;
       Done (negb (Equivalent env deprecated cur))
   | None =>
       cur <- deref (Lease replicaState) ;;
       let mismatch := negb (ProposerLeaseSequence raftCmd =? Sequence cur) in
       if negb mismatch && isLeaseRequest then
         let mismatch1 :=
           if Sequence cur =? Sequence requestedLease
           then negb (Equivalent env cur requestedLease)
           else mismatch in
         match PrevLeaseProposal (ReplicatedEvalResult raftCmd) with
         | Some prev =>
             proposed <- deref (ProposedTS cur) ;;
             Done (if negb (Timestamp_eqb prev proposed) then true
                   else mismatch1)
         | None => Done mismatch1
         end
       else Done mismatch
   end)%outcome.

(** The GC-threshold check that ends [checkForcedErr], at the lease index
    chosen before it. *)
Definition checkGCThreshold (leaseIndex : Z)
    (raftCmd : storagepb_RaftCommand) (replicaState : storagepb_ReplicaState)
  : Outcome (Z * proposalReevaluationReason * option roachpb_Error) :=
  (let ts := Timestamp (ReplicatedEvalResult raftCmd) in
   threshold <- deref (GCThreshold replicaState) ;;
   if negb (Less threshold ts) then
     Done (leaseIndex, proposalNoReevaluation,
           Some (BatchTimestampBeforeGCError ts threshold))
   else Done (leaseIndex, proposalNoReevaluation, None))%outcome.

Definition checkForcedErr (idKey : string) (raftCmd : storagepb_RaftCommand)
    (isLocal : bool) (replicaState : storagepb_ReplicaState)
  : Outcome (Z * proposalReevaluationReason * option roachpb_Error) :=
  (let leaseIndex := LeaseAppliedIndex replicaState in
   let isLeaseRequest := IsLeaseRequest (ReplicatedEvalResult raftCmd) in
   requestedLease <-
     (if isLeaseRequest then
        st <- deref (State (ReplicatedEvalResult raftCmd)) ;;
        deref (Lease st)
      else Done zeroLease) ;;
   if String.eqb idKey "" then
     Done (leaseIndex, proposalNoReevaluation, Some EmptyRaftEntryError)
   else
   mismatch <- leaseMismatch raftCmd isLeaseRequest requestedLease
                 replicaState ;;
   if mismatch then
     cur <- deref (Lease replicaState) ;;
     if isLeaseRequest then
       Done (leaseIndex, proposalNoReevaluation,
             Some (LeaseRejectedError cur requestedLease
                     "proposed under invalid lease"))
     else
       Done (leaseIndex, proposalNoReevaluation,
             Some (NotLeaseHolderError cur
                     (StoreID (ProposerReplica raftCmd))
                     (Desc replicaState)
                     (ProposerLeaseSequence raftCmd)))
   else
   if isLeaseRequest then
     desc <- deref (Desc replicaState) ;;
     match GetReplicaDescriptor desc (StoreID (Replica requestedLease)) with
     | None =>
         cur <- deref (Lease replicaState) ;;
         Done (leaseIndex, proposalNoReevaluation,
               Some (LeaseRejectedError cur requestedLease
                       "replica not part of range"))
     | Some _ => checkGCThreshold leaseIndex raftCmd replicaState
     end
   else if LeaseAppliedIndex replicaState <? MaxLeaseIndex raftCmd then
     checkGCThreshold (MaxLeaseIndex raftCmd) raftCmd replicaState
   else
     let retry :=
       if isLocal then proposalIllegalLeaseIndex
       else proposalNoReevaluation in
     Done (leaseIndex, retry,
           Some (IllegalLeaseIndexError leaseIndex (MaxLeaseIndex raftCmd)))
  )%outcome.

(** [Replica.shouldApplyCommand]: sets the command's [leaseIndex],
    [proposalRetry] and [forcedErr]; the command is to be applied when
    [forcedErr] is nil. *)
Definition shouldApplyCommand (rep : storage_Replica) (cmd : replicatedCmd)
    (replicaState : storagepb_ReplicaState) : Outcome (replicatedCmd * bool) :=
  ('(li, retry, ferr) <-
     checkForcedErr (idKey cmd) (raftCmd cmd) (IsLocal cmd) replicaState ;;
   let cmd1 :=
     set_forcedErr ferr (set_proposalRetry retry (set_leaseIndex li cmd)) in
   let cmd2 :=
     match TestingApplyFilter env, forcedErr cmd1 with
     | Some filter, None =>
         let '(newPropRetry, ferr') :=
           filter (mkApplyFilterArgs (idKey cmd1) (replicatedResult cmd1)
                     (r_StoreID rep) (r_RangeID rep)) in
         let cmd' := set_forcedErr ferr' cmd1 in
         if proposalRetry cmd' =? 0
         then set_proposalRetry newPropRetry cmd'
         else cmd'
     | _, _ => cmd1
     end in
   Done (cmd2, isNone (forcedErr cmd2)))%outcome.

End ForceErrorCheck.

(* ------------------------------------------------------------------ *)
(** ** Methods on the state machine: state passing with exits

    A method of [replicaStateMachine], or of a batch it owns, is a function
    from the state machine to an outcome and the state machine it leaves. *)

Definition M (A : Type) : Type :=
  replicaStateMachine -> Outcome A * replicaStateMachine.

Definition ret {A} (a : A) : M A := fun sm => (Done a, sm).
Definition fail {A} (e : Exit) : M A := fun sm => (Abort e, sm).
Definition bind {A B} (m : M A) (f : A -> M B) : M B :=
  fun sm =>
    match m sm with
    | (Done a, sm') => f a sm'
    | (Abort e, sm') => (Abort e, sm')
    end.
Definition get : M replicaStateMachine := fun sm => (Done sm, sm).
Definition modify (f : replicaStateMachine -> replicaStateMachine) : M unit :=
  fun sm => (Done tt, f sm).
Definition liftO {A} (o : Outcome A) : M A := fun sm => (o, sm).
Definition when (c : bool) (m : M unit) : M unit := if c then m else ret tt.

Declare Scope sm_scope.
Delimit Scope sm_scope with sm.
Notation "x <- m ;; k" := (bind m (fun x => k))
  (at level 100, m at next level, right associativity) : sm_scope.
Notation "' p <- m ;; k" := (bind m (fun p => k))
  (at level 100, p pattern, m at next level, right associativity) : sm_scope.
Notation "m ;;; k" := (bind m (fun _ => k))
  (at level 100, right associativity) : sm_scope.

Definition modify_r (f : storage_Replica -> storage_Replica) : M unit :=
  modify (fun sm => set_r (f (r sm)) sm).
Definition modify_batch (f : replicaAppBatch -> replicaAppBatch) : M unit :=
  modify (fun sm => set_batch (f (batch sm)) sm).
Definition modify_b_state
    (f : storagepb_ReplicaState -> storagepb_ReplicaState) : M unit :=
  modify_batch (fun b => set_b_state (f (b_state b)) b).
Definition emitEv (e : Event) : M unit := modify_r (emit e).
(** The state machine after the replica has seen the calls [evs]. *)
Definition emitAll (evs : list Event) (sm : replicaStateMachine)
  : replicaStateMachine :=
  fold_left (fun s e => set_r (emit e (r s)) s) evs sm.

(** The open [engine.Batch] of the application batch; a call on a nil
    batch panics. *)
Definition openBatch : M engine_Batch :=
  (sm <- get ;; liftO (deref (b_batch (batch sm))))%sm.
Definition batchWrite (ops : list BatchOp) : M unit :=
  (cur <- openBatch ;;
   modify_batch (set_b_batch (Some (cur ++ ops))))%sm.
(** [b.state.Stats], a pointer. *)
Definition batchStats : M enginepb_MVCCStats :=
  (sm <- get ;; liftO (deref (Stats (b_state (batch sm)))))%sm.

Section StateMachine.

Variable env : Env.

(** [replicaStateMachine.NewBatch].  The ephemeral batch takes a copy of
    [r.mu.state]; the application batch takes a copy whose [Stats] is a
    copy of the replica's stats. *)
Definition NewBatch (ephemeral : bool) : M unit :=
  (sm <- get ;;
   if ephemeral then
     modify (set_ephemeralBatch (mkEphemeralBatch (mu_state (r sm))))
   else
     modify_batch (set_b_batch (Some [])) ;;;
     modify_batch (set_b_state (mu_state (r sm))) ;;;
     live <- liftO (deref (Stats (mu_state (r sm)))) ;;
     modify_b_state (set_Stats (Some live)))%sm.

(** Modelled from the spec: [Replica.maybeAcquireSplitMergeLock] is
    declared outside this file; "if the command requires a split or merge
    lock, acquire it now and attach a release token to the command.  A
    rejected command's cleared result yields no lock."  [None] is the
    error return. *)
Definition maybeAcquireSplitMergeLock (raftCmd : storagepb_RaftCommand)
  : M (option (option UnlockToken)) :=
  (match Split (ReplicatedEvalResult raftCmd) with
   | Some split =>
       emitEv (EvAcquireSplitLock (SplitTrigger split)) ;;;
       if acquireSplitLockFails env (SplitTrigger split) then ret None
       else ret (Some (Some (UnlockSplit (SplitTrigger split))))
   | None =>
       match Merge (ReplicatedEvalResult raftCmd) with
       | Some merge =>
           emitEv (EvAcquireMergeLock merge) ;;;
           if acquireMergeLockFails env merge then ret None
           else ret (Some (Some (UnlockMerge merge)))
       | None => ret (Some None)
       end
   end)%sm.

(** [replicaAppBatch.migrateReplicatedResult] *)
Definition migrateReplicatedResult (cmd : replicatedCmd) : M replicatedCmd :=
  let res := replicatedResult cmd in
  match DeprecatedDelta res with
  | Some deprecatedDelta =>
      if negb (Stats_isZero (Delta res)) then
        fail (LogFatal "stats delta not empty but deprecated delta provided")
      else
        ret (set_replicatedResult
               (set_DeprecatedDelta None
                  (set_Delta (ToStatsDelta deprecatedDelta) res)) cmd)
  | None => ret cmd
  end.

(** [replicaAppBatch.stageWriteBatch] *)
Definition stageWriteBatch (cmd : replicatedCmd) : M unit :=
  (match WriteBatch (raftCmd cmd) with
   | None => ret tt
   | Some wb =>
       match RocksDBBatchCount env (Data wb) with
       | None => ret tt
       | Some n => modify_batch (fun b => set_mutations (i64 (mutations b + n)) b)
       end ;;;
       cur <- openBatch ;;
       if ApplyBatchReprFails env cur (Data wb) then
         fail (NonDeterministicFailure "unable to apply WriteBatch")
       else batchWrite [OpApplyBatchRepr (Data wb)]
   end)%sm.

(** [replicaAppBatch.runPreApplyTriggers]; returns the command with its
    replicated result as the triggers leave it. *)
Definition runPreApplyTriggers (cmd : replicatedCmd) : M replicatedCmd :=
  (let res := replicatedResult cmd in
   (* AddSSTable *)
   res1 <-
     match AddSSTable res with
     | Some sst =>
         let copied :=
           addSSTablePreApply env (Term (ent cmd)) (Index (ent cmd)) sst in
         emitEv (EvAddSSTablePreApply (Term (ent cmd)) (Index (ent cmd)) sst) ;;;
         emitEv EvMetricAddSSTableApplications ;;;
         when copied (emitEv EvMetricAddSSTableApplicationCopies) ;;;
         ret (set_AddSSTable None res)
     | None => ret res
     end ;;
   (* Split *)
   match Split res1 with
   | Some split => batchWrite [OpSplitHardState (SplitTrigger split)]
   | None => ret tt
   end ;;;
   (* Merge *)
   match Merge res1 with
   | Some merge =>
       if GetReplicaFails env (RangeID (RightDesc merge)) then
         fail (NonDeterministicFailure "unable to get replica for merge")
       else
         cur <- openBatch ;;
         if preDestroyFails env (RangeID (RightDesc merge))
              (NextReplicaID (RightDesc merge))
         then fail (NonDeterministicFailure
                      "unable to destroy range before merge")
         else batchWrite [OpPreDestroy (RangeID (RightDesc merge))
                            (NextReplicaID (RightDesc merge))]
   | None => ret tt
   end ;;;
   (* Truncated state *)
   res2 <-
     match State res1 with
     | Some st =>
         match TruncatedState st with
         | Some ts =>
             sm <- get ;;
             match handleTruncatedStateBelowRaft env
                     (TruncatedState (b_state (batch sm))) ts with
             | None =>
                 fail (NonDeterministicFailure
                         "unable to handle truncated state")
             | Some (apply, writes) =>
                 batchWrite writes ;;;
                 if negb apply then
                   modify_r (set_raftLogSizeTrusted false) ;;;
                   ret (set_RaftLogDelta 0
                          (set_State (Some (set_TruncatedState None st)) res1))
                 else ret res1
             end
         | None => ret res1
         end
     | None => ret res1
     end ;;
   (* Logical op log *)
   let cmd' := set_replicatedResult res2 cmd in
   match WriteBatch (raftCmd cmd') with
   | Some _ => emitEv (EvLogicalOpLog (LogicalOpLog (raftCmd cmd')))
   | None =>
       if isSome (LogicalOpLog (raftCmd cmd')) then
         fail (LogFatal "non-nil logical op log with nil write batch")
       else ret tt
   end ;;;
   ret cmd')%sm.

(** [replicaAppBatch.stageTrivialReplicatedEvalResult] *)
Definition stageTrivialReplicatedEvalResult (cmd : replicatedCmd) : M unit :=
  (when (negb (Index (ent cmd) =? 0))
     (modify_b_state (set_RaftAppliedIndex (Index (ent cmd)))) ;;;
   when (negb (leaseIndex cmd =? 0))
     (modify_b_state (set_LeaseAppliedIndex (leaseIndex cmd))) ;;;
   let res := replicatedResult cmd in
   ms <- batchStats ;;
   modify_b_state (set_Stats (Some (Stats_Add ms (ToStats (Delta res))))) ;;;
   match Split res with
   | Some _ =>
       ms' <- batchStats ;;
       modify_b_state (set_Stats (Some (Stats_set_ContainsEstimates false ms')))
   | None => ret tt
   end ;;;
   sm <- get ;;
   match State res with
   | Some st =>
       when (UsingAppliedStateKey st
             && negb (UsingAppliedStateKey (b_state (batch sm))))
         (modify_batch (set_migrateToAppliedStateKey true))
   | None => ret tt
   end)%sm.

(** The command with its effects wiped ("apply an empty command"). *)
Definition wipe (cmd : replicatedCmd) : replicatedCmd :=
  set_raftCmd
    (set_LogicalOpLog None
       (set_WriteBatch None
          (set_ReplicatedEvalResult zeroReplicatedEvalResult (raftCmd cmd))))
    cmd.

(** [replicaAppBatch.Stage] *)
Definition replicaAppBatch_Stage (cmd : replicatedCmd) : M replicatedCmd :=
  (sm <- get ;;
   if Index (ent cmd) =? 0 then
     fail (NonDeterministicFailure
             "processRaftCommand requires a non-zero index")
   else if negb (Index (ent cmd)
                 =? u64 (RaftAppliedIndex (b_state (batch sm)) + 1)) then
     fail (NonDeterministicFailure "applied index jumped from %d to %d")
   else
   '(cmd1, apply) <-
     liftO (shouldApplyCommand env (r sm) cmd (b_state (batch sm))) ;;
   let cmd2 := if negb apply then wipe cmd1 else cmd1 in
   lock <- maybeAcquireSplitMergeLock (raftCmd cmd2) ;;
   cmd3 <-
     match lock with
     | None => fail (NonDeterministicFailure "unable to acquire split lock")
     | Some (Some unlock) => ret (set_splitMergeUnlock (Some unlock) cmd2)
     | Some None => ret cmd2
     end ;;
   modify_batch
     (fun b => set_maxTS (Forward (maxTS b) (Timestamp (replicatedResult cmd3))) b) ;;;
   cmd4 <- migrateReplicatedResult cmd3 ;;
   stageWriteBatch cmd4 ;;;
   cmd5 <- runPreApplyTriggers cmd4 ;;
   stageTrivialReplicatedEvalResult cmd5 ;;;
   modify_batch (fun b => set_entries (i64 (entries b + 1)) b) ;;;
   when (Nat.eqb (List.length (EntryData (ent cmd5))) 0)
     (modify_batch (fun b => set_emptyEntries (i64 (emptyEntries b + 1)) b)) ;;;
   ret cmd5)%sm.

End StateMachine.

(* ------------------------------------------------------------------ *)
(** ** Commit of the application batch *)

Section Commit.

Variable env : Env.

(** [replicaAppBatch.addAppliedStateKeyToBatch] *)
Definition addAppliedStateKeyToBatch : M unit :=
  (sm <- get ;;
   when (migrateToAppliedStateKey (batch sm))
     (cur <- openBatch ;;
      ms <- batchStats ;;
      match MigrateToRangeAppliedStateKey env cur ms with
      | None =>
          fail (NonDeterministicFailure
                  "unable to migrate to range applied state")
      | Some ms' =>
          batchWrite [OpDeleteLegacyAppliedKeys] ;;;
          modify_b_state (set_Stats (Some ms')) ;;;
          modify_b_state (set_UsingAppliedStateKey true)
      end) ;;;
   sm1 <- get ;;
   let st := b_state (batch sm1) in
   if UsingAppliedStateKey st then
     cur <- openBatch ;;
     ms <- batchStats ;;
     if SetRangeAppliedStateFails env cur (RaftAppliedIndex st)
          (LeaseAppliedIndex st)
     then fail (NonDeterministicFailure "unable to set range applied state")
     else batchWrite [OpSetRangeAppliedState (RaftAppliedIndex st)
                        (LeaseAppliedIndex st) ms]
   else
     cur <- openBatch ;;
     match SetLegacyAppliedIndexBlind env cur (RaftAppliedIndex st)
             (LeaseAppliedIndex st) with
     | None => fail (NonDeterministicFailure "unable to set applied index")
     | Some appliedIndexNewSysBytes =>
         batchWrite [OpSetLegacyAppliedIndex (RaftAppliedIndex st)
                       (LeaseAppliedIndex st)] ;;;
         ms <- batchStats ;;
         let ms' :=
           Stats_set_SysBytes
             (i64 (SysBytes ms
                   + (appliedIndexNewSysBytes
                      - CalcAppliedIndexSysBytes env (RaftAppliedIndex st)
                          (LeaseAppliedIndex st)))) ms in
         modify_b_state (set_Stats (Some ms')) ;;;
         cur' <- openBatch ;;
         if SetMVCCStatsFails env cur' ms' then
           fail (NonDeterministicFailure "unable to update MVCCStats")
         else batchWrite [OpSetLegacyMVCCStats ms']
     end)%sm.

(** [replicaAppBatch.recordStatsOnCommit] (the latency metric left out) *)
Definition recordStatsOnCommit : M unit :=
  modify (fun sm =>
    let b := batch sm in
    let s := stats sm in
    set_stats
      (mkApplyStats (i64 (batchesProcessed s + 1))
         (i64 (entriesProcessed s + entries b))
         (stateAssertions s)
         (i64 (numEmptyEntries s + emptyEntries b))) sm).

(** [replicaAppBatch.ApplyToStateMachine].  The node clock's [Update] is
    the forward-only update of the spec. *)
Definition replicaAppBatch_ApplyToStateMachine : M unit :=
  (sm <- get ;;
   modify_r (fun rep => set_clock (Forward (clock rep) (maxTS (batch sm))) rep) ;;;
   addAppliedStateKeyToBatch ;;;
   (* commit, without sync *)
   cur <- openBatch ;;
   (if CommitFails env cur then
      fail (NonDeterministicFailure "unable to commit Raft entry batch")
    else modify_r (fun rep => set_engine (engine rep ++ [cur]) rep)) ;;;
   modify_batch (set_b_batch None) ;;;
   (* publish the applied indexes and the stats *)
   sm1 <- get ;;
   let st := b_state (batch sm1) in
   modify_r (fun rep =>
     set_mu_state
       (set_LeaseAppliedIndex (LeaseAppliedIndex st)
          (set_RaftAppliedIndex (RaftAppliedIndex st) (mu_state rep))) rep) ;;;
   prevStats <- liftO (deref (Stats (mu_state (r sm1)))) ;;
   ms <- batchStats ;;
   modify_r (fun rep => set_mu_state (set_Stats (Some ms) (mu_state rep)) rep) ;;;
   sm2 <- get ;;
   let needsSplit := shouldQueueSplit env (mu_state (r sm2)) in
   let needsMerge := shouldQueueMerge env (mu_state (r sm2)) in
   emitEv (EvMetricMVCCStats prevStats ms) ;;;
   emitEv (EvWriteStats (mutations (batch sm2))) ;;;
   when needsSplit (emitEv EvSplitQueueAdd) ;;;
   when needsMerge (emitEv EvMergeQueueAdd) ;;;
   recordStatsOnCommit)%sm.

(** [replicaAppBatch.Close] *)
Definition replicaAppBatch_Close : M unit :=
  modify (set_batch zeroAppBatch).

(** [ephemeralReplicaAppBatch.Stage] *)
Definition ephemeralReplicaAppBatch_Stage (cmd : replicatedCmd)
  : M replicatedCmd :=
  (sm <- get ;;
   '(cmd1, _) <-
     liftO (shouldApplyCommand env (r sm) cmd (mb_state (ephemeralBatch sm))) ;;
   modify (fun sm =>
     set_ephemeralBatch
       (mkEphemeralBatch
          (set_LeaseAppliedIndex (leaseIndex cmd1)
             (mb_state (ephemeralBatch sm)))) sm) ;;;
   ret cmd1)%sm.

(** [ephemeralReplicaAppBatch.ApplyToStateMachine] *)
Definition ephemeralReplicaAppBatch_ApplyToStateMachine : M unit :=
  fail (GoPanic "cannot apply ephemeralReplicaAppBatch to state machine").

(** [ephemeralReplicaAppBatch.Close] *)
Definition ephemeralReplicaAppBatch_Close : M unit :=
  modify (set_ephemeralBatch (mkEphemeralBatch zeroReplicaState)).

End Commit.

(* ------------------------------------------------------------------ *)
(** ** Side effects *)

(** Modelled from the spec: [clearTrivialReplicatedEvalResultFields] is
    declared outside this file; it "clears the already-handled trivial
    fields from the result (these were absorbed at Stage time)": the fields
    the force-error check reads ([IsLeaseRequest], [Timestamp],
    [PrevLeaseProposal]), the stats delta, and the stats bookkeeping of
    [State], which is dropped when nothing else is left in it. *)
Definition clearTrivialReplicatedEvalResultFields
    (res : storagepb_ReplicatedEvalResult) : storagepb_ReplicatedEvalResult :=
  let r1 := set_IsLeaseRequest false res in
  let r2 := set_Timestamp zeroTimestamp r1 in
  let r3 := set_PrevLeaseProposal None r2 in
  let r4 :=
    match State r3 with
    | Some st =>
        let st' := set_DeprecatedTxnSpanGCThreshold None (set_Stats None st) in
        set_State (if ReplicaState_isZero st' then None else Some st') r3
    | None => r3
    end in
  set_Delta zeroStats r4.

(** Modelled from the spec: "a command is trivial iff the residual after
    clearing {stats-delta, timestamp, applied-state-key bookkeeping} is
    empty". *)
Definition isTrivial (res : storagepb_ReplicatedEvalResult) : bool :=
  ReplicatedEvalResult_isZero (clearTrivialReplicatedEvalResultFields res).

Definition IsTrivial (cmd : replicatedCmd) : bool :=
  isTrivial (replicatedResult cmd).

Section SideEffects.

Variable env : Env.

(** The first three handlers of [handleNonTrivialReplicatedEvalResult]:
    truncated state, log-size delta, suggested compactions. *)
Definition handleLogEffects (rResult : storagepb_ReplicatedEvalResult)
  : M storagepb_ReplicatedEvalResult :=
  (r1 <-
     match State rResult with
     | Some st =>
         '(delta, st1) <-
           match TruncatedState st with
           | Some ts =>
               emitEv (EvHandleTruncatedState ts) ;;;
               ret (i64 (RaftLogDelta rResult
                         + handleTruncatedStateResult env ts),
                    set_TruncatedState None st)
           | None => ret (RaftLogDelta rResult, st)
           end ;;
         ret (set_State (if ReplicaState_isZero st1 then None else Some st1)
                (set_RaftLogDelta delta rResult))
     | None => ret rResult
     end ;;
   r2 <-
     (if negb (RaftLogDelta r1 =? 0) then
        emitEv (EvHandleRaftLogDelta (RaftLogDelta r1)) ;;;
        ret (set_RaftLogDelta 0 r1)
      else ret r1) ;;
   match SuggestedCompactions r2 with
   | [] => ret r2
   | sc =>
       emitEv (EvHandleSuggestedCompactions sc) ;;;
       ret (set_SuggestedCompactions [] r2)
   end)%sm.

(** The handlers that follow: split, merge, the state fields, replica
    change, checksum. *)
Definition handleStateEffects (rResult : storagepb_ReplicatedEvalResult)
  : M storagepb_ReplicatedEvalResult :=
  (r1 <-
     match Split rResult with
     | Some s => emitEv (EvHandleSplit s) ;;; ret (set_Split None rResult)
     | None => ret rResult
     end ;;
   r2 <-
     match Merge r1 with
     | Some m => emitEv (EvHandleMerge m) ;;; ret (set_Merge None r1)
     | None => ret r1
     end ;;
   r3 <-
     match State r2 with
     | Some st =>
         st1 <-
           match Desc st with
           | Some d => emitEv (EvHandleDesc d) ;;; ret (set_Desc None st)
           | None => ret st
           end ;;
         st2 <-
           match Lease st1 with
           | Some l => emitEv (EvHandleLease l) ;;; ret (set_Lease None st1)
           | None => ret st1
           end ;;
         st3 <-
           match GCThreshold st2 with
           | Some t =>
               emitEv (EvHandleGCThreshold t) ;;; ret (set_GCThreshold None st2)
           | None => ret st2
           end ;;
         st4 <-
           (if UsingAppliedStateKey st3 then
              emitEv EvHandleUsingAppliedStateKey ;;;
              ret (set_UsingAppliedStateKey false st3)
            else ret st3) ;;
         ret (set_State (if ReplicaState_isZero st4 then None else Some st4) r2)
     | None => ret r2
     end ;;
   r4 <-
     match ChangeReplicas r3 with
     | Some c =>
         emitEv (EvHandleChangeReplicas c) ;;; ret (set_ChangeReplicas None r3)
     | None => ret r3
     end ;;
   match ComputeChecksum r4 with
   | Some c =>
       emitEv (EvHandleComputeChecksum c) ;;; ret (set_ComputeChecksum None r4)
   | None => ret r4
   end)%sm.

(** [replicaStateMachine.handleNonTrivialReplicatedEvalResult].  The
    result is passed by value; next to [shouldAssert] the function's own
    copy is returned as it stands at the return, whose [State] shows what
    the handlers did to the object the command's [State] points to. *)
Definition handleNonTrivialReplicatedEvalResult
    (rResult : storagepb_ReplicatedEvalResult)
  : M (bool * storagepb_ReplicatedEvalResult) :=
  (if ReplicatedEvalResult_isZero rResult then
     fail (LogFatal "zero-value ReplicatedEvalResult passed to handleNonTrivialReplicatedEvalResult")
   else
   r1 <- handleLogEffects rResult ;;
   let shouldAssert := negb (ReplicatedEvalResult_isZero r1) in
   if negb shouldAssert then ret (false, r1)
   else
   r2 <- handleStateEffects r1 ;;
   if negb (ReplicatedEvalResult_isZero r2) then
     fail (LogFatal "unhandled field in ReplicatedEvalResult")
   else ret (true, r2))%sm.

(** [replicaStateMachine.maybeApplyConfChange]; the command is returned
    with its [cc] as the call leaves it, [None] is the error return. *)
Definition maybeApplyConfChange (cmd : replicatedCmd)
  : M (option replicatedCmd) :=
  (match Type_ (ent cmd) with
   | EntryNormal =>
       if isSome (ChangeReplicas (replicatedResult cmd)) then
         fail (LogFatal "unexpected replication change from command")
       else ret (Some cmd)
   | EntryConfChange =>
       let cmd' :=
         if isNone (ChangeReplicas (replicatedResult cmd))
         then set_cc zeroConfChange cmd else cmd in
       if withRaftGroupFails env (cc cmd') then ret None
       else emitEv (EvApplyConfChange (cc cmd')) ;;; ret (Some cmd')
   | EntryTypeOther _ => fail (GoPanic "unexpected")
   end)%sm.

(** What the side-effect handlers leave in the object the command's
    [State] points to, read off the handler's own copy of the result. *)
Definition stateAfterHandlers (before after : storagepb_ReplicatedEvalResult)
  : option storagepb_ReplicaState :=
  match State before with
  | Some _ =>
      Some match State after with
           | Some st => st
           | None => zeroReplicaState
           end
  | None => None
  end.

(** Modelled from the spec: [Replica.prepareLocalResult] is declared
    outside this file; it "prepares a local result (reply payload) before
    running non-trivial effects", here the reply the environment gives. *)
Definition prepareLocalResult (rep : storage_Replica) (cmd : replicatedCmd)
  : replicatedCmd :=
  set_localResult (prepareLocalResultReply env rep cmd) cmd.

(** The end of [replicaStateMachine.ApplySideEffects], from the log-size
    hook on: the local result, the configuration change, and the marking
    of the proposal. *)
Definition finishApplication (cmd4 : replicatedCmd) : M replicatedCmd :=
  (when (RaftLogDelta (replicatedResult cmd4) =? 0)
     (emitEv EvHandleNoRaftLogDelta) ;;;
   match localResult cmd4 with
   | Some lr => emitEv (EvHandleLocalEvalResult lr)
   | None => ret tt
   end ;;;
   confChanged <- maybeApplyConfChange cmd4 ;;
   match confChanged with
   | None => fail (NonDeterministicFailure "unable to apply conf change")
   | Some cmd5 =>
       (* Mark the command as applied. *)
       match proposal cmd5 with
       | Some p =>
           (if negb (Rejected cmd5) then
              if negb (MaxLeaseIndex (raftCmd cmd5)
                       =? MaxLeaseIndex (command p)) then
                fail (LogFatal "finishing proposal with outstanding reproposal at a higher max lease index")
              else if applied p then
                fail (LogFatal "command already applied; unexpected successful result")
              else ret tt
            else ret tt) ;;;
           ret (set_proposal (Some (mkProposalData (command p) true)) cmd5)
       | None => ret cmd5
       end
   end)%sm.

(** The state assertion ([r.assertStateLocked]) and its counter. *)
Definition assertState : M unit :=
  (emitEv EvAssertState ;;;
   modify (fun sm =>
     let s := stats sm in
     set_stats
       (mkApplyStats (batchesProcessed s) (entriesProcessed s)
          (i64 (stateAssertions s + 1)) (numEmptyEntries s)) sm))%sm.

(** The handling of the replicated result in [ApplySideEffects], once the
    trivial fields are cleared: the non-trivial handlers and, when they ask
    for it, the state assertion.  The command comes back with its [State]
    as the handlers left the object it points to. *)
Definition applyReplicatedResult (cmd3 : replicatedCmd) : M replicatedCmd :=
  (if negb (IsTrivial cmd3) then
     '(shouldAssert, rFinal) <-
       handleNonTrivialReplicatedEvalResult (replicatedResult cmd3) ;;
     when shouldAssert assertState ;;;
     ret (set_replicatedResult
            (set_State (stateAfterHandlers (replicatedResult cmd3) rFinal)
               (replicatedResult cmd3)) cmd3)
   else if negb (ReplicatedEvalResult_isZero (replicatedResult cmd3)) then
     fail (LogFatal "failed to handle all side-effects of ReplicatedEvalResult")
   else ret cmd3)%sm.

(** The body of [replicaStateMachine.ApplySideEffects], its deferred
    calls apart. *)
Definition ApplySideEffects_body (cmd : replicatedCmd) : M replicatedCmd :=
  (cmd1 <-
     (if BlockReads (replicatedResult cmd) then
        emitEv EvReadOnlyCmdLock ;;;
        ret (set_replicatedResult
               (set_BlockReads false (replicatedResult cmd)) cmd)
      else ret cmd) ;;
   sm <- get ;;
   let cmd2 := prepareLocalResult (r sm) cmd1 in
   (* clearTrivialReplicatedEvalResultFields(cmd.replicatedResult()) *)
   let cmd3 :=
     set_replicatedResult
       (clearTrivialReplicatedEvalResultFields (replicatedResult cmd2)) cmd2 in
   cmd4 <- applyReplicatedResult cmd3 ;;
   finishApplication cmd4)%sm.

(** [replicaStateMachine.ApplySideEffects]: the body, then the deferred
    unlocks in reverse order of their [defer]; [log.Fatalf] ends the
    process without running them. *)
Definition ApplySideEffects (cmd : replicatedCmd) : M replicatedCmd :=
  fun sm =>
    let '(out, sm1) := ApplySideEffects_body cmd sm in
    let deferred :=
      (if BlockReads (replicatedResult cmd) then [EvReadOnlyCmdUnlock] else [])
      ++ match splitMergeUnlock cmd with
         | Some u => [EvUnlock u]
         | None => []
         end in
    match out with
    | Abort (LogFatal _) => (out, sm1)
    | _ => (out, emitAll deferred sm1)
    end.

End SideEffects.

(* ------------------------------------------------------------------ *)
(** ** Vocabulary of the statements *)

(** The force-error check accepts a command when it returns no error. *)
Definition accepts (env : Env) (idKey : string)
    (raftCmd : storagepb_RaftCommand) (isLocal : bool)
    (replicaState : storagepb_ReplicaState) : Prop :=
  exists li retry,
    checkForcedErr env idKey raftCmd isLocal replicaState
    = Done (li, retry, None).

Definition set_MaxLeaseIndex (v : Z) (c : storagepb_RaftCommand) :=
  mkRaftCommand (ProposerLeaseSequence c) (DeprecatedProposerLease c)
    (ProposerReplica c) v (ReplicatedEvalResult c) (WriteBatch c)
    (LogicalOpLog c).

(** The part of the replica state [checkForcedErr] reads. *)
Definition sameCheckedView (s1 s2 : storagepb_ReplicaState) : Prop :=
  LeaseAppliedIndex s1 = LeaseAppliedIndex s2
  /\ Lease s1 = Lease s2
  /\ Desc s1 = Desc s2
  /\ GCThreshold s1 = GCThreshold s2.

Definition isGCRejection (e : roachpb_Error) : bool :=
  match e with
  | BatchTimestampBeforeGCError _ _ => true
  | _ => false
  end.

(** Writes to the legacy applied-index and MVCC-stats keys. *)
Definition isLegacyWrite (op : BatchOp) : bool :=
  match op with
  | OpSetLegacyAppliedIndex _ _ | OpSetLegacyMVCCStats _ => true
  | _ => false
  end.

Definition noLegacyWrite (ops : list BatchOp) : bool :=
  forallb (fun op => negb (isLegacyWrite op)) ops.

Definition isAssertState (e : Event) : bool :=
  match e with
  | EvAssertState => true
  | _ => false
  end.

Definition countAsserts (tr : list Event) : nat :=
  List.length (filter isAssertState tr).

(** A computation is quiet when all it does to the state machine is to
    make calls on the replica, none of them the state assertion, the same
    calls from every state. *)
Definition quiet {A} (m : M A) : Prop :=
  exists out evs,
    countAsserts evs = 0%nat
    /\ forall sm, m sm = (out, emitAll evs sm).

(** A quiet computation that always returns. *)
Definition returnsQuietly {A} (m : M A) : Prop :=
  exists a evs,
    countAsserts evs = 0%nat
    /\ forall sm, m sm = (Done a, emitAll evs sm).

(** The replicated result [ApplySideEffects] hands to the handlers: the
    command's result once [BlockReads] and the trivial fields are
    cleared. *)
Definition residual (cmd : replicatedCmd) : storagepb_ReplicatedEvalResult :=
  clearTrivialReplicatedEvalResultFields
    (if BlockReads (replicatedResult cmd)
     then set_BlockReads false (replicatedResult cmd)
     else replicatedResult cmd).

(** What is left of a result once the truncated-state, log-size-delta and
    suggested-compactions handlers have consumed their fields. *)
Definition afterLogEffects (res : storagepb_ReplicatedEvalResult)
  : storagepb_ReplicatedEvalResult :=
  let r1 :=
    match State res with
    | Some st =>
        let st1 := set_TruncatedState None st in
        set_State (if ReplicaState_isZero st1 then None else Some st1) res
    | None => res
    end in
  set_SuggestedCompactions [] (set_RaftLogDelta 0 r1).

(** The call of a handler on a field that is set. *)
Definition callOn {A} (handler : A -> Event) (field : option A) : list Event :=
  match field with
  | Some a => [handler a]
  | None => []
  end.

(** The log-size delta [handleRaftLogDeltaResult] is to see: the result's
    own, to which the truncated-state handler has added what it
    returned. *)
Definition logDeltaToHandle (env : Env) (res : storagepb_ReplicatedEvalResult)
  : Z :=
  match State res with
  | Some st =>
      match TruncatedState st with
      | Some ts => i64 (RaftLogDelta res + handleTruncatedStateResult env ts)
      | None => RaftLogDelta res
      end
  | None => RaftLogDelta res
  end.

(** The calls [handleNonTrivialReplicatedEvalResult] owes a result before
    it decides on the assertion, one for each field that is set, in the
    order of the function: truncated state, log-size delta, suggested
    compactions. *)
Definition logHandlerCalls (env : Env) (res : storagepb_ReplicatedEvalResult)
  : list Event :=
  match State res with
  | Some st => callOn EvHandleTruncatedState (TruncatedState st)
  | None => []
  end
  ++ (if logDeltaToHandle env res =? 0 then []
      else [EvHandleRaftLogDelta (logDeltaToHandle env res)])
  ++ match SuggestedCompactions res with
     | [] => []
     | sc => [EvHandleSuggestedCompactions sc]
     end.

(** The calls it owes afterwards: split, merge, descriptor, lease, GC
    threshold, applied-state key, replica change, checksum. *)
Definition stateHandlerCalls (res : storagepb_ReplicatedEvalResult)
  : list Event :=
  callOn EvHandleSplit (Split res)
  ++ callOn EvHandleMerge (Merge res)
  ++ match State res with
     | Some st =>
         callOn EvHandleDesc (Desc st)
         ++ callOn EvHandleLease (Lease st)
         ++ callOn EvHandleGCThreshold (GCThreshold st)
         ++ (if UsingAppliedStateKey st then [EvHandleUsingAppliedStateKey]
             else [])
     | None => []
     end
  ++ callOn EvHandleChangeReplicas (ChangeReplicas res)
  ++ callOn EvHandleComputeChecksum (ComputeChecksum res).

(** All the handler calls a result is owed: the second group only when
    the first leaves something of the result. *)
Definition handlerCalls (env : Env) (res : storagepb_ReplicatedEvalResult)
  : list Event :=
  logHandlerCalls env res
  ++ (if ReplicatedEvalResult_isZero (afterLogEffects res) then []
      else stateHandlerCalls res).

(** The state machine as [ApplySideEffects] leaves it before the handlers
    run: the read-only lock is taken when the command blocks reads. *)
Definition beforeHandlers (cmd : replicatedCmd) (sm : replicaStateMachine)
  : replicaStateMachine :=
  if BlockReads (replicatedResult cmd)
  then set_r (emit EvReadOnlyCmdLock (r sm)) sm
  else sm.

(* ------------------------------------------------------------------ *)
(** ** Scenarios (the literal values of the spec's end-to-end cases) *)

Module Scenario.

Definition env0 : Env :=
  {| Equivalent := fun _ _ => true;
     TestingApplyFilter := None;
     acquireSplitLockFails := fun _ => false;
     acquireMergeLockFails := fun _ => false;
     RocksDBBatchCount := fun _ => Some 1;
     ApplyBatchReprFails := fun _ _ => false;
     addSSTablePreApply := fun _ _ _ => false;
     GetReplicaFails := fun _ => false;
     preDestroyFails := fun _ _ => false;
     handleTruncatedStateBelowRaft := fun _ _ => Some (true, []);
     MigrateToRangeAppliedStateKey := fun _ ms => Some ms;
     SetRangeAppliedStateFails := fun _ _ _ => false;
     SetLegacyAppliedIndexBlind := fun _ _ _ => Some 0;
     CalcAppliedIndexSysBytes := fun _ _ => 0;
     SetMVCCStatsFails := fun _ _ => false;
     CommitFails := fun _ => false;
     shouldQueueSplit := fun _ => false;
     shouldQueueMerge := fun _ => false;
     prepareLocalResultReply := fun _ _ => None;
     handleTruncatedStateResult := fun _ => 0;
     withRaftGroupFails := fun _ => false |}.

(** The same environment with a storage engine that refuses to commit. *)
Definition envCommitFails : Env :=
  {| Equivalent := Equivalent env0;
     TestingApplyFilter := TestingApplyFilter env0;
     acquireSplitLockFails := acquireSplitLockFails env0;
     acquireMergeLockFails := acquireMergeLockFails env0;
     RocksDBBatchCount := RocksDBBatchCount env0;
     ApplyBatchReprFails := ApplyBatchReprFails env0;
     addSSTablePreApply := addSSTablePreApply env0;
     GetReplicaFails := GetReplicaFails env0;
     preDestroyFails := preDestroyFails env0;
     handleTruncatedStateBelowRaft := handleTruncatedStateBelowRaft env0;
     MigrateToRangeAppliedStateKey := MigrateToRangeAppliedStateKey env0;
     SetRangeAppliedStateFails := SetRangeAppliedStateFails env0;
     SetLegacyAppliedIndexBlind := SetLegacyAppliedIndexBlind env0;
     CalcAppliedIndexSysBytes := CalcAppliedIndexSysBytes env0;
     SetMVCCStatsFails := SetMVCCStatsFails env0;
     CommitFails := fun _ => true;
     shouldQueueSplit := shouldQueueSplit env0;
     shouldQueueMerge := shouldQueueMerge env0;
     prepareLocalResultReply := prepareLocalResultReply env0;
     handleTruncatedStateResult := handleTruncatedStateResult env0;
     withRaftGroupFails := withRaftGroupFails env0 |}.

Definition replica1 : roachpb_ReplicaDescriptor := mkReplicaDescriptor 1 1 1.

Definition desc1 : roachpb_RangeDescriptor :=
  mkRangeDescriptor 1 [replica1] 2.

Definition lease5 : roachpb_Lease :=
  mkLease zeroTimestamp None replica1 (Some zeroTimestamp) 0 5.

(** [raft_applied_index=10, lease_applied_index=100, lease.sequence=5],
    GC threshold [gc]. *)
Definition stateWithGC (gc : Z) (usingKey : bool) : storagepb_ReplicaState :=
  mkReplicaState 10 100 (Some desc1) (Some lease5) None
    (Some (mkTimestamp gc 0)) (Some zeroStats) None usingKey.

Definition state0 : storagepb_ReplicaState := stateWithGC 50 false.

Definition liveBytes7 : enginepb_MVCCStatsDelta :=
  mkStats false 7 0 0 0 0 0 0 0.

Definition result60 : storagepb_ReplicatedEvalResult :=
  set_Delta liveBytes7
    (set_Timestamp (mkTimestamp 60 0) zeroReplicatedEvalResult).

Definition raftCmdWith (seq maxLeaseIndex : Z)
    (res : storagepb_ReplicatedEvalResult) : storagepb_RaftCommand :=
  mkRaftCommand seq None replica1 maxLeaseIndex res None None.

Definition cmdWith (index : Z) (raftCmd : storagepb_RaftCommand)
    (prop : option ProposalData) : replicatedCmd :=
  mkCmd (mkEntry 1 index EntryNormal [Byte.x01]) "cmd-a" raftCmd
    zeroConfChange prop 0 None proposalNoReevaluation None None.

(** Scenario 1, the happy path. *)
Definition happyCmd : replicatedCmd :=
  cmdWith 11 (raftCmdWith 5 101 result60) None.

(** Scenario 3, illegal lease index on a local command. *)
Definition staleRaftCmd : storagepb_RaftCommand := raftCmdWith 5 100 result60.
Definition staleCmd : replicatedCmd :=
  cmdWith 11 staleRaftCmd (Some (mkProposalData staleRaftCmd true)).

(** A lease request for [lease5] under the lease it extends. *)
Definition leaseRequestCmd (index : Z) : replicatedCmd :=
  cmdWith index
    (raftCmdWith 5 7
       (set_State (Some (set_Lease (Some lease5) zeroReplicaState))
          (set_IsLeaseRequest true result60)))
    None.

(** A command that only carries a log-size delta. *)
Definition logDeltaCmd : replicatedCmd :=
  cmdWith 11 (raftCmdWith 5 101 (set_RaftLogDelta 5 result60)) None.

(** A command that carries a split. *)
Definition splitCmd : replicatedCmd :=
  cmdWith 11
    (raftCmdWith 5 101
       (set_Split (Some (mkSplit (mkSplitTrigger desc1 desc1))) result60))
    None.

(** Scenario 3's command as [Stage] hands it on: rejected and wiped. *)
Definition rejectedStaleCmd : replicatedCmd :=
  wipe (set_forcedErr (Some (IllegalLeaseIndexError 100 100))
          (set_proposalRetry proposalIllegalLeaseIndex
             (set_leaseIndex 100 staleCmd))).

(** A local command whose proposal has not applied yet, accepted, and a
    second one as [Stage] hands it on once rejected for its lease index. *)
Definition pendingCmd : replicatedCmd :=
  cmdWith 11 (raftCmdWith 5 101 result60)
    (Some (mkProposalData (raftCmdWith 5 101 result60) false)).


Definition replicaWith (st : storagepb_ReplicaState) : storage_Replica :=
  mkReplica st true 1 1 zeroTimestamp [] [].

(** A state machine whose application batch was opened on [st]. *)
Definition smWith (st : storagepb_ReplicaState) (migrate : bool)
  : replicaStateMachine :=
  mkStateMachine (replicaWith st)
    (mkAppBatch (Some []) st zeroTimestamp migrate 0 0 0)
    (mkEphemeralBatch st)
    (mkApplyStats 0 0 0 0).

End Scenario.

(* ------------------------------------------------------------------ *)
(** ** Further vocabulary *)

(** A computation respects a relation on state machines when every run,
    whatever its outcome, relates the state it starts from to the state it
    leaves. *)
Definition respects {A}
    (R : replicaStateMachine -> replicaStateMachine -> Prop) (m : M A)
  : Prop :=
  forall sm out sm', m sm = (out, sm') -> R sm sm'.

(** Nothing of the replica's published state, of the batches committed
    to the storage engine, of the node clock, of the ephemeral batch or of
    the counters has moved. *)
Definition liveUntouched (s s' : replicaStateMachine) : Prop :=
  mu_state (r s') = mu_state (r s)
  /\ engine (r s') = engine (r s)
  /\ clock (r s') = clock (r s)
  /\ ephemeralBatch s' = ephemeralBatch s
  /\ stats s' = stats s.

(** The open storage batch has only been appended to. *)
Definition batchGrows (s s' : replicaStateMachine) : Prop :=
  forall ops,
    b_batch (batch s) = Some ops ->
    exists added, b_batch (batch s') = Some (ops ++ added).

(** The batch's view of the replica state, its migration flag, its
    entry counters and its maximal timestamp are as they were. *)
Definition batchStateKept (s s' : replicaStateMachine) : Prop :=
  b_state (batch s') = b_state (batch s)
  /\ migrateToAppliedStateKey (batch s')
     = migrateToAppliedStateKey (batch s)
  /\ entries (batch s') = entries (batch s)
  /\ emptyEntries (batch s') = emptyEntries (batch s)
  /\ maxTS (batch s') = maxTS (batch s).

(** The stats [stageTrivialReplicatedEvalResult] leaves in the batch for
    a command with result [res], from the stats [ms] it found. *)
Definition stagedStats (ms : enginepb_MVCCStats)
    (res : storagepb_ReplicatedEvalResult) : enginepb_MVCCStats :=
  let ms' := Stats_Add ms (ToStats (Delta res)) in
  match Split res with
  | Some _ => Stats_set_ContainsEstimates false ms'
  | None => ms'
  end.

(** What staging may do to the state machine before the trivial state
    updates. *)
Definition stagingStep (s s' : replicaStateMachine) : Prop :=
  liveUntouched s s' /\ batchGrows s s' /\ batchStateKept s s'.

(** What a whole [Stage] may do: the live side is untouched, the storage
    batch only grows, and of the batch's view of the replica state only
    the applied indexes and the stats may move. *)
Definition stagingWhole (s s' : replicaStateMachine) : Prop :=
  liveUntouched s s' /\ batchGrows s s'
  /\ Desc (b_state (batch s')) = Desc (b_state (batch s))
  /\ Lease (b_state (batch s')) = Lease (b_state (batch s))
  /\ TruncatedState (b_state (batch s')) = TruncatedState (b_state (batch s))
  /\ GCThreshold (b_state (batch s')) = GCThreshold (b_state (batch s))
  /\ UsingAppliedStateKey (b_state (batch s'))
     = UsingAppliedStateKey (b_state (batch s))
  /\ DeprecatedTxnSpanGCThreshold (b_state (batch s'))
     = DeprecatedTxnSpanGCThreshold (b_state (batch s)).

(** The decision [shouldApplyCommand] left on a command. *)
Definition sameDecision (c c' : replicatedCmd) : Prop :=
  ent c' = ent c /\ idKey c' = idKey c /\ proposal c' = proposal c
  /\ leaseIndex c' = leaseIndex c /\ forcedErr c' = forcedErr c
  /\ proposalRetry c' = proposalRetry c /\ cc c' = cc c.

(** The side effects a result asks for after the batch has committed. *)
Definition sameTriggers (res res' : storagepb_ReplicatedEvalResult) : Prop :=
  Split res' = Split res /\ Merge res' = Merge res
  /\ ChangeReplicas res' = ChangeReplicas res
  /\ ComputeChecksum res' = ComputeChecksum res
  /\ IsLeaseRequest res' = IsLeaseRequest res
  /\ Timestamp res' = Timestamp res
  /\ BlockReads res' = BlockReads res
  /\ SuggestedCompactions res' = SuggestedCompactions res
  /\ PrevLeaseProposal res' = PrevLeaseProposal res.

(** The stats delta of a result once [migrateReplicatedResult] has folded
    the deprecated delta in. *)
Definition migratedDelta (res : storagepb_ReplicatedEvalResult)
  : enginepb_MVCCStatsDelta :=
  match DeprecatedDelta res with
  | Some d => ToStatsDelta d
  | None => Delta res
  end.

(** The storage writes [Stage] appends for a command it applies: the
    write batch, then the split's hard state, the merge's pre-destroy and
    the writes of the truncated-state handling, which is asked with the
    truncated state [truncated] the batch holds. *)
Definition stagedWrites (env : Env) (raftCmd : storagepb_RaftCommand)
    (truncated : option roachpb_RaftTruncatedState) : list BatchOp :=
  let res := ReplicatedEvalResult raftCmd in
  match WriteBatch raftCmd with
  | Some wb => [OpApplyBatchRepr (Data wb)]
  | None => []
  end
  ++ match Split res with
     | Some split => [OpSplitHardState (SplitTrigger split)]
     | None => []
     end
  ++ match Merge res with
     | Some merge =>
         [OpPreDestroy (RangeID (RightDesc merge))
            (NextReplicaID (RightDesc merge))]
     | None => []
     end
  ++ match State res with
     | Some st =>
         match TruncatedState st with
         | Some ts =>
             match handleTruncatedStateBelowRaft env truncated ts with
             | Some (_, writes) => writes
             | None => []
             end
         | None => []
         end
     | None => []
     end.

(** Calls that take or release a lock. *)
Definition isLockEvent (e : Event) : bool :=
  match e with
  | EvAcquireSplitLock _ | EvAcquireMergeLock _ | EvUnlock _
  | EvReadOnlyCmdLock | EvReadOnlyCmdUnlock => true
  | _ => false
  end.

Definition noLockEvent (evs : list Event) : bool :=
  forallb (fun e => negb (isLockEvent e)) evs.

(** [sm.stats.stateAssertions++] *)
Definition bumpAssertions (s : applyCommittedEntriesStats)
  : applyCommittedEntriesStats :=
  mkApplyStats (batchesProcessed s) (entriesProcessed s)
    (i64 (stateAssertions s + 1)) (numEmptyEntries s).

(** What the handling of side effects may do to the state machine: the
    replica sees further calls [evs], none on a lock; the batches are left
    alone; the assertion counter moves once per state assertion called. *)
Definition handledWith (evs : list Event) (s s' : replicaStateMachine)
  : Prop :=
  trace (r s') = trace (r s) ++ evs
  /\ noLockEvent evs = true
  /\ batch s' = batch s
  /\ ephemeralBatch s' = ephemeralBatch s
  /\ stats s' = Nat.iter (countAsserts evs) bumpAssertions (stats s).

Definition handled (s s' : replicaStateMachine) : Prop :=
  exists evs, handledWith evs s s'.

(** The calls [ApplySideEffects] defers, in the order they run. *)
Definition deferredCalls (cmd : replicatedCmd) : list Event :=
  (if BlockReads (replicatedResult cmd) then [EvReadOnlyCmdUnlock] else [])
  ++ match splitMergeUnlock cmd with
     | Some u => [EvUnlock u]
     | None => []
     end.

(** The replica has seen further calls, all of them in [P]. *)
Definition callsWithin (P : Event -> bool) (s s' : replicaStateMachine)
  : Prop :=
  exists evs, trace (r s') = trace (r s) ++ evs /\ forallb P evs = true.

Definition notConfChange (e : Event) : bool :=
  match e with
  | EvApplyConfChange _ => false
  | _ => true
  end.

(** Every abnormal exit of [m] is one of [P]. *)
Definition exitsWith {A} (P : Exit -> Prop) (m : M A) : Prop :=
  forall sm e sm', m sm = (Abort e, sm') -> P e.

(** The abnormal exits of [replicaAppBatch.Stage]: the error returns, all
    marked as non-deterministic failures, the two fatal log calls, and
    the panic of a nil dereference. *)
Definition stageExit (e : Exit) : Prop :=
  match e with
  | NonDeterministicFailure msg =>
      In msg ["processRaftCommand requires a non-zero index";
              "applied index jumped from %d to %d";
              "unable to acquire split lock";
              "unable to apply WriteBatch";
              "unable to get replica for merge";
              "unable to destroy range before merge";
              "unable to handle truncated state"]
  | LogFatal msg =>
      In msg ["stats delta not empty but deprecated delta provided";
              "non-nil logical op log with nil write batch"]
  | GoPanic msg => msg = "nil pointer dereference"
  end.

(** The abnormal exits of [replicaStateMachine.ApplySideEffects] for an
    entry of type [ty]: the one error return, the fatal log calls, and the
    panic on an unknown entry type. *)
Definition sideEffectExit (ty : raftpb_EntryType) (e : Exit) : Prop :=
  match e with
  | NonDeterministicFailure msg =>
      msg = "unable to apply conf change" /\ ty = EntryConfChange
  | LogFatal msg =>
      In msg ["zero-value ReplicatedEvalResult passed to handleNonTrivialReplicatedEvalResult";
              "unhandled field in ReplicatedEvalResult";
              "failed to handle all side-effects of ReplicatedEvalResult";
              "unexpected replication change from command";
              "finishing proposal with outstanding reproposal at a higher max lease index";
              "command already applied; unexpected successful result"]
  | GoPanic msg =>
      msg = "unexpected" /\ exists n, ty = EntryTypeOther n
  end.

(* ------------------------------------------------------------------ *)
(** * Properties *)

Unset Implicit Arguments.

(** ** The force-error check *)

Lemma i64_id (z : Z) : is_i64 z -> i64 z = z.
Proof.
  unfold is_i64, i64. intros H.
  rewrite Z.mod_small by lia. lia.
Qed.

Lemma u64_id (z : Z) : is_u64 z -> u64 z = z.
Proof. unfold is_u64, u64. intros H. apply Z.mod_small. lia. Qed.

Lemma isNone_true {A} (o : option A) : isNone o = true <-> o = None.
Proof. destruct o; cbn; split; congruence. Qed.

Lemma isSome_false {A} (o : option A) : isSome o = false <-> o = None.
Proof. destruct o; cbn; split; congruence. Qed.

(** For a command that is not a lease request, has an id and was proposed
    under the current lease, the check is the ordering rule followed by
    the GC-threshold rule. *)
Lemma checkForcedErr_nonlease env idKey raftCmd isLocal st :
  IsLeaseRequest (ReplicatedEvalResult raftCmd) = false ->
  idKey <> "" ->
  leaseMismatch env raftCmd false zeroLease st = Done false ->
  checkForcedErr env idKey raftCmd isLocal st
  = if LeaseAppliedIndex st <? MaxLeaseIndex raftCmd
    then checkGCThreshold (MaxLeaseIndex raftCmd) raftCmd st
    else Done (LeaseAppliedIndex st,
               if isLocal then proposalIllegalLeaseIndex
               else proposalNoReevaluation,
               Some (IllegalLeaseIndexError (LeaseAppliedIndex st)
                       (MaxLeaseIndex raftCmd))).
Proof.
  intros Hlease Hid Hmatch.
  apply String.eqb_neq in Hid.
  unfold checkForcedErr.
  rewrite Hlease. cbn [obind].
  rewrite Hid, Hmatch. cbn [obind].
  reflexivity.
Qed.

(** C1 (as amended). For a non-lease command with a non-empty id whose
    proposer lease matches the current lease, [checkForcedErr] accepts the
    command if and only if the state's lease applied index is strictly
    below the command's max lease index and the GC threshold is below the
    command's timestamp.  Whenever the lease applied index is below the
    max lease index the returned lease index is the max lease index (gaps
    are allowed); otherwise the check returns the illegal-lease-index error
    with the lease index unchanged and the retry flag set only for a local
    command. *)
Theorem checkForcedErr_ordering env idKey raftCmd isLocal st threshold :
  IsLeaseRequest (ReplicatedEvalResult raftCmd) = false ->
  idKey <> "" ->
  leaseMismatch env raftCmd false zeroLease st = Done false ->
  GCThreshold st = Some threshold ->
  (accepts env idKey raftCmd isLocal st
   <-> LeaseAppliedIndex st < MaxLeaseIndex raftCmd
       /\ Less threshold (Timestamp (ReplicatedEvalResult raftCmd)) = true)
  /\ (LeaseAppliedIndex st < MaxLeaseIndex raftCmd ->
      exists err,
        checkForcedErr env idKey raftCmd isLocal st
        = Done (MaxLeaseIndex raftCmd, proposalNoReevaluation, err))
  /\ (~ LeaseAppliedIndex st < MaxLeaseIndex raftCmd ->
      checkForcedErr env idKey raftCmd isLocal st
      = Done (LeaseAppliedIndex st,
              if isLocal then proposalIllegalLeaseIndex
              else proposalNoReevaluation,
              Some (IllegalLeaseIndexError (LeaseAppliedIndex st)
                      (MaxLeaseIndex raftCmd)))).
Proof.
  intros Hlease Hid Hmatch Hgc.
  pose proof (checkForcedErr_nonlease env idKey raftCmd isLocal st Hlease Hid Hmatch) as E.
  unfold accepts. rewrite E. unfold checkGCThreshold.
  rewrite Hgc. cbn [deref obind].
  destruct (Z.ltb_spec (LeaseAppliedIndex st) (MaxLeaseIndex raftCmd)) as [Hlt|Hge].
  - destruct (Less threshold (Timestamp (ReplicatedEvalResult raftCmd))) eqn:HL;
      cbn [negb].
    + split; [split|split].
      * intros _. split; [exact Hlt|reflexivity].
      * intros _. eexists; eexists; reflexivity.
      * intros _. eexists; reflexivity.
      * intros Habs. contradiction.
    + split; [split|split].
      * intros (li & retry & Habs). discriminate Habs.
      * intros (_ & Habs). discriminate Habs.
      * intros _. eexists; reflexivity.
      * intros Habs. contradiction.
  - split; [split|split].
    + intros (li & retry & Habs). discriminate Habs.
    + intros (Habs & _). lia.
    + intros Habs. lia.
    + intros _. reflexivity.
Qed.

Lemma checkForcedErr_ordering_witness :
  accepts Scenario.env0 "cmd-a" (Scenario.raftCmdWith 5 101 Scenario.result60)
    true Scenario.state0
  <-> 100 < 101 /\ Less (mkTimestamp 50 0) (mkTimestamp 60 0) = true.
Proof.
  apply (checkForcedErr_ordering Scenario.env0 "cmd-a"
           (Scenario.raftCmdWith 5 101 Scenario.result60) true
           Scenario.state0 (mkTimestamp 50 0)).
  - reflexivity.
  - discriminate.
  - reflexivity.
  - reflexivity.
Defined.

(** C1 (as stated) fails: with the GC threshold at 70 and the command's
    timestamp at 60 the lease applied index 100 is below the max lease
    index 101, yet the command is rejected. *)
Lemma checkForcedErr_ordering_counterexample :
  let st := Scenario.stateWithGC 70 false in
  let raftCmd := Scenario.raftCmdWith 5 101 Scenario.result60 in
  IsLeaseRequest (ReplicatedEvalResult raftCmd) = false
  /\ "cmd-a" <> ""
  /\ leaseMismatch Scenario.env0 raftCmd false zeroLease st = Done false
  /\ LeaseAppliedIndex st < MaxLeaseIndex raftCmd
  /\ checkForcedErr Scenario.env0 "cmd-a" raftCmd true st
     = Done (101, proposalNoReevaluation,
             Some (BatchTimestampBeforeGCError (mkTimestamp 60 0)
                     (mkTimestamp 70 0)))
  /\ ~ (accepts Scenario.env0 "cmd-a" raftCmd true st
        <-> LeaseAppliedIndex st < MaxLeaseIndex raftCmd).
Proof.
  cbv zeta.
  split; [reflexivity|]. split; [discriminate|]. split; [reflexivity|].
  split; [reflexivity|]. split; [reflexivity|].
  intros [_ H].
  destruct H as (li & retry & Habs); [reflexivity|].
  discriminate Habs.
Qed.

(** The check reads the lease applied index, the lease, the descriptor and
    the GC threshold of the replica state, and of the environment only the
    lease equivalence. *)
Lemma checkForcedErr_reads env1 env2 idKey raftCmd isLocal st1 st2 :
  (forall a b, Equivalent env1 a b = Equivalent env2 a b) ->
  sameCheckedView st1 st2 ->
  checkForcedErr env1 idKey raftCmd isLocal st1
  = checkForcedErr env2 idKey raftCmd isLocal st2.
Proof.
  intros Heq (Hidx & Hlease & Hdesc & Hgc).
  unfold checkForcedErr, leaseMismatch, checkGCThreshold.
  rewrite Hidx, Hlease, Hdesc, Hgc.
  destruct (IsLeaseRequest (ReplicatedEvalResult raftCmd));
    [destruct (State (ReplicatedEvalResult raftCmd)) as [rs|];
       [cbn [deref obind]; destruct (Lease rs) as [req|]|]|];
    cbn [deref obind]; try reflexivity;
    (destruct (String.eqb idKey ""); [reflexivity|]);
    destruct (DeprecatedProposerLease raftCmd) as [dl|];
    destruct (Lease st2) as [cur|]; cbn [deref obind]; try reflexivity;
    rewrite ?Heq; reflexivity.
Qed.

(** The is-local flag enters the retry kind only: the lease index and the
    error are the same for a local and for a remote command. *)
Lemma checkForcedErr_local_only_retry env idKey raftCmd isLocal1 isLocal2 st :
  match checkForcedErr env idKey raftCmd isLocal1 st,
        checkForcedErr env idKey raftCmd isLocal2 st with
  | Done (li1, _, err1), Done (li2, _, err2) => li1 = li2 /\ err1 = err2
  | Abort e1, Abort e2 => e1 = e2
  | _, _ => False
  end.
Proof.
  unfold checkForcedErr, checkGCThreshold, obind, deref.
  repeat match goal with
         | |- context [match ?x with _ => _ end] =>
             lazymatch x with
             | context [match _ with _ => _ end] => fail
             | _ => destruct x
             end
         end;
    first [ reflexivity | split; reflexivity ].
Qed.

(** C4. The force-error check is deterministic.  Its result is determined
    by the command id, the raft command, the is-local flag and four fields
    of the replica state -- lease applied index, lease, descriptor, GC
    threshold: two invocations that agree on these return identical
    triples (new lease index, retry kind, error), whatever else differs
    between the replicas that make them -- the remaining fields of the
    replica state and every call the environment answers other than the
    comparison of leases.  The is-local flag, which does differ between
    the proposer and its followers, decides the retry kind only: the lease
    index and the error, hence the decision to reject, are the same on all
    of them. *)
Theorem checkForcedErr_deterministic env1 env2 idKey raftCmd
    isLocal1 isLocal2 st1 st2 :
  (forall a b, Equivalent env1 a b = Equivalent env2 a b) ->
  sameCheckedView st1 st2 ->
  (isLocal1 = isLocal2 ->
   checkForcedErr env1 idKey raftCmd isLocal1 st1
   = checkForcedErr env2 idKey raftCmd isLocal2 st2)
  /\ match checkForcedErr env1 idKey raftCmd isLocal1 st1,
           checkForcedErr env2 idKey raftCmd isLocal2 st2 with
     | Done (li1, _, err1), Done (li2, _, err2) => li1 = li2 /\ err1 = err2
     | Abort e1, Abort e2 => e1 = e2
     | _, _ => False
     end.
Proof.
  intros Heq Hview.
  split.
  - intros ->. apply checkForcedErr_reads; assumption.
  - rewrite (checkForcedErr_reads env1 env2 idKey raftCmd isLocal1 st1 st2
               Heq Hview).
    apply checkForcedErr_local_only_retry.
Qed.

Lemma checkForcedErr_deterministic_witness :
  (true = true ->
   checkForcedErr Scenario.env0 "cmd-a" Scenario.staleRaftCmd true
     Scenario.state0
   = checkForcedErr Scenario.envCommitFails "cmd-a" Scenario.staleRaftCmd
       true (set_Stats None (set_RaftAppliedIndex 999 Scenario.state0)))
  /\ match checkForcedErr Scenario.env0 "cmd-a" Scenario.staleRaftCmd true
             Scenario.state0,
           checkForcedErr Scenario.envCommitFails "cmd-a"
             Scenario.staleRaftCmd true
             (set_Stats None (set_RaftAppliedIndex 999 Scenario.state0)) with
     | Done (li1, _, err1), Done (li2, _, err2) => li1 = li2 /\ err1 = err2
     | Abort e1, Abort e2 => e1 = e2
     | _, _ => False
     end.
Proof.
  apply (checkForcedErr_deterministic Scenario.env0 Scenario.envCommitFails
           "cmd-a" Scenario.staleRaftCmd true true Scenario.state0
           (set_Stats None (set_RaftAppliedIndex 999 Scenario.state0))).
  - intros a b. reflexivity.
  - repeat split.
Defined.

(** The two replicas of the scenario return the same index and error and
    differ in the retry kind, which only the proposer sets. *)
Example checkForcedErr_proposer_and_follower :
  checkForcedErr Scenario.env0 "cmd-a" Scenario.staleRaftCmd true
    Scenario.state0
  = Done (100, proposalIllegalLeaseIndex,
          Some (IllegalLeaseIndexError 100 100))
  /\ checkForcedErr Scenario.envCommitFails "cmd-a" Scenario.staleRaftCmd
       false (set_Stats None (set_RaftAppliedIndex 999 Scenario.state0))
     = Done (100, proposalNoReevaluation,
             Some (IllegalLeaseIndexError 100 100)).
Proof. split; reflexivity. Qed.

(** A lease request leaves the lease index where it was, whatever the
    check decides. *)
Lemma checkForcedErr_lease_request_index env idKey raftCmd isLocal st
    li retry err :
  IsLeaseRequest (ReplicatedEvalResult raftCmd) = true ->
  checkForcedErr env idKey raftCmd isLocal st = Done (li, retry, err) ->
  li = LeaseAppliedIndex st.
Proof.
  intros Hreq.
  unfold checkForcedErr, checkGCThreshold. rewrite Hreq.
  destruct (State (ReplicatedEvalResult raftCmd)) as [rs|];
    cbn [deref obind]; [|discriminate].
  destruct (Lease rs) as [req|]; cbn [deref obind]; [|discriminate].
  destruct (String.eqb idKey ""); [congruence|].
  destruct (leaseMismatch env raftCmd true req st) as [[|]|]; cbn [obind];
    [| |discriminate].
  - destruct (Lease st); cbn [deref obind]; congruence.
  - destruct (Desc st) as [d|]; cbn [deref obind]; [|discriminate].
    destruct (GetReplicaDescriptor d (StoreID (Replica req))).
    + destruct (GCThreshold st) as [g|]; cbn [deref obind]; [|discriminate].
      destruct (negb (Less g (Timestamp (ReplicatedEvalResult raftCmd))));
        congruence.
    + destruct (Lease st); cbn [deref obind]; congruence.
Qed.

(** The lease comparison returns once the current lease is there, and its
    proposal timestamp when the request names a previous one. *)
Lemma leaseMismatch_returns env raftCmd isLeaseRequest req st cur :
  Lease st = Some cur ->
  (PrevLeaseProposal (ReplicatedEvalResult raftCmd) <> None ->
   ProposedTS cur <> None) ->
  exists m, leaseMismatch env raftCmd isLeaseRequest req st = Done m.
Proof.
  intros Hcur Hprev. unfold leaseMismatch. rewrite Hcur.
  destruct (DeprecatedProposerLease raftCmd); cbn [deref obind]; eauto.
  destruct (negb (negb (ProposerLeaseSequence raftCmd =? Sequence cur))
            && isLeaseRequest); eauto.
  destruct (PrevLeaseProposal (ReplicatedEvalResult raftCmd)) as [p|]; eauto.
  destruct (ProposedTS cur) as [t|]; cbn [deref obind]; eauto.
  exfalso. apply Hprev; congruence.
Qed.

(** C8. For every lease-request command, accepted or rejected,
    [checkForcedErr] returns a new lease index equal to the pre-state
    lease applied index; the command's max lease index plays no part in
    the outcome. *)
Theorem checkForcedErr_lease_request env idKey raftCmd isLocal st rs req cur
    desc threshold :
  IsLeaseRequest (ReplicatedEvalResult raftCmd) = true ->
  State (ReplicatedEvalResult raftCmd) = Some rs ->
  Lease rs = Some req ->
  Lease st = Some cur ->
  Desc st = Some desc ->
  GCThreshold st = Some threshold ->
  (PrevLeaseProposal (ReplicatedEvalResult raftCmd) <> None ->
   ProposedTS cur <> None) ->
  (exists retry err,
     checkForcedErr env idKey raftCmd isLocal st
     = Done (LeaseAppliedIndex st, retry, err))
  /\ (forall maxLeaseIndex,
        checkForcedErr env idKey (set_MaxLeaseIndex maxLeaseIndex raftCmd)
          isLocal st
        = checkForcedErr env idKey raftCmd isLocal st).
Proof.
  intros Hreq Hrs Hlease Hcur Hdesc Hgc Hprev. split.
  - assert (exists x, checkForcedErr env idKey raftCmd isLocal st = Done x)
      as [[[li retry] err] Hx].
    { destruct (leaseMismatch_returns env raftCmd true req st cur Hcur Hprev)
        as [m Hm].
      unfold checkForcedErr, checkGCThreshold.
      rewrite Hreq, Hrs. cbn [deref obind]. rewrite Hlease. cbn [deref obind].
      destruct (String.eqb idKey ""); eauto.
      rewrite Hm, Hcur, Hdesc, Hgc. cbn [deref obind].
      destruct m; eauto.
      destruct (GetReplicaDescriptor desc (StoreID (Replica req))); eauto.
      destruct (negb (Less threshold
                        (Timestamp (ReplicatedEvalResult raftCmd)))); eauto. }
    exists retry, err. rewrite Hx.
    rewrite (checkForcedErr_lease_request_index _ _ _ _ _ _ _ _ Hreq Hx).
    reflexivity.
  - intros mli.
    unfold checkForcedErr, leaseMismatch, checkGCThreshold.
    cbn [set_MaxLeaseIndex ReplicatedEvalResult DeprecatedProposerLease
         ProposerLeaseSequence ProposerReplica].
    rewrite Hreq. reflexivity.
Qed.

Lemma checkForcedErr_lease_request_witness :
  exists retry err,
    checkForcedErr Scenario.env0 "cmd-a"
      (raftCmd (Scenario.leaseRequestCmd 11)) false Scenario.state0
    = Done (100, retry, err).
Proof.
  apply (checkForcedErr_lease_request Scenario.env0 "cmd-a"
           (raftCmd (Scenario.leaseRequestCmd 11)) false Scenario.state0
           (set_Lease (Some Scenario.lease5) zeroReplicaState)
           Scenario.lease5 Scenario.lease5 Scenario.desc1 (mkTimestamp 50 0));
    try reflexivity.
  intros _. discriminate.
Defined.

(* ------------------------------------------------------------------ *)
(** ** Sequencing of state-machine methods *)

Lemma bind_Done {A B} (m : M A) (f : A -> M B) sm b sm' :
  bind m f sm = (Done b, sm') ->
  exists a sm1, m sm = (Done a, sm1) /\ f a sm1 = (Done b, sm').
Proof.
  unfold bind. destruct (m sm) as [[a|e] sm1]; intros H.
  - eauto.
  - discriminate H.
Qed.

Lemma bind_Abort {A B} (m : M A) (f : A -> M B) sm e sm' :
  bind m f sm = (Abort e, sm') ->
  m sm = (Abort e, sm')
  \/ exists a sm1, m sm = (Done a, sm1) /\ f a sm1 = (Abort e, sm').
Proof.
  unfold bind. destruct (m sm) as [[a|e1] sm1]; intros H.
  - right. eauto.
  - left. inversion H. reflexivity.
Qed.

Lemma bind_get {B} (f : replicaStateMachine -> M B) sm :
  bind get f sm = f sm sm.
Proof. reflexivity. Qed.

Lemma bind_step {A B} (m : M A) (f : A -> M B) sm a sm1 :
  m sm = (Done a, sm1) -> bind m f sm = f a sm1.
Proof. unfold bind. intros ->. reflexivity. Qed.

(* ------------------------------------------------------------------ *)
(** ** Staging on the application batch *)

(** What [Stage] does before it looks at the command: the two index
    checks. *)
Lemma Stage_index_guard env cmd sm :
  replicaAppBatch_Stage env cmd sm
  = if Index (ent cmd) =? 0 then
      (Abort (NonDeterministicFailure
                "processRaftCommand requires a non-zero index"), sm)
    else if negb (Index (ent cmd)
                  =? u64 (RaftAppliedIndex (b_state (batch sm)) + 1)) then
      (Abort (NonDeterministicFailure "applied index jumped from %d to %d"),
       sm)
    else replicaAppBatch_Stage env cmd sm.
Proof.
  destruct (Index (ent cmd) =? 0) eqn:Hz;
    [unfold replicaAppBatch_Stage; rewrite bind_get, Hz; reflexivity|].
  destruct (negb (Index (ent cmd)
                  =? u64 (RaftAppliedIndex (b_state (batch sm)) + 1))) eqn:Hn;
    [unfold replicaAppBatch_Stage; rewrite bind_get, Hz, Hn; reflexivity|].
  reflexivity.
Qed.

(** C3. [Stage] on an application batch returns a non-deterministic
    failure, leaving the batch (and the rest of the state machine)
    unchanged, whenever the command's entry index is zero or differs from
    the batch state's raft applied index + 1; for every successfully
    staged command the pre-state raft applied index + 1 equals the
    command's entry index. *)
Theorem Stage_index_check env cmd sm :
  is_u64 (Index (ent cmd)) ->
  is_u64 (RaftAppliedIndex (b_state (batch sm))) ->
  ((Index (ent cmd) = 0
    \/ Index (ent cmd) <> RaftAppliedIndex (b_state (batch sm)) + 1) ->
   exists msg,
     replicaAppBatch_Stage env cmd sm
     = (Abort (NonDeterministicFailure msg), sm))
  /\ (forall cmd' sm',
        replicaAppBatch_Stage env cmd sm = (Done cmd', sm') ->
        RaftAppliedIndex (b_state (batch sm)) + 1 = Index (ent cmd)).
Proof.
  intros Hidx Hrai. unfold is_u64 in *.
  rewrite Stage_index_guard.
  destruct (Z.eqb_spec (Index (ent cmd)) 0) as [Hz|Hnz].
  - split; [eauto|]. intros cmd' sm' H. discriminate H.
  - destruct (Z.eqb_spec (Index (ent cmd))
                (u64 (RaftAppliedIndex (b_state (batch sm)) + 1)))
      as [He|Hne]; cbn [negb].
    + assert (RaftAppliedIndex (b_state (batch sm)) + 1 = Index (ent cmd))
        as Hsucc.
      { unfold u64 in He.
        destruct (Z.eq_dec (RaftAppliedIndex (b_state (batch sm)) + 1)
                    (2 ^ 64)) as [Hw|Hw].
        - rewrite Hw, Z.mod_same in He by lia. lia.
        - rewrite Z.mod_small in He by lia. lia. }
      split; [|intros; exact Hsucc].
      intros [H|H]; [contradiction|]. symmetry in Hsucc. contradiction.
    + split; [eauto|]. intros cmd' sm' H. discriminate H.
Qed.

Lemma Stage_index_check_witness :
  exists msg,
    replicaAppBatch_Stage Scenario.env0
      (Scenario.cmdWith 12 (Scenario.raftCmdWith 5 101 Scenario.result60) None)
      (Scenario.smWith Scenario.state0 false)
    = (Abort (NonDeterministicFailure msg),
       Scenario.smWith Scenario.state0 false).
Proof.
  apply (Stage_index_check Scenario.env0
           (Scenario.cmdWith 12
              (Scenario.raftCmdWith 5 101 Scenario.result60) None)
           (Scenario.smWith Scenario.state0 false)).
  - unfold is_u64. cbn. lia.
  - unfold is_u64. cbn. lia.
  - right. cbn. lia.
Defined.

(** The happy path of the spec stages: scenario 1. *)
Example Stage_happy_path :
  exists cmd' sm',
    replicaAppBatch_Stage Scenario.env0 Scenario.happyCmd
      (Scenario.smWith Scenario.state0 false) = (Done cmd', sm')
    /\ RaftAppliedIndex (b_state (batch sm')) = 11
    /\ LeaseAppliedIndex (b_state (batch sm')) = 101
    /\ Stats (b_state (batch sm')) = Some Scenario.liveBytes7.
Proof. do 2 eexists. vm_compute. repeat split. Qed.

Lemma Stats_Add_zero ms : Stats_wf ms -> Stats_Add ms zeroStats = ms.
Proof.
  intros (H1 & H2 & H3 & H4 & H5 & H6 & H7 & H8).
  destruct ms; unfold Stats_Add; cbn in *.
  rewrite !Z.add_0_r, !i64_id, orb_false_r by assumption.
  reflexivity.
Qed.

Ltac run_sm :=
  unfold bind, modify_b_state, modify_batch, modify_r, modify, batchStats,
    openBatch, batchWrite, emitEv, get, liftO, ret, fail, when;
  cbn -[Stats_Add Forward i64 u64].

(** [Stage] on a command the force-error check rejects: the command comes
    back wiped, and the batch state moves as
    [stageTrivialReplicatedEvalResult] moves it for an empty result. *)
Lemma Stage_rejected env cmd sm li retry err ms :
  Index (ent cmd) <> 0 ->
  Index (ent cmd) = u64 (RaftAppliedIndex (b_state (batch sm)) + 1) ->
  checkForcedErr env (idKey cmd) (raftCmd cmd) (IsLocal cmd)
    (b_state (batch sm)) = Done (li, retry, Some err) ->
  Stats (b_state (batch sm)) = Some ms ->
  exists sm',
    replicaAppBatch_Stage env cmd sm
    = (Done (wipe (set_forcedErr (Some err)
                     (set_proposalRetry retry (set_leaseIndex li cmd)))), sm')
    /\ RaftAppliedIndex (b_state (batch sm')) = Index (ent cmd)
    /\ LeaseAppliedIndex (b_state (batch sm'))
       = (if li =? 0 then LeaseAppliedIndex (b_state (batch sm)) else li)
    /\ Stats (b_state (batch sm')) = Some (Stats_Add ms zeroStats)
    /\ b_batch (batch sm') = b_batch (batch sm)
    /\ r sm' = r sm.
Proof.
  intros Hnz Hidx Hcheck Hstats.
  unfold replicaAppBatch_Stage. rewrite bind_get.
  apply Z.eqb_neq in Hnz. rewrite Hnz.
  rewrite <- Hidx, Z.eqb_refl. cbn [negb].
  unfold shouldApplyCommand. rewrite Hcheck. cbn [obind].
  destruct (TestingApplyFilter env); cbn -[Stats_Add Forward i64];
    unfold stageTrivialReplicatedEvalResult;
    cbn -[Stats_Add Forward i64]; rewrite Hnz;
    destruct (li =? 0); cbn -[Stats_Add Forward i64];
    run_sm; rewrite Hstats; cbn -[Stats_Add Forward i64];
    destruct (Datatypes.length (EntryData (ent cmd)) =? 0)%nat;
    cbn -[Stats_Add Forward i64]; eexists; repeat split.
Qed.

(** Of the rejections of [checkForcedErr] only the GC-threshold one
    returns a lease index other than the state's. *)
Lemma checkForcedErr_rejected_index env idKey raftCmd isLocal st li retry err :
  checkForcedErr env idKey raftCmd isLocal st = Done (li, retry, Some err) ->
  (isGCRejection err = false -> li = LeaseAppliedIndex st)
  /\ (isGCRejection err = true ->
      IsLeaseRequest (ReplicatedEvalResult raftCmd) = false ->
      li = MaxLeaseIndex raftCmd
      /\ LeaseAppliedIndex st < MaxLeaseIndex raftCmd).
Proof.
  intros H.
  destruct (IsLeaseRequest (ReplicatedEvalResult raftCmd)) eqn:Hreq.
  - split; [|discriminate]. intros _.
    exact (checkForcedErr_lease_request_index _ _ _ _ _ _ _ _ Hreq H).
  - revert H. unfold checkForcedErr, checkGCThreshold. rewrite Hreq.
    cbn [obind].
    destruct (String.eqb idKey "").
    { intros H; inversion H; subst; split; [reflexivity|discriminate]. }
    destruct (leaseMismatch env raftCmd false zeroLease st) as [[|]|];
      cbn [obind]; [| |discriminate].
    { destruct (Lease st); cbn [deref obind]; [|discriminate].
      intros H; inversion H; subst; split; [reflexivity|discriminate]. }
    destruct (Z.ltb_spec (LeaseAppliedIndex st) (MaxLeaseIndex raftCmd)).
    + destruct (GCThreshold st) as [g|]; cbn [deref obind]; [|discriminate].
      destruct (negb (Less g (Timestamp (ReplicatedEvalResult raftCmd))));
        [|discriminate].
      intros H1; inversion H1; subst. split; [discriminate|].
      intros _ _. split; [reflexivity|assumption].
    + intros H1; inversion H1; subst; split; [reflexivity|discriminate].
Qed.

(** C2 (as amended). For every command rejected by the force-error check
    during [Stage] on an application batch, the command's replicated
    result, write batch and logical op log are cleared, the batch's raft
    applied index advances to the command's entry index, and the batch's
    MVCC stats are left unchanged; the batch's lease applied index is left
    unchanged for every lease request and for every rejection other than
    the GC-threshold one; after the GC-threshold rejection of a command
    that is not a lease request it is the command's max lease index. *)
Theorem Stage_rejected_effects env cmd sm li retry err ms :
  Index (ent cmd) <> 0 ->
  Index (ent cmd) = u64 (RaftAppliedIndex (b_state (batch sm)) + 1) ->
  checkForcedErr env (idKey cmd) (raftCmd cmd) (IsLocal cmd)
    (b_state (batch sm)) = Done (li, retry, Some err) ->
  Stats (b_state (batch sm)) = Some ms ->
  Stats_wf ms ->
  is_u64 (LeaseAppliedIndex (b_state (batch sm))) ->
  exists cmd' sm',
    replicaAppBatch_Stage env cmd sm = (Done cmd', sm')
    /\ replicatedResult cmd' = zeroReplicatedEvalResult
    /\ WriteBatch (raftCmd cmd') = None
    /\ LogicalOpLog (raftCmd cmd') = None
    /\ RaftAppliedIndex (b_state (batch sm')) = Index (ent cmd)
    /\ Stats (b_state (batch sm')) = Some ms
    /\ (isGCRejection err = false ->
        LeaseAppliedIndex (b_state (batch sm'))
        = LeaseAppliedIndex (b_state (batch sm)))
    /\ (isGCRejection err = true ->
        IsLeaseRequest (ReplicatedEvalResult (raftCmd cmd)) = false ->
        LeaseAppliedIndex (b_state (batch sm')) = MaxLeaseIndex (raftCmd cmd))
    /\ (IsLeaseRequest (ReplicatedEvalResult (raftCmd cmd)) = true ->
        LeaseAppliedIndex (b_state (batch sm'))
        = LeaseAppliedIndex (b_state (batch sm))).
Proof.
  intros Hnz Hidx Hcheck Hstats Hwf Hlai.
  destruct (Stage_rejected env cmd sm li retry err ms Hnz Hidx Hcheck Hstats)
    as (sm' & Hrun & Hrai & Hlai' & Hst & _ & _).
  destruct (checkForcedErr_rejected_index _ _ _ _ _ _ _ _ Hcheck)
    as [Hkeep Hgc].
  eexists; exists sm'. split; [exact Hrun|].
  split; [reflexivity|]. split; [reflexivity|]. split; [reflexivity|].
  split; [exact Hrai|].
  split; [rewrite Hst, Stats_Add_zero by assumption; reflexivity|].
  split; [|split].
  - intros Hno. rewrite Hlai', (Hkeep Hno).
    destruct (LeaseAppliedIndex (b_state (batch sm)) =? 0); reflexivity.
  - intros Hyes Hreq. destruct (Hgc Hyes Hreq) as [-> Hlt].
    rewrite Hlai'. unfold is_u64 in Hlai.
    destruct (Z.eqb_spec (MaxLeaseIndex (raftCmd cmd)) 0); [lia|reflexivity].
  - intros Hreq. rewrite Hlai'.
    rewrite (checkForcedErr_lease_request_index _ _ _ _ _ _ _ _ Hreq Hcheck).
    destruct (LeaseAppliedIndex (b_state (batch sm)) =? 0); reflexivity.
Qed.

Lemma Stage_rejected_effects_witness :
  exists cmd' sm',
    replicaAppBatch_Stage Scenario.env0 Scenario.staleCmd
      (Scenario.smWith Scenario.state0 false) = (Done cmd', sm')
    /\ replicatedResult cmd' = zeroReplicatedEvalResult
    /\ WriteBatch (raftCmd cmd') = None
    /\ LogicalOpLog (raftCmd cmd') = None
    /\ RaftAppliedIndex (b_state (batch sm')) = 11
    /\ Stats (b_state (batch sm')) = Some zeroStats
    /\ (isGCRejection (IllegalLeaseIndexError 100 100) = false ->
        LeaseAppliedIndex (b_state (batch sm')) = 100)
    /\ (isGCRejection (IllegalLeaseIndexError 100 100) = true ->
        IsLeaseRequest
          (ReplicatedEvalResult (raftCmd Scenario.staleCmd)) = false ->
        LeaseAppliedIndex (b_state (batch sm')) = 100)
    /\ (IsLeaseRequest
          (ReplicatedEvalResult (raftCmd Scenario.staleCmd)) = true ->
        LeaseAppliedIndex (b_state (batch sm')) = 100).
Proof.
  apply (Stage_rejected_effects Scenario.env0 Scenario.staleCmd
           (Scenario.smWith Scenario.state0 false)
           100 proposalIllegalLeaseIndex (IllegalLeaseIndexError 100 100)
           zeroStats).
  - cbn. lia.
  - reflexivity.
  - reflexivity.
  - reflexivity.
  - unfold Stats_wf, is_i64. cbn. lia.
  - unfold is_u64. cbn. lia.
Defined.

(** A lease request the check rejects for its timestamp (GC threshold 70,
    timestamp 60) leaves the batch's lease applied index at 100. *)
Example Stage_rejected_lease_request_keeps_index :
  exists cmd' sm',
    replicaAppBatch_Stage Scenario.env0 (Scenario.leaseRequestCmd 11)
      (Scenario.smWith (Scenario.stateWithGC 70 false) false)
    = (Done cmd', sm')
    /\ forcedErr cmd'
       = Some (BatchTimestampBeforeGCError (mkTimestamp 60 0)
                 (mkTimestamp 70 0))
    /\ replicatedResult cmd' = zeroReplicatedEvalResult
    /\ RaftAppliedIndex (b_state (batch sm')) = 11
    /\ LeaseAppliedIndex (b_state (batch sm')) = 100.
Proof. do 2 eexists. vm_compute. repeat split. Qed.

(** C2 (as stated) fails: a command the check rejects for its timestamp
    (GC threshold 70, timestamp 60) still moves the batch's lease applied
    index from 100 to its max lease index 101. *)
Lemma Stage_rejected_counterexample :
  let sm := Scenario.smWith (Scenario.stateWithGC 70 false) false in
  let cmd := Scenario.happyCmd in
  checkForcedErr Scenario.env0 (idKey cmd) (raftCmd cmd) (IsLocal cmd)
    (b_state (batch sm))
  = Done (101, proposalNoReevaluation,
          Some (BatchTimestampBeforeGCError (mkTimestamp 60 0)
                  (mkTimestamp 70 0)))
  /\ exists cmd' sm',
       replicaAppBatch_Stage Scenario.env0 cmd sm = (Done cmd', sm')
       /\ Rejected cmd' = true
       /\ LeaseAppliedIndex (b_state (batch sm)) = 100
       /\ LeaseAppliedIndex (b_state (batch sm')) = 101
       /\ LeaseAppliedIndex (b_state (batch sm'))
          <> LeaseAppliedIndex (b_state (batch sm)).
Proof.
  cbv zeta. split; [reflexivity|].
  do 2 eexists. split; [vm_compute; reflexivity|].
  cbn. repeat split. discriminate.
Qed.

(* ------------------------------------------------------------------ *)
(** ** Commit *)

Ltac open_sm sm :=
  let rep := fresh "rep" in
  let b := fresh "b" in
  let eb := fresh "eb" in
  let st := fresh "st" in
  destruct sm as [rep b eb ?];
  destruct b as [? st ? ? ? ? ?];
  destruct st as [? ? ? ? ? ? ? ? ?];
  cbn in *.

Ltac run_all :=
  unfold bind, modify_b_state, modify_batch, modify_r, modify, batchStats,
    openBatch, batchWrite, emitEv, get, liftO, ret, fail, when, deref;
  cbn -[Stats_Add Forward i64 u64].

(** Case split on what an oracle, or a pointer that may be nil, yields. *)
Ltac split_oracle :=
  match goal with
  | |- context [match ?o with Some _ => _ | None => _ end] =>
      destruct o eqn:?
  | |- context [if ?c then _ else _] => destruct c eqn:?
  end; run_all.

(** Writing the applied state touches neither the replica nor the
    applied indexes of the batch state; under the new layout, with no
    migration pending, it leaves the whole batch state as it is. *)
Lemma addAppliedStateKeyToBatch_frame env sm out sm' :
  addAppliedStateKeyToBatch env sm = (out, sm') ->
  r sm' = r sm
  /\ stats sm' = stats sm
  /\ RaftAppliedIndex (b_state (batch sm'))
     = RaftAppliedIndex (b_state (batch sm))
  /\ LeaseAppliedIndex (b_state (batch sm'))
     = LeaseAppliedIndex (b_state (batch sm))
  /\ (UsingAppliedStateKey (b_state (batch sm)) = true ->
      migrateToAppliedStateKey (batch sm) = false ->
      b_state (batch sm') = b_state (batch sm)).
Proof.
  open_sm sm.
  unfold addAppliedStateKeyToBatch. run_all.
  repeat split_oracle;
    intros H; inversion H; subst; cbn; repeat split; congruence.
Qed.

Lemma addAppliedStateKeyToBatch_cases env sm ops ms out sm' :
  b_batch (batch sm) = Some ops ->
  Stats (b_state (batch sm)) = Some ms ->
  addAppliedStateKeyToBatch env sm = (out, sm') ->
  (UsingAppliedStateKey (b_state (batch sm)) = true
   \/ migrateToAppliedStateKey (batch sm) = true) ->
  exists added,
    b_batch (batch sm') = Some (ops ++ added)
    /\ noLegacyWrite added = true
    /\ (out = Done tt \/ exists msg, out = Abort (NonDeterministicFailure msg))
    /\ (out = Done tt -> migrateToAppliedStateKey (batch sm) = false ->
        added = [OpSetRangeAppliedState
                   (RaftAppliedIndex (b_state (batch sm)))
                   (LeaseAppliedIndex (b_state (batch sm))) ms])
    /\ (out = Done tt -> migrateToAppliedStateKey (batch sm) = true ->
        exists ms',
          MigrateToRangeAppliedStateKey env ops ms = Some ms'
          /\ added = [OpDeleteLegacyAppliedKeys;
                      OpSetRangeAppliedState
                        (RaftAppliedIndex (b_state (batch sm)))
                        (LeaseAppliedIndex (b_state (batch sm))) ms']
          /\ UsingAppliedStateKey (b_state (batch sm')) = true).
Proof.
  intros Hb Hs Hrun Hor. revert Hrun.
  open_sm sm. subst.
  unfold addAppliedStateKeyToBatch. run_all.
  repeat split_oracle.
  all: try (destruct Hor; discriminate).
  all: intros H; inversion H; subst; clear H; cbn.
  all: first [ exists (@nil BatchOp); rewrite app_nil_r; split; [reflexivity|]
             | eexists; split; [rewrite <- ?app_assoc; reflexivity|] ].
  all: split; [reflexivity|].
  all: split; [first [left; reflexivity | right; eexists; reflexivity]|].
  all: split; intros; try congruence.
  all: eexists; split; [reflexivity|split; reflexivity].
Qed.

(** [ApplyToStateMachine] by its outcome: an error return has published
    and committed nothing; a return without error has committed the open
    batch and published the batch state that
    [addAppliedStateKeyToBatch] left. *)
Lemma ApplyToStateMachine_inv env sm out sm' :
  replicaAppBatch_ApplyToStateMachine env sm = (out, sm') ->
  exists aout sm1,
    addAppliedStateKeyToBatch env
      (set_r (set_clock (Forward (clock (r sm)) (maxTS (batch sm))) (r sm)) sm)
    = (aout, sm1)
    /\ match out with
       | Abort (NonDeterministicFailure _) =>
           mu_state (r sm') = mu_state (r sm)
           /\ engine (r sm') = engine (r sm)
       | Done _ =>
           aout = Done tt
           /\ exists cur ms,
                b_batch (batch sm1) = Some cur
                /\ Stats (b_state (batch sm1)) = Some ms
                /\ engine (r sm') = engine (r sm) ++ [cur]
                /\ mu_state (r sm')
                   = set_Stats (Some ms)
                       (set_LeaseAppliedIndex
                          (LeaseAppliedIndex (b_state (batch sm1)))
                          (set_RaftAppliedIndex
                             (RaftAppliedIndex (b_state (batch sm1)))
                             (mu_state (r sm))))
                /\ b_state (batch sm') = b_state (batch sm1)
                /\ b_batch (batch sm') = None
       | Abort _ => True
       end.
Proof.
  unfold replicaAppBatch_ApplyToStateMachine. rewrite bind_get.
  unfold bind at 1. unfold modify_r at 1. unfold modify at 1.
  unfold bind at 1.
  destruct (addAppliedStateKeyToBatch env _) as [aout sm1] eqn:Hadd.
  destruct (addAppliedStateKeyToBatch_frame _ _ _ _ Hadd)
    as (Hr & _ & _ & _ & _).
  intros Hrun. exists aout, sm1. split; [reflexivity|].
  revert Hrun. destruct aout as [[]|e].
  - open_sm sm1. subst. unfold recordStatsOnCommit. run_all.
    repeat split_oracle;
      intros H; inversion H; subst; clear H; cbn; try exact I;
      try (split; reflexivity);
      (split; [reflexivity|]; do 2 eexists; repeat split; reflexivity).
  - intros H. cbn in H. inversion H; subst; clear H.
    destruct e; try exact I.
    rewrite Hr. cbn. split; reflexivity.
Qed.

(** C5. If [ApplyToStateMachine] on an application batch returns an error
    (the applied-state-key write or the storage commit fails), the
    replica's live [ReplicaState] is unchanged; if it returns success, the
    live state's raft applied index, lease applied index and stats are the
    batch's, published together, and nothing else of the live state has
    moved.  The applied indexes are the staged ones; so are the stats under
    the new layout when no migration is pending. *)
Theorem ApplyToStateMachine_commit_or_nothing env sm out sm' :
  replicaAppBatch_ApplyToStateMachine env sm = (out, sm') ->
  ((exists msg, out = Abort (NonDeterministicFailure msg)) ->
   mu_state (r sm') = mu_state (r sm))
  /\ (out = Done tt ->
      mu_state (r sm')
      = set_Stats (Stats (b_state (batch sm')))
          (set_LeaseAppliedIndex (LeaseAppliedIndex (b_state (batch sm)))
             (set_RaftAppliedIndex (RaftAppliedIndex (b_state (batch sm)))
                (mu_state (r sm))))
      /\ RaftAppliedIndex (mu_state (r sm'))
         = RaftAppliedIndex (b_state (batch sm))
      /\ LeaseAppliedIndex (mu_state (r sm'))
         = LeaseAppliedIndex (b_state (batch sm))
      /\ Stats (mu_state (r sm')) = Stats (b_state (batch sm'))
      /\ RaftAppliedIndex (b_state (batch sm'))
         = RaftAppliedIndex (b_state (batch sm))
      /\ LeaseAppliedIndex (b_state (batch sm'))
         = LeaseAppliedIndex (b_state (batch sm))
      /\ (UsingAppliedStateKey (b_state (batch sm)) = true ->
          migrateToAppliedStateKey (batch sm) = false ->
          Stats (mu_state (r sm')) = Stats (b_state (batch sm)))).
Proof.
  intros Hrun.
  destruct (ApplyToStateMachine_inv env sm out sm' Hrun)
    as (aout & sm1 & Hadd & Hout).
  destruct (addAppliedStateKeyToBatch_frame _ _ _ _ Hadd)
    as (_ & _ & Hrai & Hlai & Hsame).
  cbn in Hrai, Hlai, Hsame.
  split.
  - intros [msg ->]. apply Hout.
  - intros ->.
    destruct Hout as (_ & cur & ms & _ & Hms & _ & Hmu & Hst & _).
    rewrite Hmu, Hst, Hms, Hrai, Hlai. cbn.
    repeat split; try reflexivity.
    intros Hu Hm. rewrite <- Hms, (Hsame Hu Hm). reflexivity.
Qed.

Lemma ApplyToStateMachine_commit_or_nothing_witness :
  let staged :=
    snd (replicaAppBatch_Stage Scenario.env0 Scenario.happyCmd
           (Scenario.smWith Scenario.state0 false)) in
  let sm' := snd (replicaAppBatch_ApplyToStateMachine Scenario.env0 staged) in
  RaftAppliedIndex (mu_state (r sm')) = 11
  /\ LeaseAppliedIndex (mu_state (r sm')) = 101
  /\ Stats (mu_state (r sm')) = Some Scenario.liveBytes7.
Proof.
  cbv zeta.
  assert (replicaAppBatch_ApplyToStateMachine Scenario.env0
            (snd (replicaAppBatch_Stage Scenario.env0 Scenario.happyCmd
                    (Scenario.smWith Scenario.state0 false)))
          = (Done tt,
             snd (replicaAppBatch_ApplyToStateMachine Scenario.env0
                    (snd (replicaAppBatch_Stage Scenario.env0
                            Scenario.happyCmd
                            (Scenario.smWith Scenario.state0 false))))))
    as Hrun by (vm_compute; reflexivity).
  destruct (ApplyToStateMachine_commit_or_nothing _ _ _ _ Hrun) as [_ H].
  destruct (H eq_refl) as (_ & Hrai & Hlai & _ & _ & _ & Hstats).
  split; [rewrite Hrai; vm_compute; reflexivity|].
  split; [rewrite Hlai; vm_compute; reflexivity|].
  vm_compute. reflexivity.
Defined.

(** A commit the storage engine refuses: the staged indexes 11 and 101
    stay in the batch, the live state keeps 10 and 100. *)
Example ApplyToStateMachine_commit_failure :
  let staged :=
    snd (replicaAppBatch_Stage Scenario.envCommitFails Scenario.happyCmd
           (Scenario.smWith Scenario.state0 false)) in
  exists sm',
    replicaAppBatch_ApplyToStateMachine Scenario.envCommitFails staged
    = (Abort (NonDeterministicFailure "unable to commit Raft entry batch"),
       sm')
    /\ mu_state (r sm') = Scenario.state0
    /\ RaftAppliedIndex (b_state (batch sm')) = 11
    /\ LeaseAppliedIndex (b_state (batch sm')) = 101
    /\ engine (r sm') = [].
Proof. cbv zeta. eexists. vm_compute. repeat split. Qed.

(** C6. Once [UsingAppliedStateKey] is true in the batch's state,
    committing the batch writes only the single combined
    range-applied-state record (raft applied index, lease applied index,
    stats) and never rewrites the legacy applied-index or MVCC-stats keys;
    when [migrateToAppliedStateKey] is set, the legacy keys are deleted
    inside the batch before the new record is written, and
    [UsingAppliedStateKey] is then true on the batch state. *)
Theorem applied_state_key_layout env sm ops ms :
  b_batch (batch sm) = Some ops ->
  Stats (b_state (batch sm)) = Some ms ->
  (UsingAppliedStateKey (b_state (batch sm)) = true
   \/ migrateToAppliedStateKey (batch sm) = true) ->
  (forall out sm',
     addAppliedStateKeyToBatch env sm = (out, sm') ->
     exists added,
       b_batch (batch sm') = Some (ops ++ added)
       /\ noLegacyWrite added = true
       /\ (out = Done tt
           \/ exists msg, out = Abort (NonDeterministicFailure msg))
       /\ (out = Done tt -> migrateToAppliedStateKey (batch sm) = false ->
           added = [OpSetRangeAppliedState
                      (RaftAppliedIndex (b_state (batch sm)))
                      (LeaseAppliedIndex (b_state (batch sm))) ms])
       /\ (out = Done tt -> migrateToAppliedStateKey (batch sm) = true ->
           exists ms',
             MigrateToRangeAppliedStateKey env ops ms = Some ms'
             /\ added = [OpDeleteLegacyAppliedKeys;
                         OpSetRangeAppliedState
                           (RaftAppliedIndex (b_state (batch sm)))
                           (LeaseAppliedIndex (b_state (batch sm))) ms']
             /\ UsingAppliedStateKey (b_state (batch sm')) = true))
  /\ (forall sm',
        replicaAppBatch_ApplyToStateMachine env sm = (Done tt, sm') ->
        exists added,
          engine (r sm') = engine (r sm) ++ [ops ++ added]
          /\ noLegacyWrite added = true
          /\ UsingAppliedStateKey (b_state (batch sm')) = true
          /\ (migrateToAppliedStateKey (batch sm) = false ->
              added = [OpSetRangeAppliedState
                         (RaftAppliedIndex (b_state (batch sm)))
                         (LeaseAppliedIndex (b_state (batch sm))) ms])).
Proof.
  intros Hb Hs Hor. split.
  - intros out sm' Hrun.
    exact (addAppliedStateKeyToBatch_cases env sm ops ms out sm' Hb Hs Hrun Hor).
  - intros sm' Hrun.
    destruct (ApplyToStateMachine_inv env sm (Done tt) sm' Hrun)
      as (aout & sm1 & Hadd & -> & cur & ms1 & Hcur & _ & Heng & _ & Hst & _).
    destruct (addAppliedStateKeyToBatch_cases env
                (set_r (set_clock (Forward (clock (r sm)) (maxTS (batch sm)))
                          (r sm)) sm)
                ops ms (Done tt) sm1 Hb Hs Hadd Hor)
      as (added & Hbatch & Hno & _ & Hnew & Hmig).
    destruct (addAppliedStateKeyToBatch_frame _ _ _ _ Hadd)
      as (_ & _ & _ & _ & Hsame).
    cbn in Hnew, Hmig, Hsame.
    exists added. rewrite Heng, Hst.
    assert (cur = ops ++ added) as -> by congruence.
    split; [reflexivity|]. split; [exact Hno|]. split.
    + destruct (migrateToAppliedStateKey (batch sm)) eqn:Hm.
      * destruct (Hmig eq_refl eq_refl) as (ms' & _ & _ & Hu). exact Hu.
      * destruct Hor as [Hu|Hu]; [|discriminate].
        rewrite (Hsame Hu eq_refl). exact Hu.
    + intros Hm. exact (Hnew eq_refl Hm).
Qed.

Lemma applied_state_key_layout_witness :
  exists added,
    engine (r (snd (replicaAppBatch_ApplyToStateMachine Scenario.env0
                      (Scenario.smWith Scenario.state0 true))))
    = [[] ++ added]
    /\ noLegacyWrite added = true.
Proof.
  assert (replicaAppBatch_ApplyToStateMachine Scenario.env0
            (Scenario.smWith Scenario.state0 true)
          = (Done tt,
             snd (replicaAppBatch_ApplyToStateMachine Scenario.env0
                    (Scenario.smWith Scenario.state0 true))))
    as Hrun by (vm_compute; reflexivity).
  destruct (applied_state_key_layout Scenario.env0
              (Scenario.smWith Scenario.state0 true) [] zeroStats
              eq_refl eq_refl (or_intror eq_refl)) as [_ H].
  destruct (H _ Hrun) as (added & Heng & Hno & _ & _).
  exists added. split; [exact Heng|exact Hno].
Defined.

(* ------------------------------------------------------------------ *)
(** ** The ephemeral batch *)

Lemma checkForcedErr_exits env idKey raftCmd isLocal st e :
  checkForcedErr env idKey raftCmd isLocal st = Abort e ->
  exists msg, e = GoPanic msg.
Proof.
  unfold checkForcedErr, leaseMismatch, checkGCThreshold, obind, deref.
  repeat match goal with
         | |- context [match ?x with _ => _ end] =>
             lazymatch x with
             | context [match _ with _ => _ end] => fail
             | _ => destruct x
             end
         end;
    intros H; inversion H; eauto.
Qed.

Lemma shouldApplyCommand_exits env rep cmd st e :
  shouldApplyCommand env rep cmd st = Abort e ->
  exists msg, e = GoPanic msg.
Proof.
  unfold shouldApplyCommand.
  destruct (checkForcedErr env (idKey cmd) (raftCmd cmd) (IsLocal cmd) st)
    as [[[li retry] ferr]|e1] eqn:Hc; cbn [obind].
  - discriminate.
  - intros H; inversion H; subst. eapply checkForcedErr_exits; eauto.
Qed.

Lemma shouldApplyCommand_returns env rep cmd st x :
  checkForcedErr env (idKey cmd) (raftCmd cmd) (IsLocal cmd) st = Done x ->
  exists cmd' accept, shouldApplyCommand env rep cmd st = Done (cmd', accept).
Proof.
  intros Hc. unfold shouldApplyCommand. rewrite Hc.
  destruct x as [[li retry] ferr]. cbn [obind]. eauto.
Qed.

(** C9. [Stage] on an ephemeral batch never returns an error, for any
    command: it makes no check of the entry index, hands back the checked
    command also when the force-error check rejected it, and changes
    nothing but the lease applied index of the ephemeral state (not the
    replica, its storage, the application batch, nor any other field of
    the ephemeral state).  The only exit other than a return is the panic
    of a nil dereference inside the check, which leaves everything as it
    was. *)
Theorem ephemeral_Stage_never_fails env cmd sm :
  let '(out, sm') := ephemeralReplicaAppBatch_Stage env cmd sm in
  r sm' = r sm /\ batch sm' = batch sm /\ stats sm' = stats sm
  /\ match out with
     | Done cmd' =>
         (exists accept,
            shouldApplyCommand env (r sm) cmd (mb_state (ephemeralBatch sm))
            = Done (cmd', accept))
         /\ mb_state (ephemeralBatch sm')
            = set_LeaseAppliedIndex (leaseIndex cmd')
                (mb_state (ephemeralBatch sm))
     | Abort (GoPanic _) => sm' = sm
     | Abort _ => False
     end
  /\ (forall x,
        checkForcedErr env (idKey cmd) (raftCmd cmd) (IsLocal cmd)
          (mb_state (ephemeralBatch sm)) = Done x ->
        exists cmd', out = Done cmd').
Proof.
  unfold ephemeralReplicaAppBatch_Stage. rewrite bind_get.
  unfold bind, liftO, modify, ret.
  destruct (shouldApplyCommand env (r sm) cmd (mb_state (ephemeralBatch sm)))
    as [[cmd1 accept]|e] eqn:Hs.
  - cbn. repeat split; eauto.
  - destruct (shouldApplyCommand_exits _ _ _ _ _ Hs) as [msg ->].
    repeat split.
    intros x Hx.
    destruct (shouldApplyCommand_returns env (r sm) cmd _ x Hx)
      as (c & a & Hd). congruence.
Qed.

Lemma ephemeral_Stage_never_fails_witness :
  exists cmd',
    fst (ephemeralReplicaAppBatch_Stage Scenario.env0
           (Scenario.cmdWith 0 Scenario.staleRaftCmd None)
           (Scenario.smWith Scenario.state0 false))
    = Done cmd'.
Proof.
  pose proof (ephemeral_Stage_never_fails Scenario.env0
                (Scenario.cmdWith 0 Scenario.staleRaftCmd None)
                (Scenario.smWith Scenario.state0 false)) as H.
  destruct (ephemeralReplicaAppBatch_Stage Scenario.env0
              (Scenario.cmdWith 0 Scenario.staleRaftCmd None)
              (Scenario.smWith Scenario.state0 false)) as [out sm'].
  destruct H as (_ & _ & _ & _ & H).
  exact (H (100, proposalNoReevaluation,
            Some (IllegalLeaseIndexError 100 100)) eq_refl).
Defined.

(** A command with entry index 0 that the check rejects is handed back,
    rejected, by the ephemeral batch. *)
Example ephemeral_Stage_zero_index_rejected :
  exists cmd' sm',
    ephemeralReplicaAppBatch_Stage Scenario.env0
      (Scenario.cmdWith 0 Scenario.staleRaftCmd None)
      (Scenario.smWith Scenario.state0 false) = (Done cmd', sm')
    /\ Rejected cmd' = true
    /\ mb_state (ephemeralBatch sm') = Scenario.state0.
Proof. do 2 eexists. vm_compute. repeat split. Qed.

(* ------------------------------------------------------------------ *)
(** ** Side effects *)

Lemma emitAll_app evs1 evs2 sm :
  emitAll (evs1 ++ evs2) sm = emitAll evs2 (emitAll evs1 sm).
Proof. unfold emitAll. apply fold_left_app. Qed.

Lemma emitAll_frame evs sm :
  batch (emitAll evs sm) = batch sm
  /\ ephemeralBatch (emitAll evs sm) = ephemeralBatch sm
  /\ stats (emitAll evs sm) = stats sm
  /\ mu_state (r (emitAll evs sm)) = mu_state (r sm)
  /\ engine (r (emitAll evs sm)) = engine (r sm)
  /\ trace (r (emitAll evs sm)) = trace (r sm) ++ evs.
Proof.
  revert sm. induction evs as [|e evs IH]; intros sm.
  - cbn. rewrite app_nil_r. repeat split.
  - change (emitAll (e :: evs) sm)
      with (emitAll evs (set_r (emit e (r sm)) sm)).
    destruct (IH (set_r (emit e (r sm)) sm)) as (H1 & H2 & H3 & H4 & H5 & H6).
    rewrite H1, H2, H3, H4, H5, H6. cbn. rewrite <- app_assoc.
    repeat split.
Qed.

Lemma trace_emitAll evs sm :
  trace (r (emitAll evs sm)) = trace (r sm) ++ evs.
Proof. apply emitAll_frame. Qed.

Lemma countAsserts_app evs1 evs2 :
  countAsserts (evs1 ++ evs2) = (countAsserts evs1 + countAsserts evs2)%nat.
Proof. unfold countAsserts. rewrite filter_app, length_app. reflexivity. Qed.

Lemma quiet_ret {A} (a : A) : quiet (ret a).
Proof. exists (Done a), []. split; reflexivity. Qed.

Lemma quiet_fail {A} (e : Exit) : quiet (@fail A e).
Proof. exists (Abort e), []. split; reflexivity. Qed.

Lemma quiet_emit (e : Event) : isAssertState e = false -> quiet (emitEv e).
Proof.
  intros H. exists (Done tt), [e]. split.
  - unfold countAsserts. cbn. rewrite H. reflexivity.
  - reflexivity.
Qed.

Lemma quiet_bind {A B} (m : M A) (f : A -> M B) :
  quiet m -> (forall a, quiet (f a)) -> quiet (bind m f).
Proof.
  intros (out & evs & Hc & Hm) Hf.
  destruct out as [a|e].
  - destruct (Hf a) as (out' & evs' & Hc' & Hf').
    exists out', (evs ++ evs'). split.
    + rewrite countAsserts_app, Hc, Hc'. reflexivity.
    + intros sm. unfold bind. rewrite Hm, Hf', emitAll_app. reflexivity.
  - exists (Abort e), evs. split; [exact Hc|].
    intros sm. unfold bind. rewrite Hm. reflexivity.
Qed.

Ltac quiet_step :=
  first
    [ apply quiet_ret
    | apply quiet_fail
    | apply quiet_emit; reflexivity
    | apply quiet_bind; [|intros ?]
    | match goal with
      | |- quiet (match ?x with _ => _ end) => destruct x
      | |- quiet (when ?c _) => destruct c; cbn [when]
      | |- quiet (let '(_, _) := ?x in _) => destruct x
      end ].

Lemma returnsQuietly_ret {A} (a : A) : returnsQuietly (ret a).
Proof. exists a, []. split; reflexivity. Qed.

Lemma returnsQuietly_emit (e : Event) :
  isAssertState e = false -> returnsQuietly (emitEv e).
Proof.
  intros H. exists tt, [e]. split.
  - unfold countAsserts. cbn. rewrite H. reflexivity.
  - reflexivity.
Qed.

Lemma returnsQuietly_bind {A B} (m : M A) (f : A -> M B) :
  returnsQuietly m -> (forall a, returnsQuietly (f a)) ->
  returnsQuietly (bind m f).
Proof.
  intros (a & evs & Hc & Hm) Hf.
  destruct (Hf a) as (b & evs' & Hc' & Hf').
  exists b, (evs ++ evs'). split.
  - rewrite countAsserts_app, Hc, Hc'. reflexivity.
  - intros sm. unfold bind. rewrite Hm, Hf', emitAll_app. reflexivity.
Qed.

Ltac returns_step :=
  first
    [ apply returnsQuietly_ret
    | apply returnsQuietly_emit; reflexivity
    | apply returnsQuietly_bind; [|intros ?]
    | match goal with
      | |- returnsQuietly (match ?x with _ => _ end) => destruct x
      | |- returnsQuietly (let '(_, _) := ?x in _) => destruct x
      end ].

Lemma handleLogEffects_returns env res :
  returnsQuietly (handleLogEffects env res).
Proof. unfold handleLogEffects. repeat returns_step. Qed.

Lemma handleStateEffects_returns res :
  returnsQuietly (handleStateEffects res).
Proof. unfold handleStateEffects. repeat returns_step. Qed.

Lemma maybeApplyConfChange_quiet env cmd : quiet (maybeApplyConfChange env cmd).
Proof. unfold maybeApplyConfChange. repeat quiet_step. Qed.

Lemma finishApplication_quiet env cmd : quiet (finishApplication env cmd).
Proof.
  unfold finishApplication.
  repeat first [ apply maybeApplyConfChange_quiet | quiet_step ].
Qed.

Ltac unfold_setters :=
  unfold set_BlockReads, set_State, set_Split, set_Merge, set_ComputeChecksum,
    set_IsLeaseRequest, set_Timestamp, set_DeprecatedDelta, set_Delta,
    set_ChangeReplicas, set_RaftLogDelta, set_AddSSTable,
    set_SuggestedCompactions, set_PrevLeaseProposal, set_RaftAppliedIndex,
    set_LeaseAppliedIndex, set_Desc, set_Lease, set_TruncatedState,
    set_GCThreshold, set_Stats, set_DeprecatedTxnSpanGCThreshold,
    set_UsingAppliedStateKey in *.

Lemma handleLogEffects_result env res sm :
  fst (handleLogEffects env res sm) = Done (afterLogEffects res).
Proof.
  unfold handleLogEffects, afterLogEffects.
  destruct res as [? st ? ? ? ? ? ? ? ? delta ? sc ?].
  destruct st as [st|]; [destruct st as [? ? ? ? ts ? ? ? ?]; destruct ts|];
    unfold bind, emitEv, modify_r, modify, ret; unfold_setters;
    cbn -[ReplicaState_isZero i64];
    match goal with
    | |- context [negb (?a =? 0)] => destruct (Z.eqb_spec a 0) as [Heq|Hne]
    end; cbn -[ReplicaState_isZero i64]; try subst delta;
    try match goal with
        | |- context [ReplicaState_isZero ?x] =>
            destruct (ReplicaState_isZero x)
        end;
    destruct sc; cbn -[ReplicaState_isZero i64]; rewrite ?Heq; reflexivity.
Qed.

Ltac reduce_results :=
  cbv beta iota zeta delta [set_BlockReads set_State set_Split set_Merge
    set_ComputeChecksum set_IsLeaseRequest set_Timestamp set_DeprecatedDelta
    set_Delta set_ChangeReplicas set_RaftLogDelta set_AddSSTable
    set_SuggestedCompactions set_PrevLeaseProposal set_RaftAppliedIndex
    set_LeaseAppliedIndex set_Desc set_Lease set_TruncatedState
    set_GCThreshold set_Stats set_DeprecatedTxnSpanGCThreshold
    set_UsingAppliedStateKey BlockReads State Split Merge
    ComputeChecksum IsLeaseRequest Timestamp DeprecatedDelta Delta
    ChangeReplicas RaftLogDelta AddSSTable SuggestedCompactions
    PrevLeaseProposal RaftAppliedIndex LeaseAppliedIndex Desc Lease
    TruncatedState GCThreshold Stats DeprecatedTxnSpanGCThreshold
    UsingAppliedStateKey].

Lemma clearTrivial_idempotent res :
  clearTrivialReplicatedEvalResultFields
    (clearTrivialReplicatedEvalResultFields res)
  = clearTrivialReplicatedEvalResultFields res.
Proof.
  destruct res as [? st ? ? ? ? ? ? ? ? ? ? ? ?].
  destruct st as [st|]; [|reflexivity].
  destruct st as [? ? ? ? ? ? ? ? ?].
  unfold clearTrivialReplicatedEvalResultFields. reduce_results.
  match goal with
  | |- context [ReplicaState_isZero ?x] =>
      destruct (ReplicaState_isZero x) eqn:Hz
  end; reduce_results; rewrite ?Hz; reflexivity.
Qed.


(** [handleNonTrivialReplicatedEvalResult] on a result that is not the
    zero value. *)
Lemma handleNonTrivial_spec env res :
  ReplicatedEvalResult_isZero res = false ->
  exists out evs,
    countAsserts evs = 0%nat
    /\ (forall sm,
          handleNonTrivialReplicatedEvalResult env res sm
          = (out, emitAll evs sm))
    /\ match out with
       | Done (shouldAssert, _) =>
           shouldAssert
           = negb (ReplicatedEvalResult_isZero (afterLogEffects res))
       | Abort e => e = LogFatal "unhandled field in ReplicatedEvalResult"
       end.
Proof.
  intros Hnz.
  destruct (handleLogEffects_returns env res) as (r1 & evs1 & Hc1 & Hrun1).
  assert (r1 = afterLogEffects res) as ->.
  { pose proof (handleLogEffects_result env res
                  (mkStateMachine
                     (mkReplica zeroReplicaState false 0 0 zeroTimestamp [] [])
                     zeroAppBatch (mkEphemeralBatch zeroReplicaState)
                     (mkApplyStats 0 0 0 0))) as H.
    rewrite Hrun1 in H. cbn [fst] in H. congruence. }
  destruct (ReplicatedEvalResult_isZero (afterLogEffects res)) eqn:Hz.
  - exists (Done (false, afterLogEffects res)), evs1.
    split; [exact Hc1|]. split; [|reflexivity].
    intros sm. unfold handleNonTrivialReplicatedEvalResult.
    rewrite Hnz. unfold bind at 1. rewrite Hrun1, Hz. reflexivity.
  - destruct (handleStateEffects_returns (afterLogEffects res))
      as (r2 & evs2 & Hc2 & Hrun2).
    destruct (ReplicatedEvalResult_isZero r2) eqn:Hz2.
    + exists (Done (true, r2)), (evs1 ++ evs2).
      split; [rewrite countAsserts_app, Hc1, Hc2; reflexivity|].
      split; [|reflexivity].
      intros sm. unfold handleNonTrivialReplicatedEvalResult.
      rewrite Hnz. unfold bind at 1. rewrite Hrun1, Hz. cbn [negb].
      unfold bind at 1. rewrite Hrun2, Hz2, emitAll_app. reflexivity.
    + exists (Abort (LogFatal "unhandled field in ReplicatedEvalResult")),
        (evs1 ++ evs2).
      split; [rewrite countAsserts_app, Hc1, Hc2; reflexivity|].
      split; [|reflexivity].
      intros sm. unfold handleNonTrivialReplicatedEvalResult.
      rewrite Hnz. unfold bind at 1. rewrite Hrun1, Hz. cbn [negb].
      unfold bind at 1. rewrite Hrun2, Hz2, emitAll_app. reflexivity.
Qed.

(** The calls of the first three handlers. *)
Lemma handleLogEffects_calls env res sm :
  snd (handleLogEffects env res sm) = emitAll (logHandlerCalls env res) sm.
Proof.
  unfold handleLogEffects, logHandlerCalls, logDeltaToHandle, callOn.
  destruct res as [? st ? ? ? ? ? ? ? ? delta ? sc ?].
  destruct st as [st|]; [destruct st as [? ? ? ? ts ? ? ? ?]; destruct ts|];
    unfold bind, emitEv, modify_r, modify, ret; unfold_setters;
    cbn -[ReplicaState_isZero i64 Z.eqb];
    match goal with
    | |- context [negb (?a =? 0)] => destruct (a =? 0)
    end; cbn -[ReplicaState_isZero i64];
    destruct sc; reflexivity.
Qed.

(** The calls of the handlers that follow. *)
Lemma handleStateEffects_calls res sm :
  snd (handleStateEffects res sm) = emitAll (stateHandlerCalls res) sm.
Proof.
  unfold handleStateEffects, stateHandlerCalls, callOn.
  destruct res as [? st sp mg ck ? ? ? ? cr ? ? ? ?].
  destruct st as [st|];
    [destruct st as [? ? ds ls ? gc ? ? us];
     destruct ds, ls, gc, us|];
    destruct sp, mg, cr, ck;
    unfold bind, emitEv, modify_r, modify, ret; unfold_setters;
    cbn -[ReplicaState_isZero]; reflexivity.
Qed.

(** The first three handlers take nothing from the later ones. *)
Lemma stateHandlerCalls_afterLogEffects res :
  stateHandlerCalls (afterLogEffects res) = stateHandlerCalls res.
Proof.
  unfold stateHandlerCalls, afterLogEffects, callOn.
  destruct res as [? st ? ? ? ? ? ? ? ? ? ? ? ?].
  destruct st as [st|]; [|reflexivity].
  destruct st as [rai lai ds ls ts gc ms dg us].
  unfold_setters. cbn -[ReplicaState_isZero].
  match goal with
  | |- context [ReplicaState_isZero ?x] =>
      destruct (ReplicaState_isZero x) eqn:Hz
  end; [|reflexivity].
  unfold ReplicaState_isZero in Hz. cbn in Hz.
  destruct ds, ls, gc, us; cbn in Hz;
    rewrite ?andb_false_r, ?andb_false_l in Hz;
    first [ discriminate Hz | reflexivity ].
Qed.

(** The handler calls of [handleNonTrivialReplicatedEvalResult], whether
    it returns or finds a field no handler took. *)
Lemma handleNonTrivial_calls env res sm :
  ReplicatedEvalResult_isZero res = false ->
  snd (handleNonTrivialReplicatedEvalResult env res sm)
  = emitAll (handlerCalls env res) sm.
Proof.
  intros Hnz.
  unfold handleNonTrivialReplicatedEvalResult, handlerCalls.
  rewrite Hnz. unfold bind at 1.
  pose proof (handleLogEffects_result env res sm) as Hres.
  pose proof (handleLogEffects_calls env res sm) as Hcalls.
  destruct (handleLogEffects env res sm) as [o1 s1].
  cbn [fst snd] in Hres, Hcalls. subst o1 s1.
  destruct (ReplicatedEvalResult_isZero (afterLogEffects res)) eqn:Hz;
    cbn [negb].
  - rewrite app_nil_r. reflexivity.
  - unfold bind at 1.
    pose proof (handleStateEffects_calls (afterLogEffects res)
                  (emitAll (logHandlerCalls env res) sm)) as Hcalls2.
    destruct (handleStateEffects_returns (afterLogEffects res))
      as (r2 & evs2 & _ & Hrun2).
    rewrite Hrun2 in Hcalls2 |- *. cbn [snd] in Hcalls2.
    rewrite emitAll_app, <- stateHandlerCalls_afterLogEffects, <- Hcalls2.
    destruct (ReplicatedEvalResult_isZero r2); reflexivity.
Qed.

(** [ApplySideEffects_body] is the handling of the replicated result and
    then [finishApplication], on a command that carries the residual
    result and whose proposal, forced error and max lease index are the
    incoming command's. *)
Lemma ApplySideEffects_body_steps env cmd sm :
  exists cmd3,
    replicatedResult cmd3 = residual cmd
    /\ proposal cmd3 = proposal cmd
    /\ forcedErr cmd3 = forcedErr cmd
    /\ MaxLeaseIndex (raftCmd cmd3) = MaxLeaseIndex (raftCmd cmd)
    /\ ApplySideEffects_body env cmd sm
       = bind (applyReplicatedResult env cmd3) (finishApplication env)
           (beforeHandlers cmd sm).
Proof.
  pose (cmd1 := if BlockReads (replicatedResult cmd)
                then set_replicatedResult
                       (set_BlockReads false (replicatedResult cmd)) cmd
                else cmd).
  pose (cmd2 := prepareLocalResult env (r (beforeHandlers cmd sm)) cmd1).
  exists (set_replicatedResult
            (clearTrivialReplicatedEvalResultFields (replicatedResult cmd2))
            cmd2).
  subst cmd2 cmd1.
  unfold ApplySideEffects_body, residual, beforeHandlers.
  destruct (BlockReads (replicatedResult cmd)) eqn:Hb;
    repeat split; reflexivity.
Qed.

Lemma applyReplicatedResult_frame env cmd3 sm out sm' :
  applyReplicatedResult env cmd3 sm = (out, sm') ->
  match out with
  | Done cmd4 =>
      proposal cmd4 = proposal cmd3
      /\ forcedErr cmd4 = forcedErr cmd3
      /\ MaxLeaseIndex (raftCmd cmd4) = MaxLeaseIndex (raftCmd cmd3)
  | Abort e =>
      e = LogFatal "zero-value ReplicatedEvalResult passed to handleNonTrivialReplicatedEvalResult"
      \/ e = LogFatal "unhandled field in ReplicatedEvalResult"
      \/ e = LogFatal "failed to handle all side-effects of ReplicatedEvalResult"
  end.
Proof.
  unfold applyReplicatedResult.
  destruct (IsTrivial cmd3); cbn [negb].
  - destruct (ReplicatedEvalResult_isZero (replicatedResult cmd3)); cbn [negb];
      intros H; inversion H; subst; auto.
  - destruct (ReplicatedEvalResult_isZero (replicatedResult cmd3)) eqn:Hz.
    + unfold handleNonTrivialReplicatedEvalResult, bind. rewrite Hz.
      intros H; inversion H; subst; auto.
    + destruct (handleNonTrivial_spec env _ Hz) as (o & evs & _ & Hrun & Ho).
      unfold bind at 1. rewrite Hrun.
      destruct o as [[sa rF]|e].
      * unfold bind, when, assertState, bind, emitEv, modify_r, modify, ret.
        destruct sa; intros H; inversion H; subst; repeat split.
      * intros H; inversion H; subst; auto.
Qed.


Lemma ApplySideEffects_body_outcome env cmd sm out sm' :
  ApplySideEffects env cmd sm = (out, sm') ->
  exists sm1, ApplySideEffects_body env cmd sm = (out, sm1).
Proof.
  unfold ApplySideEffects.
  destruct (ApplySideEffects_body env cmd sm) as [o sm1].
  destruct o as [c|[| |]]; intros H; inversion H; subst; eauto.
Qed.


Lemma residual_nontrivial cmd cmd3 :
  replicatedResult cmd3 = residual cmd ->
  IsTrivial cmd3 = ReplicatedEvalResult_isZero (residual cmd).
Proof.
  intros H. unfold IsTrivial, isTrivial. rewrite H. unfold residual.
  rewrite clearTrivial_idempotent. reflexivity.
Qed.

(** C7 (as amended). For every command whose replicated result is still
    non-empty after the trivial fields have been cleared,
    [ApplySideEffects] runs the non-trivial effect handlers on it: the
    calls it makes on the replica from there are the handler calls the
    result is owed, each on the field it handles and in the handlers'
    order -- truncated state, log-size delta, suggested compactions, and,
    when these leave something of the result, split, merge, descriptor,
    lease, GC threshold, applied-state key, replica change, checksum.  It
    then asserts that the on-disk state equals the in-memory state exactly
    when the result is still non-empty once the truncated-state,
    log-size-delta and suggested-compactions handlers have consumed their
    fields (and the remaining handlers leave no field unhandled, which is
    fatal).  The assertion is the first call after the handlers', and the
    only one of its kind. *)
Theorem ApplySideEffects_nontrivial env cmd sm :
  ReplicatedEvalResult_isZero (residual cmd) = false ->
  let '(hout, sm1) :=
    handleNonTrivialReplicatedEvalResult env (residual cmd)
      (beforeHandlers cmd sm) in
  trace (r sm1)
  = trace (r (beforeHandlers cmd sm)) ++ handlerCalls env (residual cmd)
  /\
  let '(out, sm') := ApplySideEffects env cmd sm in
  (exists rest,
     trace (r sm')
     = trace (r (beforeHandlers cmd sm)) ++ handlerCalls env (residual cmd)
       ++ rest)
  /\
  match hout with
  | Abort e => out = Abort e /\ sm' = sm1
  | Done (shouldAssert, _) =>
      shouldAssert
      = negb (ReplicatedEvalResult_isZero (afterLogEffects (residual cmd)))
      /\ (exists rest,
            trace (r sm')
            = trace (r sm1)
              ++ (if shouldAssert then [EvAssertState] else []) ++ rest
            /\ countAsserts rest = 0%nat)
      /\ countAsserts (trace (r sm1))
         = countAsserts (trace (r (beforeHandlers cmd sm)))
  end.
Proof.
  intros Hnz.
  destruct (handleNonTrivial_spec env _ Hnz) as (ho & hevs & Hc & Hrun & Ho).
  pose proof (handleNonTrivial_calls env _ (beforeHandlers cmd sm) Hnz)
    as Hcalls.
  rewrite Hrun in Hcalls. cbn [snd] in Hcalls.
  rewrite Hrun.
  assert (trace (r (emitAll hevs (beforeHandlers cmd sm)))
          = trace (r (beforeHandlers cmd sm))
            ++ handlerCalls env (residual cmd)) as Hhandled
    by (rewrite Hcalls; apply trace_emitAll).
  split; [exact Hhandled|].
  destruct (ApplySideEffects_body_steps env cmd sm)
    as (cmd3 & Hres & _ & _ & _ & Hbody).
  unfold ApplySideEffects. rewrite Hbody. unfold bind at 1.
  unfold applyReplicatedResult.
  rewrite (residual_nontrivial cmd cmd3 Hres), Hnz. cbn [negb].
  unfold bind at 1. rewrite Hres, Hrun.
  destruct ho as [[sa rF]|e]; cbv beta iota.
  - unfold when, assertState.
    unfold bind, emitEv, modify_r, modify, ret.
    destruct sa; cbv beta iota.
    all: match goal with
    | |- context [finishApplication ?e ?c] =>
        destruct (finishApplication_quiet e c) as (fo & fevs & Hfc & Hfrun)
    end.
    all: rewrite Hfrun.
    all: set (deferred :=
                (if BlockReads (replicatedResult cmd)
                 then [EvReadOnlyCmdUnlock] else [])
                ++ match splitMergeUnlock cmd with
                   | Some u => [EvUnlock u]
                   | None => []
                   end).
    all: assert (countAsserts deferred = 0%nat) as Hdc
        by (subst deferred; destruct (BlockReads (replicatedResult cmd));
            destruct (splitMergeUnlock cmd); reflexivity).
    all: destruct (emitAll_frame hevs (beforeHandlers cmd sm))
        as (_ & _ & _ & _ & _ & Htr1).
    all: destruct fo as [c|[m|m|m]]; cbv beta iota.
    all: (split;
          [ rewrite ?Hcalls, ?trace_emitAll;
            cbn [trace r set_stats set_r emit];
            rewrite ?trace_emitAll, <- ?app_assoc; eexists; reflexivity |]).
    all: (split; [exact Ho|]).
    all: (split;
          [|rewrite Htr1, countAsserts_app, Hc; apply Nat.add_0_r]).
    all: first
        [ exists (fevs ++ deferred); split;
          [ rewrite !trace_emitAll; cbn [trace r set_stats set_r emit];
            rewrite ?trace_emitAll, <- ?app_assoc; reflexivity
          | rewrite countAsserts_app, Hfc, Hdc; reflexivity ]
        | exists fevs; split;
          [ rewrite !trace_emitAll; cbn [trace r set_stats set_r emit];
            rewrite ?trace_emitAll, <- ?app_assoc; reflexivity
          | exact Hfc ] ].
  - rewrite Ho. split; [|split; reflexivity].
    exists []. rewrite app_nil_r. exact Hhandled.
Qed.

Lemma ApplySideEffects_nontrivial_witness :
  let '(hout, sm1) :=
    handleNonTrivialReplicatedEvalResult Scenario.env0
      (residual Scenario.splitCmd)
      (beforeHandlers Scenario.splitCmd
         (Scenario.smWith Scenario.state0 false)) in
  trace (r sm1)
  = trace (r (beforeHandlers Scenario.splitCmd
                (Scenario.smWith Scenario.state0 false)))
    ++ handlerCalls Scenario.env0 (residual Scenario.splitCmd)
  /\
  let '(out, sm') :=
    ApplySideEffects Scenario.env0 Scenario.splitCmd
      (Scenario.smWith Scenario.state0 false) in
  (exists rest,
     trace (r sm')
     = trace (r (beforeHandlers Scenario.splitCmd
                   (Scenario.smWith Scenario.state0 false)))
       ++ handlerCalls Scenario.env0 (residual Scenario.splitCmd) ++ rest)
  /\
  match hout with
  | Abort e => out = Abort e /\ sm' = sm1
  | Done (shouldAssert, _) =>
      shouldAssert
      = negb (ReplicatedEvalResult_isZero
                (afterLogEffects (residual Scenario.splitCmd)))
      /\ (exists rest,
            trace (r sm')
            = trace (r sm1)
              ++ (if shouldAssert then [EvAssertState] else []) ++ rest
            /\ countAsserts rest = 0%nat)
      /\ countAsserts (trace (r sm1))
         = countAsserts
             (trace (r (beforeHandlers Scenario.splitCmd
                          (Scenario.smWith Scenario.state0 false))))
  end.
Proof.
  exact (ApplySideEffects_nontrivial Scenario.env0 Scenario.splitCmd
           (Scenario.smWith Scenario.state0 false) eq_refl).
Defined.

(** A split is handled and followed by one state assertion. *)
Example ApplySideEffects_split_asserts :
  exists cmd' sm',
    ApplySideEffects Scenario.env0 Scenario.splitCmd
      (Scenario.smWith Scenario.state0 false) = (Done cmd', sm')
    /\ trace (r sm')
       = [EvHandleSplit (mkSplit (mkSplitTrigger Scenario.desc1 Scenario.desc1));
          EvAssertState; EvHandleNoRaftLogDelta]
    /\ stateAssertions (stats sm') = 1.
Proof. do 2 eexists. vm_compute. repeat split. Qed.

(** C7 (as stated) fails: a command whose result carries only a log-size
    delta is non-empty after the trivial fields are cleared, its handler
    runs, and no state assertion follows. *)
Lemma ApplySideEffects_nontrivial_counterexample :
  ReplicatedEvalResult_isZero (residual Scenario.logDeltaCmd) = false
  /\ exists cmd' sm',
       ApplySideEffects Scenario.env0 Scenario.logDeltaCmd
         (Scenario.smWith Scenario.state0 false) = (Done cmd', sm')
       /\ trace (r sm') = [EvHandleRaftLogDelta 5]
       /\ countAsserts (trace (r sm')) = 0%nat
       /\ stateAssertions (stats sm') = 0.
Proof.
  split; [reflexivity|].
  do 2 eexists. vm_compute. repeat split.
Qed.


(** An accepted local command leaves with its pending proposal marked; a
    command that is not local leaves without a proposal. *)
Example ApplySideEffects_marks_pending_proposal :
  (exists cmd' sm',
     ApplySideEffects Scenario.env0
       (set_replicatedResult zeroReplicatedEvalResult Scenario.pendingCmd)
       (Scenario.smWith Scenario.state0 false) = (Done cmd', sm')
     /\ Rejected Scenario.pendingCmd = false
     /\ proposal Scenario.pendingCmd
        = Some (mkProposalData (raftCmd Scenario.happyCmd) false)
     /\ proposal cmd'
        = Some (mkProposalData (raftCmd Scenario.happyCmd) true))
  /\ (exists cmd' sm',
        ApplySideEffects Scenario.env0
          (set_replicatedResult zeroReplicatedEvalResult Scenario.happyCmd)
          (Scenario.smWith Scenario.state0 false) = (Done cmd', sm')
        /\ proposal cmd' = None).
Proof. split; do 2 eexists; vm_compute; repeat split. Qed.

(** The checks do fire when the command was not rejected: an accepted
    local command whose proposal has already applied is fatal. *)
Example ApplySideEffects_double_apply_fatal :
  fst (ApplySideEffects Scenario.env0
         (set_replicatedResult zeroReplicatedEvalResult
            (set_proposal
               (Some (mkProposalData (raftCmd Scenario.happyCmd) true))
               Scenario.happyCmd))
         (Scenario.smWith Scenario.state0 false))
  = Abort (LogFatal "command already applied; unexpected successful result").
Proof. vm_compute. reflexivity. Qed.

(* ------------------------------------------------------------------ *)
(** ** More on the force-error check *)

Ltac split_innermost :=
  match goal with
  | |- context [match ?x with _ => _ end] =>
      lazymatch x with
      | context [match _ with _ => _ end] => fail
      | _ => destruct x eqn:?
      end
  end.

(** The lease index the check returns is the state's or, for an accepted
    or GC-rejected non-lease command, the command's larger max lease
    index. *)
Lemma checkForcedErr_index env idKey raftCmd isLocal st li retry err :
  checkForcedErr env idKey raftCmd isLocal st = Done (li, retry, err) ->
  li = LeaseAppliedIndex st
  \/ (li = MaxLeaseIndex raftCmd
      /\ LeaseAppliedIndex st < MaxLeaseIndex raftCmd
      /\ IsLeaseRequest (ReplicatedEvalResult raftCmd) = false).
Proof.
  unfold checkForcedErr, checkGCThreshold, obind, deref.
  repeat split_innermost; intros Hrun; inversion Hrun; subst; auto.
  all: right; repeat split; try reflexivity;
    match goal with
    | Hlt : (_ <? _) = true |- _ => apply Z.ltb_lt in Hlt; exact Hlt
    end.
Qed.

(** X1. The lease index [checkForcedErr] returns is never below the
    state's lease applied index: it is either that index or the command's
    max lease index, and the latter only for a non-lease command whose max
    lease index is the larger. *)
Theorem checkForcedErr_never_lowers_index env idKey raftCmd isLocal st
    li retry err :
  checkForcedErr env idKey raftCmd isLocal st = Done (li, retry, err) ->
  LeaseAppliedIndex st <= li
  /\ (li = LeaseAppliedIndex st \/ li = MaxLeaseIndex raftCmd).
Proof.
  intros H.
  destruct (checkForcedErr_index _ _ _ _ _ _ _ _ H) as [-> | (-> & Hlt & _)].
  - split; [lia|left; reflexivity].
  - split; [lia|right; reflexivity].
Qed.

Lemma checkForcedErr_never_lowers_index_witness :
  LeaseAppliedIndex (Scenario.stateWithGC 70 false) <= 101
  /\ (101 = LeaseAppliedIndex (Scenario.stateWithGC 70 false)
      \/ 101 = MaxLeaseIndex (Scenario.raftCmdWith 5 101 Scenario.result60)).
Proof.
  apply (checkForcedErr_never_lowers_index Scenario.env0 "cmd-a"
           (Scenario.raftCmdWith 5 101 Scenario.result60) true
           (Scenario.stateWithGC 70 false) 101 proposalNoReevaluation
           (Some (BatchTimestampBeforeGCError (mkTimestamp 60 0)
                    (mkTimestamp 70 0)))).
  reflexivity.
Defined.

(** X2. The retry hint is given in one case only: a local, non-lease
    command whose max lease index is not above the lease applied index.
    The error is then the illegal-lease-index one and the lease index is
    the state's. *)
Theorem checkForcedErr_retry_only_for_local_replay env idKey raftCmd isLocal
    st li retry err :
  checkForcedErr env idKey raftCmd isLocal st = Done (li, retry, err) ->
  retry <> proposalNoReevaluation ->
  isLocal = true
  /\ IsLeaseRequest (ReplicatedEvalResult raftCmd) = false
  /\ MaxLeaseIndex raftCmd <= LeaseAppliedIndex st
  /\ li = LeaseAppliedIndex st
  /\ retry = proposalIllegalLeaseIndex
  /\ err = Some (IllegalLeaseIndexError (LeaseAppliedIndex st)
                   (MaxLeaseIndex raftCmd)).
Proof.
  unfold checkForcedErr, checkGCThreshold, obind, deref.
  repeat split_innermost; intros Hrun Hretry; inversion Hrun; subst;
    try (exfalso; apply Hretry; reflexivity).
  repeat split; try reflexivity.
  match goal with
  | Hlt : (_ <? _) = false |- _ => apply Z.ltb_ge in Hlt; exact Hlt
  end.
Qed.

Lemma checkForcedErr_retry_only_for_local_replay_witness :
  true = true
  /\ IsLeaseRequest (ReplicatedEvalResult Scenario.staleRaftCmd) = false
  /\ MaxLeaseIndex Scenario.staleRaftCmd
     <= LeaseAppliedIndex Scenario.state0
  /\ 100 = LeaseAppliedIndex Scenario.state0
  /\ proposalIllegalLeaseIndex = proposalIllegalLeaseIndex
  /\ Some (IllegalLeaseIndexError 100 100)
     = Some (IllegalLeaseIndexError (LeaseAppliedIndex Scenario.state0)
               (MaxLeaseIndex Scenario.staleRaftCmd)).
Proof.
  apply (checkForcedErr_retry_only_for_local_replay Scenario.env0 "cmd-a"
           Scenario.staleRaftCmd true Scenario.state0 100
           proposalIllegalLeaseIndex
           (Some (IllegalLeaseIndexError 100 100))).
  - reflexivity.
  - discriminate.
Defined.

(** X3. What an acceptance guarantees.  A command [checkForcedErr] accepts
    has a non-empty id, asks for no retry, and its timestamp is above the
    GC threshold, lease requests included.  If it is not a lease request
    its max lease index is above the lease applied index and is the index
    returned; if it is one, the index returned is the state's and the
    replica the lease is for is in the range descriptor. *)
Theorem checkForcedErr_accept_sound env idKey raftCmd isLocal st li retry :
  checkForcedErr env idKey raftCmd isLocal st = Done (li, retry, None) ->
  idKey <> ""
  /\ retry = proposalNoReevaluation
  /\ (exists threshold,
        GCThreshold st = Some threshold
        /\ Less threshold (Timestamp (ReplicatedEvalResult raftCmd)) = true)
  /\ (IsLeaseRequest (ReplicatedEvalResult raftCmd) = false ->
      LeaseAppliedIndex st < MaxLeaseIndex raftCmd
      /\ li = MaxLeaseIndex raftCmd
      /\ leaseMismatch env raftCmd false zeroLease st = Done false)
  /\ (IsLeaseRequest (ReplicatedEvalResult raftCmd) = true ->
      li = LeaseAppliedIndex st
      /\ exists rs req desc rd,
           State (ReplicatedEvalResult raftCmd) = Some rs
           /\ Lease rs = Some req
           /\ leaseMismatch env raftCmd true req st = Done false
           /\ Desc st = Some desc
           /\ GetReplicaDescriptor desc (StoreID (Replica req)) = Some rd).
Proof.
  unfold checkForcedErr, checkGCThreshold.
  destruct (IsLeaseRequest (ReplicatedEvalResult raftCmd)) eqn:Hreq.
  - destruct (State (ReplicatedEvalResult raftCmd)) as [rs|];
      cbn [deref obind]; [|discriminate].
    destruct (Lease rs) as [req|] eqn:Hl; cbn [deref obind]; [|discriminate].
    destruct (String.eqb_spec idKey "") as [Hempty|Hid]; [discriminate|].
    destruct (leaseMismatch env raftCmd true req st) as [[|]|] eqn:Hm;
      cbn [obind]; [| |discriminate].
    { destruct (Lease st); cbn [deref obind]; discriminate. }
    destruct (Desc st) as [desc|]; cbn [deref obind]; [|discriminate].
    destruct (GetReplicaDescriptor desc (StoreID (Replica req))) as [rd|] eqn:Hg.
    + destruct (GCThreshold st) as [g|]; cbn [deref obind]; [|discriminate].
      destruct (Less g (Timestamp (ReplicatedEvalResult raftCmd))) eqn:HL;
        cbn [negb]; [|discriminate].
      intros Hrun; inversion Hrun; subst.
      split; [assumption|]. split; [reflexivity|].
      split; [eauto|]. split; [discriminate|].
      intros _. split; [reflexivity|].
      exists rs, req, desc, rd. repeat split; assumption.
    + destruct (Lease st); cbn [deref obind]; discriminate.
  - cbn [obind].
    destruct (String.eqb_spec idKey "") as [Hempty|Hid]; [discriminate|].
    destruct (leaseMismatch env raftCmd false zeroLease st) as [[|]|] eqn:Hm;
      cbn [obind]; [| |discriminate].
    { destruct (Lease st); cbn [deref obind]; discriminate. }
    destruct (Z.ltb_spec (LeaseAppliedIndex st) (MaxLeaseIndex raftCmd)) as [Hlt|Hge];
      [|discriminate].
    destruct (GCThreshold st) as [g|]; cbn [deref obind]; [|discriminate].
    destruct (Less g (Timestamp (ReplicatedEvalResult raftCmd))) eqn:HL;
      cbn [negb]; [|discriminate].
    intros Hrun; inversion Hrun; subst.
    split; [assumption|]. split; [reflexivity|].
    split; [eauto|]. split; [|discriminate].
    intros _. repeat split; first [assumption|reflexivity].
Qed.

Lemma checkForcedErr_accept_sound_witness :
  "cmd-a" <> ""
  /\ proposalNoReevaluation = proposalNoReevaluation
  /\ (exists threshold,
        GCThreshold Scenario.state0 = Some threshold
        /\ Less threshold
             (Timestamp (ReplicatedEvalResult (raftCmd Scenario.happyCmd)))
           = true).
Proof.
  destruct (checkForcedErr_accept_sound Scenario.env0 "cmd-a"
              (raftCmd Scenario.happyCmd) false Scenario.state0 101
              proposalNoReevaluation eq_refl) as (H1 & H2 & H3 & _).
  repeat split; assumption.
Defined.

(** X4. A command proposed under another lease sequence is always
    rejected.  With no deprecated proposer lease, a current lease whose
    sequence differs from the proposer's, and a non-empty id, the check
    rejects with the lease index unchanged and no retry hint: as
    not-leaseholder for an ordinary command, as "proposed under invalid
    lease" for a lease request. *)
Theorem checkForcedErr_stale_lease_sequence env idKey raftCmd isLocal st cur :
  idKey <> "" ->
  DeprecatedProposerLease raftCmd = None ->
  Lease st = Some cur ->
  ProposerLeaseSequence raftCmd <> Sequence cur ->
  (IsLeaseRequest (ReplicatedEvalResult raftCmd) = false ->
   checkForcedErr env idKey raftCmd isLocal st
   = Done (LeaseAppliedIndex st, proposalNoReevaluation,
           Some (NotLeaseHolderError cur (StoreID (ProposerReplica raftCmd))
                   (Desc st) (ProposerLeaseSequence raftCmd))))
  /\ (forall rs req,
        IsLeaseRequest (ReplicatedEvalResult raftCmd) = true ->
        State (ReplicatedEvalResult raftCmd) = Some rs ->
        Lease rs = Some req ->
        checkForcedErr env idKey raftCmd isLocal st
        = Done (LeaseAppliedIndex st, proposalNoReevaluation,
                Some (LeaseRejectedError cur req
                        "proposed under invalid lease"))).
Proof.
  intros Hid Hdep Hcur Hseq.
  apply String.eqb_neq in Hid. apply Z.eqb_neq in Hseq.
  unfold checkForcedErr, leaseMismatch. split.
  - intros Hreq. rewrite Hreq. cbn [obind]. rewrite Hid, Hdep, Hcur.
    cbn [deref obind]. rewrite Hseq. cbn. rewrite ?Hcur. reflexivity.
  - intros rs req Hreq Hrs Hl. rewrite Hreq, Hrs. cbn [deref obind].
    rewrite Hl. cbn [deref obind]. rewrite Hid, Hdep, Hcur.
    cbn [deref obind]. rewrite Hseq. cbn. rewrite ?Hcur. reflexivity.
Qed.

Lemma checkForcedErr_stale_lease_sequence_witness :
  checkForcedErr Scenario.env0 "cmd-a"
    (Scenario.raftCmdWith 4 101 Scenario.result60) false Scenario.state0
  = Done (100, proposalNoReevaluation,
          Some (NotLeaseHolderError Scenario.lease5 1 (Some Scenario.desc1) 4)).
Proof.
  destruct (checkForcedErr_stale_lease_sequence Scenario.env0 "cmd-a"
              (Scenario.raftCmdWith 4 101 Scenario.result60) false
              Scenario.state0 Scenario.lease5) as [H _].
  - discriminate.
  - reflexivity.
  - reflexivity.
  - cbn. lia.
  - exact (H eq_refl).
Defined.

(* ------------------------------------------------------------------ *)
(** ** What staging leaves alone *)

Section RespectsLaws.

Variable R : replicaStateMachine -> replicaStateMachine -> Prop.
Hypothesis R_refl : forall s, R s s.
Hypothesis R_trans : forall s1 s2 s3, R s1 s2 -> R s2 s3 -> R s1 s3.

Lemma respects_ret {A} (a : A) : respects R (ret a).
Proof. intros sm out sm' H. inversion H; subst. apply R_refl. Qed.

Lemma respects_fail {A} (e : Exit) : respects R (@fail A e).
Proof. intros sm out sm' H. inversion H; subst. apply R_refl. Qed.

Lemma respects_get : respects R get.
Proof. intros sm out sm' H. inversion H; subst. apply R_refl. Qed.

Lemma respects_liftO {A} (o : Outcome A) : respects R (liftO o).
Proof. intros sm out sm' H. inversion H; subst. apply R_refl. Qed.

Lemma respects_modify f : (forall s, R s (f s)) -> respects R (modify f).
Proof. intros Hf sm out sm' H. inversion H; subst. apply Hf. Qed.

Lemma respects_bind {A B} (m : M A) (f : A -> M B) :
  respects R m -> (forall a, respects R (f a)) -> respects R (bind m f).
Proof.
  intros Hm Hf sm out sm'. unfold bind.
  destruct (m sm) as [[a|e] sm1] eqn:Hrun; intros H.
  - eapply R_trans; [eapply Hm; eassumption|eapply Hf; eassumption].
  - inversion H; subst. eapply Hm; eassumption.
Qed.

End RespectsLaws.

Lemma respects_weaken {A} (R1 R2 : replicaStateMachine -> replicaStateMachine -> Prop)
    (m : M A) :
  (forall s s', R1 s s' -> R2 s s') -> respects R1 m -> respects R2 m.
Proof. intros Hw Hm sm out sm' H. apply Hw. eapply Hm; eassumption. Qed.

Lemma batchGrows_refl s : batchGrows s s.
Proof. intros ops H. exists []. rewrite app_nil_r. exact H. Qed.

Lemma batchGrows_trans s1 s2 s3 :
  batchGrows s1 s2 -> batchGrows s2 s3 -> batchGrows s1 s3.
Proof.
  intros H12 H23 ops H.
  destruct (H12 ops H) as [a1 H2]. destruct (H23 _ H2) as [a2 H3].
  exists (a1 ++ a2). rewrite H3, app_assoc. reflexivity.
Qed.

Lemma stagingStep_refl s : stagingStep s s.
Proof.
  split; [repeat split|]. split; [apply batchGrows_refl|repeat split].
Qed.

Lemma stagingStep_trans s1 s2 s3 :
  stagingStep s1 s2 -> stagingStep s2 s3 -> stagingStep s1 s3.
Proof.
  intros ((Ha1 & Ha2 & Ha3 & Ha4 & Ha5) & Hg1 & Hk1 & Hl1 & Hm1 & Hn1 & Ho1)
         ((Hb1 & Hb2 & Hb3 & Hb4 & Hb5) & Hg2 & Hk2 & Hl2 & Hm2 & Hn2 & Ho2).
  split; [repeat split; congruence|].
  split; [eapply batchGrows_trans; eassumption|repeat split; congruence].
Qed.

Lemma stagingWhole_refl s : stagingWhole s s.
Proof.
  split; [repeat split|]. split; [apply batchGrows_refl|repeat split].
Qed.

Lemma stagingWhole_trans s1 s2 s3 :
  stagingWhole s1 s2 -> stagingWhole s2 s3 -> stagingWhole s1 s3.
Proof.
  intros ((Ha1 & Ha2 & Ha3 & Ha4 & Ha5)
          & Hg1 & Hp1 & Hq1 & Hr1 & Hs1 & Ht1 & Hu1)
         ((Hb1 & Hb2 & Hb3 & Hb4 & Hb5)
          & Hg2 & Hp2 & Hq2 & Hr2 & Hs2 & Ht2 & Hu2).
  split; [repeat split; congruence|].
  split; [eapply batchGrows_trans; eassumption|repeat split; congruence].
Qed.

Lemma stagingStep_whole s s' : stagingStep s s' -> stagingWhole s s'.
Proof.
  intros (Hl & Hg & Hk & _).
  split; [exact Hl|]. split; [exact Hg|]. rewrite Hk. repeat split.
Qed.

(** Steps on the replica and on the batch outside its state view. *)
Lemma stagingStep_r f s :
  mu_state (f (r s)) = mu_state (r s) ->
  engine (f (r s)) = engine (r s) ->
  clock (f (r s)) = clock (r s) ->
  stagingStep s (set_r (f (r s)) s).
Proof.
  intros H1 H2 H3.
  split; [repeat split; assumption|].
  split; [|repeat split].
  intros ops H. exists []. rewrite app_nil_r. exact H.
Qed.

Lemma respects_emitEv e : respects stagingStep (emitEv e).
Proof.
  apply respects_modify. intros s.
  apply (stagingStep_r (emit e)); reflexivity.
Qed.

Lemma respects_batchWrite ops : respects stagingStep (batchWrite ops).
Proof.
  intros sm out sm'. unfold batchWrite, openBatch. run_all.
  destruct (b_batch (batch sm)) as [cur|] eqn:Hb;
    intros H; inversion H; subst; [|apply stagingStep_refl].
  split; [repeat split|]. split; [|repeat split].
  intros ops0 H0. exists ops. cbn. congruence.
Qed.

Lemma respects_openBatch : respects stagingStep openBatch.
Proof.
  intros sm out sm'. unfold openBatch. run_all.
  destruct (b_batch (batch sm)); intros H; inversion H; subst;
    apply stagingStep_refl.
Qed.

Ltac respects_step R_refl R_trans :=
  first
    [ apply respects_ret; exact R_refl
    | apply respects_fail; exact R_refl
    | apply respects_get; exact R_refl
    | apply respects_liftO; exact R_refl
    | apply respects_emitEv
    | apply respects_batchWrite
    | apply respects_openBatch
    | apply respects_bind; [exact R_trans| |intros ?]
    | match goal with
      | |- respects _ (match ?x with _ => _ end) => destruct x
      | |- respects _ (when ?c _) => destruct c; cbn [when]
      | |- respects _ (let '(_, _) := ?x in _) => destruct x
      end ].

Lemma maybeAcquireSplitMergeLock_respects env raftCmd :
  respects stagingStep (maybeAcquireSplitMergeLock env raftCmd).
Proof.
  unfold maybeAcquireSplitMergeLock.
  repeat respects_step stagingStep_refl stagingStep_trans.
Qed.

Lemma migrateReplicatedResult_respects cmd :
  respects stagingStep (migrateReplicatedResult cmd).
Proof.
  unfold migrateReplicatedResult.
  repeat respects_step stagingStep_refl stagingStep_trans.
Qed.

Lemma stageWriteBatch_respects env cmd :
  respects stagingStep (stageWriteBatch env cmd).
Proof.
  unfold stageWriteBatch.
  repeat first
    [ respects_step stagingStep_refl stagingStep_trans
    | apply respects_modify; intros ?;
      split; [repeat split|];
      split; [|repeat split];
      intros ? Hops; exists []; rewrite app_nil_r; exact Hops ].
Qed.

Lemma runPreApplyTriggers_respects env cmd :
  respects stagingStep (runPreApplyTriggers env cmd).
Proof.
  unfold runPreApplyTriggers.
  repeat first
    [ respects_step stagingStep_refl stagingStep_trans
    | apply respects_modify; intros ?;
      apply (stagingStep_r (set_raftLogSizeTrusted false)); reflexivity ].
Qed.

Lemma stagingWhole_batch f s :
  b_batch (f (batch s)) = b_batch (batch s) ->
  b_state (f (batch s)) = b_state (batch s) ->
  stagingWhole s (set_batch (f (batch s)) s).
Proof.
  intros Hb Hs.
  split; [repeat split|]. split.
  - intros ops H. exists []. rewrite app_nil_r.
    change (b_batch (f (batch s)) = Some ops). congruence.
  - change (Desc (b_state (f (batch s))) = Desc (b_state (batch s))
            /\ Lease (b_state (f (batch s))) = Lease (b_state (batch s))
            /\ TruncatedState (b_state (f (batch s)))
               = TruncatedState (b_state (batch s))
            /\ GCThreshold (b_state (f (batch s)))
               = GCThreshold (b_state (batch s))
            /\ UsingAppliedStateKey (b_state (f (batch s)))
               = UsingAppliedStateKey (b_state (batch s))
            /\ DeprecatedTxnSpanGCThreshold (b_state (f (batch s)))
               = DeprecatedTxnSpanGCThreshold (b_state (batch s))).
    rewrite Hs. repeat split.
Qed.

Lemma stagingWhole_b_state f s :
  Desc (f (b_state (batch s))) = Desc (b_state (batch s)) ->
  Lease (f (b_state (batch s))) = Lease (b_state (batch s)) ->
  TruncatedState (f (b_state (batch s))) = TruncatedState (b_state (batch s)) ->
  GCThreshold (f (b_state (batch s))) = GCThreshold (b_state (batch s)) ->
  UsingAppliedStateKey (f (b_state (batch s)))
  = UsingAppliedStateKey (b_state (batch s)) ->
  DeprecatedTxnSpanGCThreshold (f (b_state (batch s)))
  = DeprecatedTxnSpanGCThreshold (b_state (batch s)) ->
  stagingWhole s (set_batch (set_b_state (f (b_state (batch s))) (batch s)) s).
Proof.
  intros H1 H2 H3 H4 H5 H6.
  split; [repeat split|]. split.
  - intros ops H. exists []. rewrite app_nil_r. exact H.
  - cbn. repeat split; assumption.
Qed.

Ltac whole_step :=
  first
    [ apply respects_ret; exact stagingWhole_refl
    | apply respects_fail; exact stagingWhole_refl
    | apply respects_get; exact stagingWhole_refl
    | apply respects_liftO; exact stagingWhole_refl
    | apply respects_bind; [exact stagingWhole_trans| |intros ?]
    | apply respects_modify; intros ?;
      first [ apply stagingWhole_b_state; reflexivity
            | apply stagingWhole_batch; reflexivity ]
    | match goal with
      | |- respects _ (match ?x with _ => _ end) => destruct x
      | |- respects _ (when ?c _) => destruct c; cbn [when]
      | |- respects _ (let '(_, _) := ?x in _) => destruct x
      end ].

Lemma stageTrivialReplicatedEvalResult_respects cmd :
  respects stagingWhole (stageTrivialReplicatedEvalResult cmd).
Proof.
  unfold stageTrivialReplicatedEvalResult, batchStats.
  repeat whole_step.
Qed.

Lemma Stage_respects env cmd :
  respects stagingWhole (replicaAppBatch_Stage env cmd).
Proof.
  unfold replicaAppBatch_Stage.
  repeat first
    [ eapply respects_weaken;
      [exact stagingStep_whole|
       first [ apply maybeAcquireSplitMergeLock_respects
             | apply migrateReplicatedResult_respects
             | apply stageWriteBatch_respects
             | apply runPreApplyTriggers_respects ]]
    | apply stageTrivialReplicatedEvalResult_respects
    | whole_step ].
Qed.

(** X5.  Staging a command never touches what is live.  Whatever
    [replicaAppBatch.Stage] returns -- the staged command or any error --
    the replica's published state [r.mu.state], the batches committed to
    the storage engine, the clock, the ephemeral batch and the state
    machine's counters are as before; writes already staged in the batch
    are still there, in order, with new ones only appended; and of the
    batch's view of the replica state only the applied indexes and the
    stats may have moved (the descriptor, the lease, the truncated state,
    the GC threshold, the key layout flag and the deprecated transaction
    span GC threshold are as before). *)
Theorem Stage_touches_only_the_batch env cmd sm out sm' :
  replicaAppBatch_Stage env cmd sm = (out, sm') ->
  mu_state (r sm') = mu_state (r sm)
  /\ engine (r sm') = engine (r sm)
  /\ clock (r sm') = clock (r sm)
  /\ ephemeralBatch sm' = ephemeralBatch sm
  /\ stats sm' = stats sm
  /\ (forall ops,
        b_batch (batch sm) = Some ops ->
        exists added, b_batch (batch sm') = Some (ops ++ added))
  /\ Desc (b_state (batch sm')) = Desc (b_state (batch sm))
  /\ Lease (b_state (batch sm')) = Lease (b_state (batch sm))
  /\ TruncatedState (b_state (batch sm'))
     = TruncatedState (b_state (batch sm))
  /\ GCThreshold (b_state (batch sm')) = GCThreshold (b_state (batch sm))
  /\ UsingAppliedStateKey (b_state (batch sm'))
     = UsingAppliedStateKey (b_state (batch sm))
  /\ DeprecatedTxnSpanGCThreshold (b_state (batch sm'))
     = DeprecatedTxnSpanGCThreshold (b_state (batch sm)).
Proof.
  intros Hrun.
  destruct (Stage_respects _ _ _ _ _ Hrun)
    as ((H1 & H2 & H3 & H4 & H5) & Hgrow & H6 & H7 & H8 & H9 & H10 & H11).
  repeat (split; [assumption|]). assumption.
Qed.

Lemma Stage_touches_only_the_batch_witness :
  let sm := Scenario.smWith Scenario.state0 false in
  let run := replicaAppBatch_Stage Scenario.env0 Scenario.splitCmd sm in
  mu_state (r (snd run)) = mu_state (r sm)
  /\ engine (r (snd run)) = engine (r sm)
  /\ DeprecatedTxnSpanGCThreshold (b_state (batch (snd run)))
     = DeprecatedTxnSpanGCThreshold (b_state (batch sm)).
Proof.
  intros sm run.
  destruct (Stage_touches_only_the_batch Scenario.env0 Scenario.splitCmd sm
              (fst run) (snd run))
    as (H1 & H2 & _ & _ & _ & _ & _ & _ & _ & _ & _ & H3).
  - vm_compute. reflexivity.
  - split; [exact H1|]. split; [exact H2|exact H3].
Defined.

(* ------------------------------------------------------------------ *)
(** ** What a successful [Stage] leaves behind *)

Ltac bind_inv H :=
  let a := fresh "a" in
  let s := fresh "s" in
  let Hstep := fresh "Hstep" in
  apply bind_Done in H; destruct H as (a & s & Hstep & H).

Lemma stageTrivialReplicatedEvalResult_Done cmd sm u sm' :
  stageTrivialReplicatedEvalResult cmd sm = (Done u, sm') ->
  exists ms,
    Stats (b_state (batch sm)) = Some ms
    /\ RaftAppliedIndex (b_state (batch sm'))
       = (if Index (ent cmd) =? 0
          then RaftAppliedIndex (b_state (batch sm)) else Index (ent cmd))
    /\ LeaseAppliedIndex (b_state (batch sm'))
       = (if leaseIndex cmd =? 0
          then LeaseAppliedIndex (b_state (batch sm)) else leaseIndex cmd)
    /\ Stats (b_state (batch sm'))
       = Some (stagedStats ms (replicatedResult cmd))
    /\ migrateToAppliedStateKey (batch sm')
       = (migrateToAppliedStateKey (batch sm)
          || match State (replicatedResult cmd) with
             | Some st =>
                 UsingAppliedStateKey st
                 && negb (UsingAppliedStateKey (b_state (batch sm)))
             | None => false
             end)
    /\ entries (batch sm') = entries (batch sm)
    /\ emptyEntries (batch sm') = emptyEntries (batch sm)
    /\ maxTS (batch sm') = maxTS (batch sm).
Proof.
  unfold stageTrivialReplicatedEvalResult, stagedStats.
  open_sm sm. run_all.
  destruct (Index (ent cmd) =? 0), (leaseIndex cmd =? 0); run_all.
  all: match goal with
       | |- context [match ?o with Some _ => _ | None => _ end] =>
           destruct o as [ms|]
       end; run_all; [|discriminate].
  all: destruct (Split (replicatedResult cmd)); run_all.
  all: destruct (State (replicatedResult cmd)) as [st'|]; run_all.
  all: try match goal with
       | |- context [if ?c then _ else _] => destruct c eqn:?
       end; run_all.
  all: intros H; inversion H; subst; clear H; cbn; exists ms.
  all: repeat split; try reflexivity.
  all: try match goal with
       | Hc : _ && _ = _ |- _ => rewrite Hc
       end.
  all: rewrite ?orb_true_r, ?orb_false_r; try reflexivity.
Qed.

Lemma shouldApplyCommand_Done env rep cmd st cmd1 apply :
  shouldApplyCommand env rep cmd st = Done (cmd1, apply) ->
  exists li retry ferr,
    checkForcedErr env (idKey cmd) (raftCmd cmd) (IsLocal cmd) st
    = Done (li, retry, ferr)
    /\ leaseIndex cmd1 = li
    /\ ent cmd1 = ent cmd
    /\ idKey cmd1 = idKey cmd
    /\ proposal cmd1 = proposal cmd
    /\ raftCmd cmd1 = raftCmd cmd
    /\ cc cmd1 = cc cmd
    /\ splitMergeUnlock cmd1 = splitMergeUnlock cmd
    /\ localResult cmd1 = localResult cmd
    /\ apply = isNone (forcedErr cmd1)
    /\ (ferr <> None \/ TestingApplyFilter env = None ->
        forcedErr cmd1 = ferr /\ proposalRetry cmd1 = retry).
Proof.
  unfold shouldApplyCommand.
  destruct (checkForcedErr env (idKey cmd) (raftCmd cmd) (IsLocal cmd) st)
    as [[[li retry] ferr]|e]; cbn [obind]; [|discriminate].
  intros H. exists li, retry, ferr. split; [reflexivity|].
  revert H. cbn [forcedErr set_forcedErr].
  destruct (TestingApplyFilter env) as [filter|], ferr as [err|];
    cbn -[Z.eqb];
    try (intros H; inversion H; subst; clear H; cbn;
         do 9 (split; [reflexivity|]); intros _; split; reflexivity).
  destruct (filter _) as [newRetry ferr'].
  cbn -[Z.eqb]. destruct (retry =? 0);
    intros H; inversion H; subst; clear H; cbn;
    do 9 (split; [reflexivity|]);
    intros [Hc|Hc]; solve [congruence | discriminate Hc].
Qed.

Lemma migrateReplicatedResult_Done cmd sm c sm' :
  migrateReplicatedResult cmd sm = (Done c, sm') ->
  sm' = sm
  /\ ((DeprecatedDelta (replicatedResult cmd) = None /\ c = cmd)
      \/ exists d,
           DeprecatedDelta (replicatedResult cmd) = Some d
           /\ c = set_replicatedResult
                    (set_DeprecatedDelta None
                       (set_Delta (ToStatsDelta d) (replicatedResult cmd)))
                    cmd).
Proof.
  unfold migrateReplicatedResult.
  destruct (DeprecatedDelta (replicatedResult cmd)) as [d|].
  - destruct (negb _); intros H; inversion H; subst.
    split; [reflexivity|]. right. exists d. split; reflexivity.
  - intros H; inversion H; subst. split; [reflexivity|]. left.
    split; reflexivity.
Qed.

Lemma maybeAcquireSplitMergeLock_Done env raftCmd sm lock sm' :
  maybeAcquireSplitMergeLock env raftCmd sm = (Done lock, sm') ->
  lock
  = match Split (ReplicatedEvalResult raftCmd) with
    | Some split =>
        if acquireSplitLockFails env (SplitTrigger split) then None
        else Some (Some (UnlockSplit (SplitTrigger split)))
    | None =>
        match Merge (ReplicatedEvalResult raftCmd) with
        | Some merge =>
            if acquireMergeLockFails env merge then None
            else Some (Some (UnlockMerge merge))
        | None => Some None
        end
    end.
Proof.
  unfold maybeAcquireSplitMergeLock.
  destruct (Split (ReplicatedEvalResult raftCmd)) as [split|];
    [|destruct (Merge (ReplicatedEvalResult raftCmd)) as [merge|]];
    run_all;
    try match goal with
        | |- context [if ?c then _ else _] => destruct c
        end;
    intros H; inversion H; reflexivity.
Qed.

Lemma runPreApplyTriggers_Done env cmd sm c sm' :
  runPreApplyTriggers env cmd sm = (Done c, sm') ->
  (WriteBatch (raftCmd cmd) = None -> LogicalOpLog (raftCmd cmd) = None)
  /\ exists res2,
       c = set_replicatedResult res2 cmd
       /\ (res2 = set_AddSSTable None (replicatedResult cmd)
           \/ exists st,
                State (replicatedResult cmd) = Some st
                /\ res2
                   = set_RaftLogDelta 0
                       (set_State (Some (set_TruncatedState None st))
                          (set_AddSSTable None (replicatedResult cmd)))).
Proof.
  unfold runPreApplyTriggers. intros H.
  bind_inv H. bind_inv H. bind_inv H. bind_inv H. bind_inv H.
  inversion H; subst; clear H.
  assert (a = set_AddSSTable None (replicatedResult cmd)) as ->.
  { revert Hstep. destruct (replicatedResult cmd) eqn:Hres. cbn.
    destruct AddSSTable0 as [sst|].
    - run_all. destruct (addSSTablePreApply _ _ _ _); cbn;
        intros H; inversion H; reflexivity.
    - intros H; inversion H; reflexivity. }
  clear Hstep Hstep0 Hstep1. split.
  - revert Hstep3. cbn [raftCmd set_replicatedResult set_raftCmd WriteBatch
                         LogicalOpLog set_ReplicatedEvalResult].
    intros Hlog Hwb. rewrite Hwb in Hlog.
    destruct (LogicalOpLog (raftCmd cmd)); [discriminate Hlog|reflexivity].
  - exists a2. split; [reflexivity|]. clear Hstep3. revert Hstep2.
    change (State (set_AddSSTable None (replicatedResult cmd)))
      with (State (replicatedResult cmd)).
    destruct (State (replicatedResult cmd)) as [st|];
      [destruct (TruncatedState st) as [ts|]|];
      try (intros H; inversion H; left; reflexivity).
    rewrite bind_get.
    destruct (handleTruncatedStateBelowRaft env _ ts) as [[apply writes]|];
      [|discriminate].
    intros H. bind_inv H. destruct apply; cbn [negb] in H.
    + inversion H. left. reflexivity.
    + bind_inv H. inversion H. right. exists st. split; reflexivity.
Qed.

(** A successful [Stage], step by step: the index checks passed, the
    command was checked, locked, migrated and run through the triggers,
    and the batch state moved as [stageTrivialReplicatedEvalResult] moves
    it. *)
Lemma Stage_Done env cmd sm cmd' sm' :
  replicaAppBatch_Stage env cmd sm = (Done cmd', sm') ->
  exists cmd1 accept cmd3 cmd4 ms,
    Index (ent cmd) <> 0
    /\ Index (ent cmd) = u64 (RaftAppliedIndex (b_state (batch sm)) + 1)
    /\ shouldApplyCommand env (r sm) cmd (b_state (batch sm))
       = Done (cmd1, accept)
    /\ cmd3
       = (let cmd2 := if negb accept then wipe cmd1 else cmd1 in
          match Split (replicatedResult cmd2) with
          | Some split =>
              set_splitMergeUnlock (Some (UnlockSplit (SplitTrigger split)))
                cmd2
          | None =>
              match Merge (replicatedResult cmd2) with
              | Some merge =>
                  set_splitMergeUnlock (Some (UnlockMerge merge)) cmd2
              | None => cmd2
              end
          end)
    /\ ((DeprecatedDelta (replicatedResult cmd3) = None /\ cmd4 = cmd3)
        \/ exists d,
             DeprecatedDelta (replicatedResult cmd3) = Some d
             /\ cmd4 = set_replicatedResult
                         (set_DeprecatedDelta None
                            (set_Delta (ToStatsDelta d)
                               (replicatedResult cmd3)))
                         cmd3)
    /\ (WriteBatch (raftCmd cmd4) = None -> LogicalOpLog (raftCmd cmd4) = None)
    /\ (exists res2,
          cmd' = set_replicatedResult res2 cmd4
          /\ (res2 = set_AddSSTable None (replicatedResult cmd4)
              \/ exists st,
                   State (replicatedResult cmd4) = Some st
                   /\ res2
                      = set_RaftLogDelta 0
                          (set_State (Some (set_TruncatedState None st))
                             (set_AddSSTable None (replicatedResult cmd4)))))
    /\ Stats (b_state (batch sm)) = Some ms
    /\ RaftAppliedIndex (b_state (batch sm')) = Index (ent cmd)
    /\ LeaseAppliedIndex (b_state (batch sm'))
       = (if leaseIndex cmd' =? 0
          then LeaseAppliedIndex (b_state (batch sm)) else leaseIndex cmd')
    /\ Stats (b_state (batch sm'))
       = Some (stagedStats ms (replicatedResult cmd'))
    /\ migrateToAppliedStateKey (batch sm')
       = (migrateToAppliedStateKey (batch sm)
          || match State (replicatedResult cmd') with
             | Some st =>
                 UsingAppliedStateKey st
                 && negb (UsingAppliedStateKey (b_state (batch sm)))
             | None => false
             end)
    /\ entries (batch sm') = i64 (entries (batch sm) + 1)
    /\ emptyEntries (batch sm')
       = (if Nat.eqb (List.length (EntryData (ent cmd))) 0
          then i64 (emptyEntries (batch sm) + 1) else emptyEntries (batch sm))
    /\ maxTS (batch sm')
       = Forward (maxTS (batch sm)) (Timestamp (replicatedResult cmd3))
    /\ sameDecision cmd1 cmd'.
Proof.
  unfold replicaAppBatch_Stage. rewrite bind_get.
  destruct (Index (ent cmd) =? 0) eqn:Hnz; [discriminate|].
  destruct (Index (ent cmd) =? u64 (RaftAppliedIndex (b_state (batch sm)) + 1))
    eqn:Hidx; cbn [negb]; [|discriminate].
  apply Z.eqb_neq in Hnz. apply Z.eqb_eq in Hidx.
  intros H. bind_inv H. destruct a as [cmd1 accept].
  assert (shouldApplyCommand env (r sm) cmd (b_state (batch sm))
          = Done (cmd1, accept) /\ s = sm) as [Hshould ->].
  { revert Hstep. unfold liftO.
    destruct (shouldApplyCommand env (r sm) cmd (b_state (batch sm)));
      intros E; inversion E; split; reflexivity. }
  clear Hstep.
  bind_inv H. rename a into lock, s into s1, Hstep into Hlock.
  bind_inv H. rename a into cmd3, s into s2, Hstep into Hcmd3.
  bind_inv H. rename s into s3, Hstep into Hmax. destruct a.
  bind_inv H. rename a into cmd4, s into s4, Hstep into Hmig.
  bind_inv H. rename s into s5, Hstep into Hwb. destruct a.
  bind_inv H. rename a into cmd5, s into s6, Hstep into Htrig.
  bind_inv H. rename s into s7, Hstep into Htriv. destruct a.
  bind_inv H. rename s into s8, Hstep into Hent. destruct a.
  bind_inv H. rename s into s9, Hstep into Hempty. destruct a.
  inversion H; subst cmd5 s9; clear H.
  pose proof (maybeAcquireSplitMergeLock_respects _ _ _ _ _ Hlock)
    as (_ & _ & Hk1 & Hm1 & He1 & Hee1 & Ht1).
  apply maybeAcquireSplitMergeLock_Done in Hlock.
  pose proof (stageWriteBatch_respects _ _ _ _ _ Hwb)
    as (_ & _ & Hk5 & Hm5 & He5 & Hee5 & Ht5).
  pose proof (runPreApplyTriggers_respects _ _ _ _ _ Htrig)
    as (_ & _ & Hk6 & Hm6 & He6 & Hee6 & Ht6).
  apply runPreApplyTriggers_Done in Htrig. destruct Htrig as (Hlog & Hres2).
  apply migrateReplicatedResult_Done in Hmig. destruct Hmig as (-> & Hmig).
  apply stageTrivialReplicatedEvalResult_Done in Htriv.
  destruct Htriv as (ms & Hms & Hrai & Hlai & Hst & Hmigr & Hen & Hem & Hts).
  inversion Hmax; subst s3; clear Hmax.
  inversion Hent; subst s8; clear Hent.
  set (cmd2 := if negb accept then wipe cmd1 else cmd1) in *.
  assert (s2 = s1
          /\ cmd3
             = match Split (replicatedResult cmd2) with
               | Some split =>
                   set_splitMergeUnlock
                     (Some (UnlockSplit (SplitTrigger split))) cmd2
               | None =>
                   match Merge (replicatedResult cmd2) with
                   | Some merge =>
                       set_splitMergeUnlock (Some (UnlockMerge merge)) cmd2
                   | None => cmd2
                   end
               end) as [-> Hcmd3'].
  { revert Hcmd3. rewrite Hlock. unfold replicatedResult.
    destruct (Split (ReplicatedEvalResult (raftCmd cmd2))) as [sp|];
      [destruct (acquireSplitLockFails _ _)
      |destruct (Merge (ReplicatedEvalResult (raftCmd cmd2))) as [merge|];
         [destruct (acquireMergeLockFails _ _)|]];
      intros E; inversion E; split; reflexivity. }
  clear Hcmd3 Hlock.
  assert (sameDecision cmd1 cmd') as Hsame.
  { destruct Hres2 as (res2 & -> & _).
    assert (sameDecision cmd1 cmd3) as Hs3.
    { rewrite Hcmd3'. subst cmd2.
      destruct accept; cbn [negb];
        repeat match goal with
               | |- context [match ?x with _ => _ end] => destruct x
               end; repeat split. }
    destruct Hs3 as (? & ? & ? & ? & ? & ? & ?).
    destruct Hmig as [[_ ->]|(d & _ & ->)]; repeat split; assumption. }
  exists cmd1, accept, cmd3, cmd4, ms.
  assert (ent cmd' = ent cmd) as Hent'.
  { destruct Hsame as (-> & _).
    destruct (shouldApplyCommand_Done _ _ _ _ _ _ Hshould)
      as (? & ? & ? & _ & _ & He & _). exact He. }
  rewrite Hent' in *.
  split; [exact Hnz|]. split; [exact Hidx|]. split; [exact Hshould|].
  split; [exact Hcmd3'|]. split; [exact Hmig|]. split; [exact Hlog|].
  split; [exact Hres2|].
  cbn [batch set_batch b_state set_maxTS] in *.
  split; [congruence|].
  assert (forall s0 : replicaStateMachine,
            when (Nat.eqb (List.length (EntryData (ent cmd))) 0)
              (modify_batch
                 (fun b => set_emptyEntries (i64 (emptyEntries b + 1)) b)) s0
            = (Done tt, sm') ->
            b_state (batch sm') = b_state (batch s0)
            /\ migrateToAppliedStateKey (batch sm')
               = migrateToAppliedStateKey (batch s0)
            /\ entries (batch sm') = entries (batch s0)
            /\ maxTS (batch sm') = maxTS (batch s0)
            /\ emptyEntries (batch sm')
               = (if Nat.eqb (List.length (EntryData (ent cmd))) 0
                  then i64 (emptyEntries (batch s0) + 1)
                  else emptyEntries (batch s0))) as Hlast.
  { intros s0. destruct (Nat.eqb _ _); intros E; inversion E;
      repeat split; reflexivity. }
  destruct (Hlast _ Hempty) as (Hb & Hmg & Hn & Hx & Hy). clear Hlast Hempty.
  cbn [batch set_batch b_state set_maxTS set_entries entries emptyEntries
       maxTS migrateToAppliedStateKey] in *.
  apply Z.eqb_neq in Hnz. rewrite Hnz in Hrai.
  rewrite Hk6, Hk5, Hk1 in Hlai, Hmigr.
  rewrite Hb, Hmg, Hn, Hx, Hy, Hrai, Hlai, Hst, Hmigr, Hen, Hem, Hts.
  rewrite Hm6, Hm5, Hm1, He6, He5, He1, Hee6, Hee5, Hee1, Ht6, Ht5, Ht1.
  repeat (split; [reflexivity|]). exact Hsame.
Qed.

(** X6.  A successful [Stage] moves the batch's applied index to the
    entry's index, which is one past the index it had, hands back the
    command for the same entry, counts the entry, and never lowers the
    lease applied index: it either keeps it or raises it to the command's
    max lease index. *)
Theorem Stage_advances_applied_indexes env cmd sm cmd' sm' :
  replicaAppBatch_Stage env cmd sm = (Done cmd', sm') ->
  Index (ent cmd) = u64 (RaftAppliedIndex (b_state (batch sm)) + 1)
  /\ RaftAppliedIndex (b_state (batch sm')) = Index (ent cmd)
  /\ ent cmd' = ent cmd
  /\ LeaseAppliedIndex (b_state (batch sm))
     <= LeaseAppliedIndex (b_state (batch sm'))
  /\ (LeaseAppliedIndex (b_state (batch sm'))
      = LeaseAppliedIndex (b_state (batch sm))
      \/ LeaseAppliedIndex (b_state (batch sm'))
         = MaxLeaseIndex (raftCmd cmd))
  /\ entries (batch sm') = i64 (entries (batch sm) + 1).
Proof.
  intros Hrun.
  destruct (Stage_Done _ _ _ _ _ Hrun)
    as (cmd1 & accept & cmd3 & cmd4 & ms & _ & Hidx & Hshould & _ & _ & _ & _
        & _ & Hrai & Hlai & _ & _ & Hen & _ & _ & Hsame).
  destruct (shouldApplyCommand_Done _ _ _ _ _ _ Hshould)
    as (li & retry & ferr & Hcheck & Hli & Hent & _).
  destruct Hsame as (Hent' & _ & _ & Hli' & _).
  rewrite Hli', Hli in Hlai.
  split; [exact Hidx|]. split; [exact Hrai|]. split; [congruence|].
  rewrite Hlai.
  destruct (checkForcedErr_index _ _ _ _ _ _ _ _ Hcheck)
    as [Heq|(Heq & Hlt & _)];
    destruct (li =? 0); subst li;
    (split; [lia|]); (split; [|exact Hen]); auto.
Qed.

Lemma Stage_advances_applied_indexes_witness :
  Index (ent Scenario.happyCmd) = u64 (10 + 1)
  /\ RaftAppliedIndex
       (b_state (batch (snd (replicaAppBatch_Stage Scenario.env0
                               Scenario.happyCmd
                               (Scenario.smWith Scenario.state0 false)))))
     = 11.
Proof.
  destruct (Stage_advances_applied_indexes Scenario.env0 Scenario.happyCmd
              (Scenario.smWith Scenario.state0 false)
              (set_leaseIndex 101 Scenario.happyCmd)
              (snd (replicaAppBatch_Stage Scenario.env0 Scenario.happyCmd
                      (Scenario.smWith Scenario.state0 false))))
    as (H1 & H2 & _).
  - vm_compute. reflexivity.
  - split; [exact H1|exact H2].
Defined.

(** The command a successful [Stage] hands back, against the command it
    was given. *)
Lemma Stage_command_shape env cmd sm cmd' sm' :
  replicaAppBatch_Stage env cmd sm = (Done cmd', sm') ->
  AddSSTable (replicatedResult cmd') = None
  /\ DeprecatedDelta (replicatedResult cmd') = None
  /\ (WriteBatch (raftCmd cmd') = None -> LogicalOpLog (raftCmd cmd') = None)
  /\ idKey cmd' = idKey cmd
  /\ proposal cmd' = proposal cmd
  /\ (forcedErr cmd' <> None ->
      replicatedResult cmd' = zeroReplicatedEvalResult
      /\ WriteBatch (raftCmd cmd') = None
      /\ LogicalOpLog (raftCmd cmd') = None
      /\ splitMergeUnlock cmd' = splitMergeUnlock cmd)
  /\ (forcedErr cmd' = None ->
      WriteBatch (raftCmd cmd') = WriteBatch (raftCmd cmd)
      /\ LogicalOpLog (raftCmd cmd') = LogicalOpLog (raftCmd cmd)
      /\ sameTriggers (replicatedResult cmd) (replicatedResult cmd')
      /\ Delta (replicatedResult cmd') = migratedDelta (replicatedResult cmd)).
Proof.
  intros Hrun.
  destruct (Stage_Done _ _ _ _ _ Hrun)
    as (cmd1 & accept & cmd3 & cmd4 & ms & _ & _ & Hshould & Hcmd3 & Hmig
        & Hlog & (res2 & Hcmd' & Hres2) & _ & _ & _ & _ & _ & _ & _ & _
        & Hsame).
  destruct (shouldApplyCommand_Done _ _ _ _ _ _ Hshould)
    as (li & retry & ferr & _ & _ & _ & Hid & Hprop & Hraft & _ & Hunl & _
        & Hacc & _).
  destruct Hsame as (_ & Hid' & Hprop' & _ & Hferr & _).
  assert (raftCmd cmd'
          = set_ReplicatedEvalResult res2 (raftCmd cmd4)) as Hraft'.
  { rewrite Hcmd'. reflexivity. }
  assert (splitMergeUnlock cmd' = splitMergeUnlock cmd3) as Hunl'.
  { rewrite Hcmd'.
    destruct Hmig as [[_ ->]|(d & _ & ->)]; reflexivity. }
  unfold replicatedResult in *. rewrite Hraft'.
  cbn [ReplicatedEvalResult WriteBatch LogicalOpLog set_ReplicatedEvalResult].
  split.
  { destruct Hres2 as [->|(st & _ & ->)]; reflexivity. }
  split.
  { destruct Hres2 as [->|(st & _ & ->)];
      destruct Hmig as [[Hdd ->]|(d & _ & ->)]; try exact Hdd; reflexivity. }
  split; [exact Hlog|]. split; [congruence|]. split; [congruence|].
  rewrite Hferr, Hunl'. clear Hrun Hcmd' Hraft' Hunl' Hferr Hid' Hprop' cmd'.
  split.
  - intros Hrej.
    assert (accept = false) as ->
        by (rewrite Hacc; destruct (forcedErr cmd1); [reflexivity|congruence]).
    cbn in Hcmd3. subst cmd3. cbn in *.
    destruct Hmig as [[_ ->]|(d & Hdd & _)]; [|discriminate Hdd].
    cbn in *.
    destruct Hres2 as [->|(st & Hst & _)]; [|discriminate Hst].
    repeat split; assumption.
  - intros Hok.
    assert (accept = true) as -> by (rewrite Hacc, Hok; reflexivity).
    cbn [negb] in Hcmd3.
    assert (raftCmd cmd3 = raftCmd cmd) as Hraft3.
    { rewrite Hcmd3, <- Hraft.
      repeat match goal with
             | |- context [match ?x with _ => _ end] => destruct x
             end; reflexivity. }
    clear Hcmd3. unfold sameTriggers, migratedDelta.
    destruct Hmig as [[Hdd ->]|(d & Hdd & ->)];
      cbn [raftCmd set_replicatedResult set_raftCmd ReplicatedEvalResult
           WriteBatch LogicalOpLog set_ReplicatedEvalResult] in *;
      rewrite ?Hraft3 in *; clear Hraft3;
      rewrite Hdd;
      destruct Hres2 as [->|(st & _ & ->)]; repeat split; reflexivity.
Qed.

(** X7.  The command a successful [Stage] hands back is in normal form:
    it carries no AddSSTable payload and no deprecated stats delta, and a
    logical op log only together with a write batch; it keeps the id and
    the proposal of the command staged.  If it carries a forced error it
    carries nothing else: an empty replicated result, no write batch, no
    logical op log, and no lock token that it did not have.  If it carries
    no forced error, its write batch, its logical op log and the side
    effects its result asks for are those of the command staged, and its
    stats delta is the staged command's, the deprecated delta folded in. *)
Theorem Stage_hands_back_normal_form env cmd sm cmd' sm' :
  replicaAppBatch_Stage env cmd sm = (Done cmd', sm') ->
  AddSSTable (replicatedResult cmd') = None
  /\ DeprecatedDelta (replicatedResult cmd') = None
  /\ (WriteBatch (raftCmd cmd') = None -> LogicalOpLog (raftCmd cmd') = None)
  /\ idKey cmd' = idKey cmd
  /\ proposal cmd' = proposal cmd
  /\ (forcedErr cmd' <> None ->
      replicatedResult cmd' = zeroReplicatedEvalResult
      /\ WriteBatch (raftCmd cmd') = None
      /\ LogicalOpLog (raftCmd cmd') = None
      /\ splitMergeUnlock cmd' = splitMergeUnlock cmd)
  /\ (forcedErr cmd' = None ->
      WriteBatch (raftCmd cmd') = WriteBatch (raftCmd cmd)
      /\ LogicalOpLog (raftCmd cmd') = LogicalOpLog (raftCmd cmd)
      /\ sameTriggers (replicatedResult cmd) (replicatedResult cmd')
      /\ Delta (replicatedResult cmd') = migratedDelta (replicatedResult cmd)).
Proof. apply Stage_command_shape. Qed.

Lemma Stage_hands_back_normal_form_witness :
  replicatedResult Scenario.rejectedStaleCmd = zeroReplicatedEvalResult
  /\ WriteBatch (raftCmd Scenario.rejectedStaleCmd) = None.
Proof.
  destruct (Stage_hands_back_normal_form Scenario.env0 Scenario.staleCmd
              (Scenario.smWith Scenario.state0 false)
              Scenario.rejectedStaleCmd
              (snd (replicaAppBatch_Stage Scenario.env0 Scenario.staleCmd
                      (Scenario.smWith Scenario.state0 false))))
    as (_ & _ & _ & _ & _ & Hrej & _).
  - vm_compute. reflexivity.
  - destruct Hrej as (H1 & H2 & _); [vm_compute; discriminate|].
    split; assumption.
Defined.

(** X8.  What a successful [Stage] does to the batch's stats and to its
    maximal timestamp.  For a command handed back without forced error the
    stats become the stats before plus the command's stats delta (the
    deprecated delta, when the command carries one), with the
    estimates flag cleared when the command carries a split, and the
    maximal timestamp is forwarded to the command's timestamp.  For a
    command handed back with a forced error only the zero delta is added,
    so stats whose counters are in range are unchanged, and the maximal
    timestamp is forwarded to the zero timestamp only. *)
Theorem Stage_accumulates_stats env cmd sm cmd' sm' :
  replicaAppBatch_Stage env cmd sm = (Done cmd', sm') ->
  exists ms,
    Stats (b_state (batch sm)) = Some ms
    /\ (forcedErr cmd' = None ->
        Stats (b_state (batch sm'))
        = Some (let ms' :=
                  Stats_Add ms
                    (ToStats (migratedDelta (replicatedResult cmd))) in
                match Split (replicatedResult cmd) with
                | Some _ => Stats_set_ContainsEstimates false ms'
                | None => ms'
                end)
        /\ maxTS (batch sm')
           = Forward (maxTS (batch sm)) (Timestamp (replicatedResult cmd)))
    /\ (forcedErr cmd' <> None ->
        Stats (b_state (batch sm')) = Some (Stats_Add ms zeroStats)
        /\ (Stats_wf ms ->
            Stats (b_state (batch sm')) = Stats (b_state (batch sm)))
        /\ maxTS (batch sm') = Forward (maxTS (batch sm)) zeroTimestamp).
Proof.
  intros Hrun.
  destruct (Stage_command_shape _ _ _ _ _ Hrun)
    as (_ & _ & _ & _ & _ & Hrej & Hacc).
  destruct (Stage_Done _ _ _ _ _ Hrun)
    as (cmd1 & accept & cmd3 & cmd4 & ms & _ & _ & _ & _ & Hmig
        & _ & (res2 & Hcmd' & Hres2) & Hms & _ & _ & Hst & _ & _ & _ & Hts
        & _).
  assert (Timestamp (replicatedResult cmd')
          = Timestamp (replicatedResult cmd3)) as Htime.
  { rewrite Hcmd'.
    destruct Hres2 as [->|(st & _ & ->)];
      destruct Hmig as [[_ ->]|(d & _ & ->)]; reflexivity. }
  rewrite <- Htime in Hts. clear Htime Hmig Hcmd' Hres2 res2 cmd3 cmd4.
  exists ms. split; [exact Hms|]. rewrite Hst, Hts, Hms. unfold stagedStats.
  split.
  - intros Hok.
    destruct (Hacc Hok)
      as (_ & _ & (Hsp & _ & _ & _ & _ & Htm & _) & Hdelta).
    rewrite Hsp, Htm, Hdelta. split; reflexivity.
  - intros Hno. destruct (Hrej Hno) as (Hzero & _).
    rewrite Hzero. cbn [Split Delta Timestamp zeroReplicatedEvalResult ToStats].
    split; [reflexivity|]. split; [|reflexivity].
    intros Hwf. rewrite (Stats_Add_zero ms Hwf). reflexivity.
Qed.

Lemma Stage_accumulates_stats_witness :
  exists ms,
    Stats (b_state (batch (Scenario.smWith Scenario.state0 false))) = Some ms
    /\ Stats (b_state (batch
                (snd (replicaAppBatch_Stage Scenario.env0 Scenario.happyCmd
                        (Scenario.smWith Scenario.state0 false)))))
       = Some (Stats_Add ms Scenario.liveBytes7).
Proof.
  destruct (Stage_accumulates_stats Scenario.env0 Scenario.happyCmd
              (Scenario.smWith Scenario.state0 false)
              (set_leaseIndex 101 Scenario.happyCmd)
              (snd (replicaAppBatch_Stage Scenario.env0 Scenario.happyCmd
                      (Scenario.smWith Scenario.state0 false))))
    as (ms & Hms & Hacc & _).
  - vm_compute. reflexivity.
  - exists ms. split; [exact Hms|].
    destruct Hacc as (Hst & _); [reflexivity|]. exact Hst.
Defined.

(* ------------------------------------------------------------------ *)
(** ** Replays *)

(** An ordinary command the check accepts is above the lease applied
    index, and the check hands back its max lease index. *)
Lemma checkForcedErr_accept_nonlease env idKey raftCmd isLocal st li retry :
  checkForcedErr env idKey raftCmd isLocal st = Done (li, retry, None) ->
  IsLeaseRequest (ReplicatedEvalResult raftCmd) = false ->
  LeaseAppliedIndex st < MaxLeaseIndex raftCmd /\ li = MaxLeaseIndex raftCmd.
Proof.
  intros H Hreq. revert H.
  unfold checkForcedErr, checkGCThreshold. rewrite Hreq. cbn [obind].
  destruct (String.eqb idKey ""); [discriminate|].
  destruct (leaseMismatch env raftCmd false zeroLease st) as [[|]|];
    cbn [obind]; [| |discriminate].
  { destruct (Lease st); cbn [deref obind]; discriminate. }
  destruct (Z.ltb_spec (LeaseAppliedIndex st) (MaxLeaseIndex raftCmd));
    [|discriminate].
  destruct (GCThreshold st) as [g|]; cbn [deref obind]; [|discriminate].
  destruct (negb (Less g (Timestamp (ReplicatedEvalResult raftCmd))));
    [discriminate|].
  intros E; inversion E; subst. split; [assumption|reflexivity].
Qed.

(** X9.  A replay is never applied twice.  Once [Stage] has handed back
    an ordinary command (not a lease request) without forced error, the
    batch's lease applied index is that command's max lease index, and any
    ordinary command staged next whose max lease index is not above it --
    the same command again, in particular -- is handed back with a forced
    error and emptied: no replicated result, no write batch, no logical op
    log; the lease applied index stays where the first command put it. *)
Theorem Stage_rejects_replay env cmdA cmdB sm cA sm1 cB sm2 :
  0 <= LeaseAppliedIndex (b_state (batch sm)) ->
  replicaAppBatch_Stage env cmdA sm = (Done cA, sm1) ->
  forcedErr cA = None ->
  IsLeaseRequest (replicatedResult cmdA) = false ->
  replicaAppBatch_Stage env cmdB sm1 = (Done cB, sm2) ->
  IsLeaseRequest (replicatedResult cmdB) = false ->
  MaxLeaseIndex (raftCmd cmdB) <= MaxLeaseIndex (raftCmd cmdA) ->
  LeaseAppliedIndex (b_state (batch sm1)) = MaxLeaseIndex (raftCmd cmdA)
  /\ forcedErr cB <> None
  /\ replicatedResult cB = zeroReplicatedEvalResult
  /\ WriteBatch (raftCmd cB) = None
  /\ LogicalOpLog (raftCmd cB) = None
  /\ LeaseAppliedIndex (b_state (batch sm2)) = MaxLeaseIndex (raftCmd cmdA).
Proof.
  intros Hpos HrunA HokA HreqA HrunB HreqB Hle.
  destruct (Stage_Done _ _ _ _ _ HrunA)
    as (a1 & acceptA & _ & _ & _ & _ & _ & HshouldA & _ & _ & _ & _ & _ & _
        & HlaiA & _ & _ & _ & _ & _ & HsameA).
  destruct (shouldApplyCommand_Done _ _ _ _ _ _ HshouldA)
    as (liA & retryA & ferrA & HcheckA & HliA & _ & _ & _ & _ & _ & _ & _ & _
        & HferrA).
  destruct HsameA as (_ & _ & _ & HliA' & HfA & _).
  assert (ferrA = None) as ->.
  { destruct ferrA as [e|]; [|reflexivity].
    destruct HferrA as (Hf & _); [left; discriminate|]. congruence. }
  destruct (checkForcedErr_accept_nonlease _ _ _ _ _ _ _ HcheckA HreqA)
    as (HltA & HliA2).
  assert (LeaseAppliedIndex (b_state (batch sm1)) = MaxLeaseIndex (raftCmd cmdA))
    as Hlai1.
  { rewrite HlaiA, HliA', HliA, HliA2.
    destruct (Z.eqb_spec (MaxLeaseIndex (raftCmd cmdA)) 0); [lia|reflexivity]. }
  split; [exact Hlai1|].
  destruct (Stage_Done _ _ _ _ _ HrunB)
    as (b1 & acceptB & _ & _ & _ & _ & _ & HshouldB & _ & _ & _ & _ & _ & _
        & HlaiB & _ & _ & _ & _ & _ & HsameB).
  destruct (shouldApplyCommand_Done _ _ _ _ _ _ HshouldB)
    as (liB & retryB & ferrB & HcheckB & HliB & _ & _ & _ & _ & _ & _ & _ & _
        & HferrB).
  destruct HsameB as (_ & _ & _ & HliB' & HfB & _).
  assert (ferrB <> None) as HrejB.
  { intros ->.
    destruct (checkForcedErr_accept_nonlease _ _ _ _ _ _ _ HcheckB HreqB)
      as (HltB & _). lia. }
  assert (forcedErr cB <> None) as HrejB'.
  { destruct HferrB as (Hf & _); [left; exact HrejB|]. congruence. }
  split; [exact HrejB'|].
  destruct (Stage_command_shape _ _ _ _ _ HrunB)
    as (_ & _ & _ & _ & _ & Hrej & _).
  destruct (Hrej HrejB') as (Hz & Hw & Hl & _).
  split; [exact Hz|]. split; [exact Hw|]. split; [exact Hl|].
  rewrite HlaiB, HliB', HliB.
  destruct (checkForcedErr_index _ _ _ _ _ _ _ _ HcheckB)
    as [Heq|(_ & Hlt & _)]; [|lia].
  rewrite Heq.
  destruct (LeaseAppliedIndex (b_state (batch sm1)) =? 0); exact Hlai1.
Qed.

Lemma Stage_rejects_replay_witness :
  forcedErr
    (wipe (set_forcedErr (Some (IllegalLeaseIndexError 101 101))
             (set_leaseIndex 101
                (Scenario.cmdWith 12
                   (Scenario.raftCmdWith 5 101 Scenario.result60) None))))
  <> None.
Proof.
  pose (sm1 := snd (replicaAppBatch_Stage Scenario.env0 Scenario.happyCmd
                      (Scenario.smWith Scenario.state0 false))).
  pose (cmdB := Scenario.cmdWith 12
                  (Scenario.raftCmdWith 5 101 Scenario.result60) None).
  destruct (Stage_rejects_replay Scenario.env0 Scenario.happyCmd cmdB
              (Scenario.smWith Scenario.state0 false)
              (set_leaseIndex 101 Scenario.happyCmd) sm1
              (wipe (set_forcedErr (Some (IllegalLeaseIndexError 101 101))
                       (set_leaseIndex 101 cmdB)))
              (snd (replicaAppBatch_Stage Scenario.env0 cmdB sm1)))
    as (_ & H & _).
  - cbn. lia.
  - vm_compute. reflexivity.
  - reflexivity.
  - reflexivity.
  - vm_compute. reflexivity.
  - reflexivity.
  - cbn. lia.
  - exact H.
Defined.

(* ------------------------------------------------------------------ *)
(** ** The ephemeral batch against the application batch *)

(** Of the replica [shouldApplyCommand] reads the store and range ids
    only, and of the replica state what [checkForcedErr] reads. *)
Lemma shouldApplyCommand_reads env rep1 rep2 cmd st1 st2 :
  r_StoreID rep1 = r_StoreID rep2 ->
  r_RangeID rep1 = r_RangeID rep2 ->
  sameCheckedView st1 st2 ->
  shouldApplyCommand env rep1 cmd st1 = shouldApplyCommand env rep2 cmd st2.
Proof.
  intros Hs Hr Hv. unfold shouldApplyCommand.
  rewrite (checkForcedErr_reads env env _ _ _ st1 st2 (fun _ _ => eq_refl) Hv).
  rewrite Hs, Hr. reflexivity.
Qed.

Lemma ephemeral_Stage_Done env cmd sm cmd' sm' :
  ephemeralReplicaAppBatch_Stage env cmd sm = (Done cmd', sm') ->
  (exists accept,
     shouldApplyCommand env (r sm) cmd (mb_state (ephemeralBatch sm))
     = Done (cmd', accept))
  /\ mb_state (ephemeralBatch sm')
     = set_LeaseAppliedIndex (leaseIndex cmd') (mb_state (ephemeralBatch sm)).
Proof.
  unfold ephemeralReplicaAppBatch_Stage. rewrite bind_get.
  unfold bind, liftO, modify, ret.
  destruct (shouldApplyCommand env (r sm) cmd (mb_state (ephemeralBatch sm)))
    as [[cmd1 accept]|e]; [|discriminate].
  intros H; inversion H; subst. split; [eauto|reflexivity].
Qed.

(** Checking again the command that [shouldApplyCommand] handed back
    hands back the same command: the check overwrites the three fields it
    sets and reads none of them. *)
Lemma shouldApplyCommand_again env rep1 rep2 cmd st1 st2 cmdE accE :
  r_StoreID rep1 = r_StoreID rep2 ->
  r_RangeID rep1 = r_RangeID rep2 ->
  sameCheckedView st1 st2 ->
  shouldApplyCommand env rep1 cmd st1 = Done (cmdE, accE) ->
  shouldApplyCommand env rep2 cmdE st2 = Done (cmdE, accE).
Proof.
  intros Hs Hr Hv H.
  destruct (shouldApplyCommand_Done _ _ _ _ _ _ H)
    as (li & retry & ferr & Hc & _ & Hent & Hid & Hprop & Hraft & Hcc & Hunl
        & Hloc & _).
  assert (forall l p f,
            set_forcedErr f (set_proposalRetry p (set_leaseIndex l cmdE))
            = set_forcedErr f (set_proposalRetry p (set_leaseIndex l cmd)))
    as Hover.
  { intros l p f. destruct cmd, cmdE. cbn in *. subst. reflexivity. }
  revert H. unfold shouldApplyCommand, IsLocal.
  rewrite Hid, Hraft, Hprop.
  rewrite <- (checkForcedErr_reads env env _ _ _ st1 st2 (fun _ _ => eq_refl) Hv).
  fold (IsLocal cmd). rewrite Hc. cbn [obind]. cbv zeta.
  rewrite !Hover, Hs, Hr. intros H; exact H.
Qed.

(** X10.  The ephemeral batch predicts the application batch.  When the
    ephemeral state and the application batch's state agree on what the
    force-error check reads (lease applied index, lease, descriptor, GC
    threshold), and a command is staged on the ephemeral batch and then
    on the application batch -- the command as it was, or the very
    command the ephemeral batch handed back -- both hand it back with the
    same forced error, lease index and retry reason, and the two states
    agree again afterwards, so the agreement carries over to the next
    command. *)
Theorem ephemeral_Stage_predicts_Stage
    env cmd cmdIn smE smR cmdE smE' cmdR smR' :
  sameCheckedView (mb_state (ephemeralBatch smE)) (b_state (batch smR)) ->
  r_StoreID (r smE) = r_StoreID (r smR) ->
  r_RangeID (r smE) = r_RangeID (r smR) ->
  0 <= LeaseAppliedIndex (b_state (batch smR)) ->
  ephemeralReplicaAppBatch_Stage env cmd smE = (Done cmdE, smE') ->
  cmdIn = cmd \/ cmdIn = cmdE ->
  replicaAppBatch_Stage env cmdIn smR = (Done cmdR, smR') ->
  forcedErr cmdR = forcedErr cmdE
  /\ leaseIndex cmdR = leaseIndex cmdE
  /\ proposalRetry cmdR = proposalRetry cmdE
  /\ sameCheckedView (mb_state (ephemeralBatch smE')) (b_state (batch smR')).
Proof.
  intros Hview Hs Hr Hpos HrunE Hin HrunR.
  destruct (ephemeral_Stage_Done _ _ _ _ _ HrunE) as ((accE & HshE) & HstE).
  destruct (Stage_Done _ _ _ _ _ HrunR)
    as (cmd1 & accept & _ & _ & _ & _ & _ & HshR & _ & _ & _ & _ & _ & _
        & Hlai & _ & _ & _ & _ & _ & Hsame).
  assert (shouldApplyCommand env (r smR) cmdIn (b_state (batch smR))
          = Done (cmdE, accE)) as HshE'.
  { destruct Hin as [-> | ->].
    - rewrite <- (shouldApplyCommand_reads env _ _ cmd _ _ Hs Hr Hview).
      exact HshE.
    - exact (shouldApplyCommand_again env _ _ cmd _ _ _ _ Hs Hr Hview HshE). }
  rewrite HshR in HshE'. inversion HshE'; subst cmd1 accE; clear HshE'.
  destruct Hsame as (_ & _ & _ & Hli & Hf & Hretry & _).
  split; [exact Hf|]. split; [exact Hli|]. split; [exact Hretry|].
  destruct (Stage_respects _ _ _ _ _ HrunR)
    as (_ & _ & Hdesc & Hlease & _ & Hgc & _).
  destruct Hview as (Hv1 & Hv2 & Hv3 & Hv4).
  destruct (shouldApplyCommand_Done _ _ _ _ _ _ HshR)
    as (li & retry & ferr & Hcheck & Hli1 & _).
  rewrite HstE. unfold sameCheckedView.
  cbn [LeaseAppliedIndex Lease Desc GCThreshold set_LeaseAppliedIndex].
  rewrite Hdesc, Hlease, Hgc, Hlai, Hli.
  split; [|split; [exact Hv2|split; [exact Hv3|exact Hv4]]].
  destruct (Z.eqb_spec (leaseIndex cmdE) 0) as [Hz|]; [|reflexivity].
  rewrite Hz.
  destruct (checkForcedErr_index _ _ _ _ _ _ _ _ Hcheck)
    as [Heq|(Heq & Hlt & _)]; lia.
Qed.

Lemma ephemeral_Stage_predicts_Stage_witness :
  forcedErr Scenario.rejectedStaleCmd
  = forcedErr (set_forcedErr (Some (IllegalLeaseIndexError 100 100))
                 (set_proposalRetry proposalIllegalLeaseIndex
                    (set_leaseIndex 100 Scenario.staleCmd))).
Proof.
  pose (cmdE := set_forcedErr (Some (IllegalLeaseIndexError 100 100))
                  (set_proposalRetry proposalIllegalLeaseIndex
                     (set_leaseIndex 100 Scenario.staleCmd))).
  destruct (ephemeral_Stage_predicts_Stage Scenario.env0 Scenario.staleCmd
              cmdE
              (Scenario.smWith Scenario.state0 false)
              (Scenario.smWith Scenario.state0 false)
              cmdE
              (snd (ephemeralReplicaAppBatch_Stage Scenario.env0
                      Scenario.staleCmd
                      (Scenario.smWith Scenario.state0 false)))
              Scenario.rejectedStaleCmd
              (snd (replicaAppBatch_Stage Scenario.env0 cmdE
                      (Scenario.smWith Scenario.state0 false))))
    as (H & _).
  - repeat split.
  - reflexivity.
  - reflexivity.
  - cbn. lia.
  - vm_compute. reflexivity.
  - right. reflexivity.
  - vm_compute. reflexivity.
  - exact H.
Defined.

(* ------------------------------------------------------------------ *)
(** ** One batch, from [NewBatch] to [Close] *)

Lemma addAppliedStateKeyToBatch_keeps env sm out sm' :
  addAppliedStateKeyToBatch env sm = (out, sm') ->
  entries (batch sm') = entries (batch sm)
  /\ emptyEntries (batch sm') = emptyEntries (batch sm)
  /\ mutations (batch sm') = mutations (batch sm)
  /\ ephemeralBatch sm' = ephemeralBatch sm
  /\ Desc (b_state (batch sm')) = Desc (b_state (batch sm))
  /\ Lease (b_state (batch sm')) = Lease (b_state (batch sm))
  /\ GCThreshold (b_state (batch sm')) = GCThreshold (b_state (batch sm))
  /\ TruncatedState (b_state (batch sm'))
     = TruncatedState (b_state (batch sm)).
Proof.
  open_sm sm.
  unfold addAppliedStateKeyToBatch. run_all.
  repeat split_oracle;
    intros H; inversion H; subst; cbn; repeat split; congruence.
Qed.

(** What a successful [ApplyToStateMachine] leaves outside the published
    state: the clock, the counters and the ephemeral batch. *)
Lemma ApplyToStateMachine_Done env sm sm' :
  replicaAppBatch_ApplyToStateMachine env sm = (Done tt, sm') ->
  clock (r sm') = Forward (clock (r sm)) (maxTS (batch sm))
  /\ stats sm'
     = mkApplyStats (i64 (batchesProcessed (stats sm) + 1))
         (i64 (entriesProcessed (stats sm) + entries (batch sm)))
         (stateAssertions (stats sm))
         (i64 (numEmptyEntries (stats sm) + emptyEntries (batch sm)))
  /\ ephemeralBatch sm' = ephemeralBatch sm.
Proof.
  unfold replicaAppBatch_ApplyToStateMachine. rewrite bind_get.
  unfold bind at 1. unfold modify_r at 1. unfold modify at 1.
  unfold bind at 1.
  destruct (addAppliedStateKeyToBatch env _) as [aout sm1] eqn:Hadd.
  destruct (addAppliedStateKeyToBatch_frame _ _ _ _ Hadd)
    as (Hr & Hs & _).
  destruct (addAppliedStateKeyToBatch_keeps _ _ _ _ Hadd)
    as (He & Hee & _ & Heb & _).
  cbn in Hr, Hs, He, Hee, Heb.
  destruct aout as [[]|e]; [|discriminate].
  open_sm sm1. subst. unfold recordStatsOnCommit. run_all.
  repeat split_oracle;
    intros H; inversion H; subst; clear H; cbn; repeat split; reflexivity.
Qed.

Lemma NewBatch_Done sm sm1 :
  NewBatch false sm = (Done tt, sm1) ->
  r sm1 = r sm
  /\ stats sm1 = stats sm
  /\ ephemeralBatch sm1 = ephemeralBatch sm
  /\ b_batch (batch sm1) = Some []
  /\ b_state (batch sm1) = mu_state (r sm)
  /\ entries (batch sm1) = entries (batch sm)
  /\ emptyEntries (batch sm1) = emptyEntries (batch sm)
  /\ maxTS (batch sm1) = maxTS (batch sm)
  /\ migrateToAppliedStateKey (batch sm1) = migrateToAppliedStateKey (batch sm).
Proof.
  unfold NewBatch. destruct sm as [rep b eb st].
  destruct rep as [mu ? ? ? ? ? ?]. destruct mu as [? ? ? ? ? ? live ? ?].
  run_all. destruct live as [live|]; run_all; [|discriminate].
  intros H; inversion H; subst. repeat split.
Qed.

(** X11.  One command through one batch.  When a fresh application batch
    is opened, a command is staged on it, the batch is applied and closed,
    all without error, then: the entry's index was one past the replica's
    published raft applied index and is the published index now; the
    published lease applied index has not gone down; the published
    descriptor, lease, GC threshold, truncated state and key layout flag
    are untouched; the storage engine has received exactly one more
    batch; one more batch is counted; and the application batch is back
    to its zero value. *)
Theorem batch_cycle_applies_one_entry env cmd sm sm1 cmd' sm2 sm3 sm4 :
  NewBatch false sm = (Done tt, sm1) ->
  replicaAppBatch_Stage env cmd sm1 = (Done cmd', sm2) ->
  replicaAppBatch_ApplyToStateMachine env sm2 = (Done tt, sm3) ->
  replicaAppBatch_Close sm3 = (Done tt, sm4) ->
  Index (ent cmd) = u64 (RaftAppliedIndex (mu_state (r sm)) + 1)
  /\ RaftAppliedIndex (mu_state (r sm4)) = Index (ent cmd)
  /\ LeaseAppliedIndex (mu_state (r sm))
     <= LeaseAppliedIndex (mu_state (r sm4))
  /\ Desc (mu_state (r sm4)) = Desc (mu_state (r sm))
  /\ Lease (mu_state (r sm4)) = Lease (mu_state (r sm))
  /\ GCThreshold (mu_state (r sm4)) = GCThreshold (mu_state (r sm))
  /\ TruncatedState (mu_state (r sm4)) = TruncatedState (mu_state (r sm))
  /\ UsingAppliedStateKey (mu_state (r sm4))
     = UsingAppliedStateKey (mu_state (r sm))
  /\ (exists ops, engine (r sm4) = engine (r sm) ++ [ops])
  /\ batchesProcessed (stats sm4) = i64 (batchesProcessed (stats sm) + 1)
  /\ entriesProcessed (stats sm4)
     = i64 (entriesProcessed (stats sm) + i64 (entries (batch sm) + 1))
  /\ batch sm4 = zeroAppBatch.
Proof.
  intros Hnew Hstage Happly Hclose.
  destruct (NewBatch_Done _ _ Hnew)
    as (Hr1 & Hs1 & _ & _ & Hst1 & He1 & _).
  destruct (Stage_respects _ _ _ _ _ Hstage)
    as ((Hmu2 & Heng2 & _ & _ & Hs2) & _).
  destruct (Stage_Done _ _ _ _ _ Hstage)
    as (c1 & acc & c3 & c4 & ms & _ & Hidx & Hshould & _ & _ & _ & _ & _
        & Hrai & Hlai & _ & _ & Hen & _ & _ & Hsame).
  destruct (shouldApplyCommand_Done _ _ _ _ _ _ Hshould)
    as (li & retry & ferr & Hcheck & Hli & _).
  destruct Hsame as (_ & _ & _ & Hli' & _).
  destruct (ApplyToStateMachine_inv _ _ _ _ Happly)
    as (aout & sma & Hadd & _ & cur & ms' & _ & _ & Heng3 & Hmu3 & _ & _).
  destruct (addAppliedStateKeyToBatch_frame _ _ _ _ Hadd)
    as (_ & _ & Hrai' & Hlai' & _).
  destruct (ApplyToStateMachine_Done _ _ _ Happly) as (_ & Hs3 & _).
  cbn in Hrai', Hlai'.
  inversion Hclose; subst sm4; clear Hclose.
  cbn [r stats batch set_batch].
  rewrite Hmu3, Heng3, Hs3, Hrai', Hlai', Hrai, Hlai, Hmu2, Heng2, Hs2, Hen.
  rewrite Hli', Hli, Hr1, Hs1, He1 in *. rewrite Hst1 in *.
  cbn [RaftAppliedIndex LeaseAppliedIndex Desc Lease GCThreshold
       TruncatedState UsingAppliedStateKey set_Stats set_LeaseAppliedIndex
       set_RaftAppliedIndex batchesProcessed entriesProcessed].
  split; [exact Hidx|]. split; [reflexivity|].
  split.
  { destruct (checkForcedErr_index _ _ _ _ _ _ _ _ Hcheck)
      as [Heq|(Heq & Hlt & _)]; destruct (li =? 0); lia. }
  do 5 (split; [reflexivity|]).
  split; [eexists; reflexivity|]. repeat split.
Qed.

Lemma batch_cycle_applies_one_entry_witness :
  let sm := Scenario.smWith Scenario.state0 false in
  let sm1 := snd (NewBatch false sm) in
  let sm2 := snd (replicaAppBatch_Stage Scenario.env0 Scenario.happyCmd sm1) in
  let sm3 := snd (replicaAppBatch_ApplyToStateMachine Scenario.env0 sm2) in
  let sm4 := snd (replicaAppBatch_Close sm3) in
  RaftAppliedIndex (mu_state (r sm4)) = 11
  /\ batch sm4 = zeroAppBatch.
Proof.
  intros sm sm1 sm2 sm3 sm4.
  destruct (batch_cycle_applies_one_entry Scenario.env0 Scenario.happyCmd
              sm sm1 (set_leaseIndex 101 Scenario.happyCmd) sm2 sm3 sm4)
    as (_ & H & _ & _ & _ & _ & _ & _ & _ & _ & _ & Hz).
  - vm_compute. reflexivity.
  - vm_compute. reflexivity.
  - vm_compute. reflexivity.
  - vm_compute. reflexivity.
  - split; [exact H|exact Hz].
Defined.

(* ------------------------------------------------------------------ *)
(** ** What [Stage] writes *)

(** A command handed back with a forced error has left the replica and
    the storage batch alone. *)
Lemma Stage_rejected_noop env cmd sm cmd' sm' :
  replicaAppBatch_Stage env cmd sm = (Done cmd', sm') ->
  forcedErr cmd' <> None ->
  r sm' = r sm
  /\ b_batch (batch sm') = b_batch (batch sm)
  /\ mutations (batch sm') = mutations (batch sm)
  /\ splitMergeUnlock cmd' = splitMergeUnlock cmd.
Proof.
  intros Hrun Hrej.
  destruct (Stage_Done _ _ _ _ _ Hrun)
    as (cmd1 & accept & c3 & c4 & ms & Hnz & Hidx & Hshould & _ & _ & _ & _
        & Hms & _ & _ & _ & _ & _ & _ & _ & Hsame).
  destruct (shouldApplyCommand_Done _ _ _ _ _ _ Hshould)
    as (li & retry & ferr & _ & _ & _ & _ & _ & _ & _ & Hunl & _ & Hacc & _).
  destruct Hsame as (_ & _ & _ & _ & Hf & _).
  assert (accept = false) as ->.
  { rewrite Hacc. rewrite Hf in Hrej.
    destruct (forcedErr cmd1); [reflexivity|congruence]. }
  clear Hacc Hf Hrej. revert Hrun.
  unfold replicaAppBatch_Stage. rewrite bind_get.
  apply Z.eqb_neq in Hnz. rewrite Hnz, <- Hidx, Z.eqb_refl. cbn [negb].
  unfold bind at 1. unfold liftO at 1. rewrite Hshould. cbn [negb].
  unfold stageTrivialReplicatedEvalResult.
  cbn -[Stats_Add Forward i64].
  assert (Index (ent cmd1) = Index (ent cmd)) as ->.
  { destruct (shouldApplyCommand_Done _ _ _ _ _ _ Hshould)
      as (? & ? & ? & _ & _ & He & _). rewrite He. reflexivity. }
  rewrite Hnz. destruct (leaseIndex cmd1 =? 0); cbn -[Stats_Add Forward i64];
    run_sm; rewrite Hms; cbn -[Stats_Add Forward i64];
    destruct (Datatypes.length (EntryData (ent cmd1)) =? 0)%nat;
    cbn -[Stats_Add Forward i64];
    intros H; inversion H; subst; cbn; repeat split; exact Hunl.
Qed.

Lemma batchWrite_Done ops s u s' :
  batchWrite ops s = (Done u, s') ->
  exists cur,
    b_batch (batch s) = Some cur
    /\ s' = set_batch (set_b_batch (Some (cur ++ ops)) (batch s)) s.
Proof.
  unfold batchWrite, openBatch. run_all.
  destruct (b_batch (batch s)) as [cur|]; [|discriminate].
  intros H; inversion H. exists cur. split; reflexivity.
Qed.

Lemma stageWriteBatch_Done env cmd sm u sm' :
  stageWriteBatch env cmd sm = (Done u, sm') ->
  r sm' = r sm
  /\ b_state (batch sm') = b_state (batch sm)
  /\ forall cur,
       b_batch (batch sm) = Some cur ->
       b_batch (batch sm')
       = Some (cur ++ match WriteBatch (raftCmd cmd) with
                      | Some wb => [OpApplyBatchRepr (Data wb)]
                      | None => []
                      end).
Proof.
  unfold stageWriteBatch.
  destruct (WriteBatch (raftCmd cmd)) as [wb|].
  - intros H. bind_inv H. bind_inv H.
    assert (r s = r sm /\ b_batch (batch s) = b_batch (batch sm)
            /\ b_state (batch s) = b_state (batch sm)) as (Hr & Hb & Hst).
    { revert Hstep. destruct (RocksDBBatchCount env (Data wb));
        intros E; inversion E; repeat split. }
    assert (s0 = s) as ->.
    { revert Hstep0. unfold openBatch. run_all.
      destruct (b_batch (batch s)); intros E; inversion E; reflexivity. }
    destruct (ApplyBatchReprFails env a0 (Data wb)); [discriminate|].
    apply batchWrite_Done in H. destruct H as (cur & Hcur & ->).
    cbn. split; [exact Hr|]. split; [exact Hst|].
    intros cur' Hcur'. congruence.
  - intros H; inversion H; subst. split; [reflexivity|].
    split; [reflexivity|]. intros cur Hcur. rewrite app_nil_r. exact Hcur.
Qed.

Lemma runPreApplyTriggers_writes env cmd sm c sm' :
  runPreApplyTriggers env cmd sm = (Done c, sm') ->
  forall cur,
    b_batch (batch sm) = Some cur ->
    b_batch (batch sm')
    = Some (cur
            ++ match Split (replicatedResult cmd) with
               | Some split => [OpSplitHardState (SplitTrigger split)]
               | None => []
               end
            ++ match Merge (replicatedResult cmd) with
               | Some merge =>
                   [OpPreDestroy (RangeID (RightDesc merge))
                      (NextReplicaID (RightDesc merge))]
               | None => []
               end
            ++ match State (replicatedResult cmd) with
               | Some st =>
                   match TruncatedState st with
                   | Some ts =>
                       match handleTruncatedStateBelowRaft env
                               (TruncatedState (b_state (batch sm))) ts with
                       | Some (_, writes) => writes
                       | None => []
                       end
                   | None => []
                   end
               | None => []
               end).
Proof.
  unfold runPreApplyTriggers. intros H cur Hcur.
  bind_inv H. bind_inv H. bind_inv H. bind_inv H. bind_inv H.
  inversion H; subst; clear H.
  assert (a = set_AddSSTable None (replicatedResult cmd)
          /\ batch s = batch sm) as (-> & Hb0).
  { revert Hstep. destruct (replicatedResult cmd) eqn:Hres. cbn.
    destruct AddSSTable0 as [sst|].
    - run_all. destruct (addSSTablePreApply _ _ _ _); cbn;
        intros H; inversion H; split; reflexivity.
    - intros H; inversion H; split; reflexivity. }
  clear Hstep.
  change (Split (set_AddSSTable None (replicatedResult cmd)))
    with (Split (replicatedResult cmd)) in Hstep0.
  change (Merge (set_AddSSTable None (replicatedResult cmd)))
    with (Merge (replicatedResult cmd)) in Hstep1.
  change (State (set_AddSSTable None (replicatedResult cmd)))
    with (State (replicatedResult cmd)) in Hstep2.
  assert (b_batch (batch sm') = b_batch (batch s2)) as ->.
  { revert Hstep3.
    destruct (WriteBatch _); [|destruct (isSome _)]; run_all;
      intros E; inversion E; reflexivity. }
  clear Hstep3.
  assert (b_state (batch s0) = b_state (batch sm)
          /\ b_batch (batch s0)
             = Some (cur ++ match Split (replicatedResult cmd) with
                            | Some split =>
                                [OpSplitHardState (SplitTrigger split)]
                            | None => []
                            end)) as (Hst0 & Hcur0).
  { revert Hstep0. destruct (Split (replicatedResult cmd)) as [sp|].
    - intros E. apply batchWrite_Done in E. destruct E as (c0 & Hc0 & ->).
      cbn. rewrite Hb0 in *. split; [reflexivity|congruence].
    - intros E; inversion E; subst. rewrite Hb0, app_nil_r.
      split; [reflexivity|exact Hcur]. }
  clear Hstep0 Hb0 Hcur.
  set (cur0 := cur ++ match Split (replicatedResult cmd) with
                      | Some split => [OpSplitHardState (SplitTrigger split)]
                      | None => []
                      end) in *.
  assert (b_state (batch s1) = b_state (batch s0)
          /\ b_batch (batch s1)
             = Some (cur0 ++ match Merge (replicatedResult cmd) with
                             | Some merge =>
                                 [OpPreDestroy (RangeID (RightDesc merge))
                                    (NextReplicaID (RightDesc merge))]
                             | None => []
                             end)) as (Hst1 & Hcur1).
  { revert Hstep1. destruct (Merge (replicatedResult cmd)) as [mg|].
    - destruct (GetReplicaFails env _); [discriminate|].
      intros E. bind_inv E.
      assert (s3 = s0) as ->.
      { revert Hstep. unfold openBatch. run_all.
        destruct (b_batch (batch s0)); intros E'; inversion E'; reflexivity. }
      destruct (preDestroyFails env _ _); [discriminate|].
      apply batchWrite_Done in E. destruct E as (c0 & Hc0 & ->).
      cbn. split; [reflexivity|congruence].
    - intros E; inversion E; subst. rewrite app_nil_r.
      split; [reflexivity|exact Hcur0]. }
  clear Hstep1 Hcur0. rewrite Hst0 in Hst1. clear Hst0.
  set (cur1 := cur0 ++ match Merge (replicatedResult cmd) with
                       | Some merge =>
                           [OpPreDestroy (RangeID (RightDesc merge))
                              (NextReplicaID (RightDesc merge))]
                       | None => []
                       end) in *.
  assert (b_batch (batch s2)
          = Some (cur1
                  ++ match State (replicatedResult cmd) with
                     | Some st =>
                         match TruncatedState st with
                         | Some ts =>
                             match handleTruncatedStateBelowRaft env
                                     (TruncatedState (b_state (batch sm))) ts
                             with
                             | Some (_, writes) => writes
                             | None => []
                             end
                         | None => []
                         end
                     | None => []
                     end)) as Hcur2.
  { revert Hstep2.
    destruct (State (replicatedResult cmd)) as [st|];
      [destruct (TruncatedState st) as [ts|]|];
      try (intros E; inversion E; subst; rewrite app_nil_r; exact Hcur1).
    rewrite bind_get. rewrite Hst1.
    destruct (handleTruncatedStateBelowRaft env _ ts) as [[apply writes]|];
      [|discriminate].
    intros E. bind_inv E.
    apply batchWrite_Done in Hstep. destruct Hstep as (c0 & Hc0 & ->).
    destruct apply; cbn [negb] in E.
    - inversion E; subst. cbn. congruence.
    - bind_inv E. inversion E; subst. inversion Hstep; subst.
      cbn. congruence. }
  rewrite Hcur2. subst cur1 cur0. rewrite <- !app_assoc. reflexivity.
Qed.

Lemma maybeAcquireSplitMergeLock_batch env raftCmd sm out sm' :
  maybeAcquireSplitMergeLock env raftCmd sm = (out, sm') ->
  batch sm' = batch sm.
Proof.
  unfold maybeAcquireSplitMergeLock.
  destruct (Split (ReplicatedEvalResult raftCmd)) as [sp|];
    [|destruct (Merge (ReplicatedEvalResult raftCmd)) as [mg|]];
    run_all;
    try match goal with
        | |- context [if ?c then _ else _] => destruct c
        end;
    intros H; inversion H; reflexivity.
Qed.

Lemma stageTrivialReplicatedEvalResult_batch cmd sm out sm' :
  stageTrivialReplicatedEvalResult cmd sm = (out, sm') ->
  b_batch (batch sm') = b_batch (batch sm) /\ r sm' = r sm.
Proof.
  unfold stageTrivialReplicatedEvalResult.
  open_sm sm. run_all.
  destruct (Index (ent cmd) =? 0), (leaseIndex cmd =? 0); run_all.
  all: match goal with
       | |- context [match ?o with Some _ => _ | None => _ end] =>
           destruct o as [ms|]
       end; run_all;
       [|intros H; inversion H; split; reflexivity].
  all: destruct (Split (replicatedResult cmd)); run_all.
  all: destruct (State (replicatedResult cmd)) as [st'|]; run_all.
  all: try match goal with
       | |- context [if ?c then _ else _] => destruct c eqn:?
       end; run_all.
  all: intros H; inversion H; split; reflexivity.
Qed.

(** What a successful [Stage] has appended to the storage batch. *)
Lemma Stage_writes env cmd sm cmd' sm' ops :
  replicaAppBatch_Stage env cmd sm = (Done cmd', sm') ->
  b_batch (batch sm) = Some ops ->
  (forcedErr cmd' <> None ->
   b_batch (batch sm') = Some ops /\ r sm' = r sm)
  /\ (forcedErr cmd' = None ->
      b_batch (batch sm')
      = Some (ops ++ stagedWrites env (raftCmd cmd)
                       (TruncatedState (b_state (batch sm))))).
Proof.
  intros Hrun Hops. split.
  { intros Hrej.
    destruct (Stage_rejected_noop _ _ _ _ _ Hrun Hrej) as (Hr & Hb & _).
    split; [congruence|exact Hr]. }
  intros Hok.
  destruct (Stage_Done _ _ _ _ _ Hrun)
    as (c1 & acc & _ & _ & _ & _ & _ & Hshould' & _ & _ & _ & _ & _
        & _ & _ & _ & _ & _ & _ & _ & Hsame).
  destruct (shouldApplyCommand_Done _ _ _ _ _ _ Hshould')
    as (li & retry & ferr & _ & _ & _ & _ & _ & Hraft & _ & _ & _ & Hacc & _).
  destruct Hsame as (_ & _ & _ & _ & Hf & _).
  assert (acc = true) as -> by (rewrite Hacc, <- Hf, Hok; reflexivity).
  clear Hacc Hf Hok.
  revert Hrun. unfold replicaAppBatch_Stage. rewrite bind_get.
  destruct (Index (ent cmd) =? 0); [discriminate|].
  destruct (negb _); [discriminate|].
  intros H. bind_inv H. destruct a as [cmd1 accept].
  assert (cmd1 = c1 /\ accept = true /\ s = sm) as (-> & -> & ->).
  { revert Hstep. unfold liftO. rewrite Hshould'.
    intros E; inversion E; repeat split. }
  clear Hstep. cbn [negb] in H.
  apply bind_Done in H. destruct H as (lock & s1 & Hlock & H).
  apply bind_Done in H. destruct H as (cmd3 & s2 & Hcmd3 & H).
  apply bind_Done in H. destruct H as (u3 & s3 & Hmax & H).
  apply bind_Done in H. destruct H as (cmd4 & s4 & Hmig & H).
  apply bind_Done in H. destruct H as (u5 & s5 & Hwb & H).
  apply bind_Done in H. destruct H as (cmd5 & s6 & Htrig & H).
  apply bind_Done in H. destruct H as (u7 & s7 & Htriv & H).
  apply bind_Done in H. destruct H as (u8 & s8 & Hent & H).
  apply bind_Done in H. destruct H as (u9 & s9 & Hempty & H).
  inversion H; subst cmd5 s9; clear H.
  apply maybeAcquireSplitMergeLock_batch in Hlock.
  assert (raftCmd cmd3 = raftCmd cmd /\ s2 = s1) as (Hraft3 & ->).
  { rewrite <- Hraft. revert Hcmd3.
    destruct lock as [[u|]|]; intros E; inversion E; split; reflexivity. }
  clear Hcmd3.
  inversion Hmax; subst s3; clear Hmax.
  apply migrateReplicatedResult_Done in Hmig. destruct Hmig as (-> & Hmig).
  assert (WriteBatch (raftCmd cmd4) = WriteBatch (raftCmd cmd)
          /\ Split (replicatedResult cmd4)
             = Split (ReplicatedEvalResult (raftCmd cmd))
          /\ Merge (replicatedResult cmd4)
             = Merge (ReplicatedEvalResult (raftCmd cmd))
          /\ State (replicatedResult cmd4)
             = State (ReplicatedEvalResult (raftCmd cmd)))
    as (Hwb4 & Hsp4 & Hmg4 & Hst4).
  { rewrite <- Hraft3. unfold replicatedResult.
    destruct Hmig as [[_ ->]|(d & _ & ->)]; repeat split. }
  clear Hmig Hraft3 Hraft.
  destruct (stageWriteBatch_Done _ _ _ _ _ Hwb) as (_ & Hst5 & Hb5).
  cbn [batch set_batch b_state b_batch set_maxTS] in Hst5, Hb5.
  rewrite Hlock in Hst5, Hb5. specialize (Hb5 _ Hops).
  pose proof (runPreApplyTriggers_writes _ _ _ _ _ Htrig _ Hb5) as Hb6.
  destruct (stageTrivialReplicatedEvalResult_batch _ _ _ _ Htriv) as (Hb7 & _).
  inversion Hent; subst s8; clear Hent.
  assert (b_batch (batch sm') = b_batch (batch s7)) as ->.
  { revert Hempty. destruct (Nat.eqb _ _); intros E; inversion E; reflexivity. }
  rewrite Hb7, Hb6, Hst5, Hwb4, Hsp4, Hmg4, Hst4.
  unfold stagedWrites. rewrite <- !app_assoc. reflexivity.
Qed.

(** X12.  The storage writes of a successful [Stage].  With the batch
    holding the writes [ops]: for a command handed back with a forced
    error the batch still holds exactly [ops], and the replica is as it
    was -- no lock taken, no trigger run; for a command handed back
    without forced error the batch holds [ops] followed by the command's
    write batch, then the split's hard state, then the merge's
    pre-destroy, then the writes of the truncated-state handling, each
    only if the command carries it, and nothing else. *)
Theorem Stage_storage_writes env cmd sm cmd' sm' ops :
  replicaAppBatch_Stage env cmd sm = (Done cmd', sm') ->
  b_batch (batch sm) = Some ops ->
  (forcedErr cmd' <> None ->
   b_batch (batch sm') = Some ops /\ r sm' = r sm)
  /\ (forcedErr cmd' = None ->
      b_batch (batch sm')
      = Some (ops ++ stagedWrites env (raftCmd cmd)
                       (TruncatedState (b_state (batch sm))))).
Proof. apply Stage_writes. Qed.

Lemma Stage_storage_writes_witness :
  b_batch (batch (snd (replicaAppBatch_Stage Scenario.env0 Scenario.splitCmd
                         (Scenario.smWith Scenario.state0 false))))
  = Some [OpSplitHardState
            (mkSplitTrigger Scenario.desc1 Scenario.desc1)].
Proof.
  destruct (Stage_storage_writes Scenario.env0 Scenario.splitCmd
              (Scenario.smWith Scenario.state0 false)
              (set_splitMergeUnlock
                 (Some (UnlockSplit
                          (mkSplitTrigger Scenario.desc1 Scenario.desc1)))
                 (set_leaseIndex 101 Scenario.splitCmd))
              (snd (replicaAppBatch_Stage Scenario.env0 Scenario.splitCmd
                      (Scenario.smWith Scenario.state0 false)))
              []) as (_ & H).
  - vm_compute. reflexivity.
  - reflexivity.
  - exact (H eq_refl).
Defined.

(* ------------------------------------------------------------------ *)
(** ** The legacy layout of the applied state *)

Lemma addAppliedStateKeyToBatch_legacy env sm ops ms out sm' :
  b_batch (batch sm) = Some ops ->
  Stats (b_state (batch sm)) = Some ms ->
  UsingAppliedStateKey (b_state (batch sm)) = false ->
  migrateToAppliedStateKey (batch sm) = false ->
  addAppliedStateKeyToBatch env sm = (out, sm') ->
  let rai := RaftAppliedIndex (b_state (batch sm)) in
  let lai := LeaseAppliedIndex (b_state (batch sm)) in
  (out = Done tt
   /\ exists newSys,
        SetLegacyAppliedIndexBlind env ops rai lai = Some newSys
        /\ let ms' :=
             Stats_set_SysBytes
               (i64 (SysBytes ms
                     + (newSys - CalcAppliedIndexSysBytes env rai lai))) ms in
           b_batch (batch sm')
           = Some (ops ++ [OpSetLegacyAppliedIndex rai lai;
                           OpSetLegacyMVCCStats ms'])
           /\ Stats (b_state (batch sm')) = Some ms'
           /\ UsingAppliedStateKey (b_state (batch sm')) = false)
  \/ ((exists msg, out = Abort (NonDeterministicFailure msg))
      /\ (b_batch (batch sm') = Some ops
          \/ b_batch (batch sm')
             = Some (ops ++ [OpSetLegacyAppliedIndex rai lai]))).
Proof.
  intros Hb Hs Hu Hm. revert Hb Hs Hu Hm.
  open_sm sm. intros -> -> -> ->.
  unfold addAppliedStateKeyToBatch. run_all.
  repeat split_oracle.
  all: intros H; inversion H; subst; clear H; cbn.
  - right. split; [eexists; reflexivity|]. right. reflexivity.
  - left. split; [reflexivity|]. eexists. split; [reflexivity|].
    cbn. rewrite <- app_assoc. repeat split.
  - right. split; [eexists; reflexivity|]. left. reflexivity.
Qed.

(** X13.  The legacy layout.  While the batch's state does not use the
    combined applied-state key and no migration is pending, writing the
    applied state either succeeds, having appended to the batch the legacy
    applied-index write followed by the legacy MVCC-stats write -- the
    stats being the staged ones with only [SysBytes] corrected by what the
    index write changed -- or fails as a non-deterministic failure after at
    most the first of the two; the combined record is never written.  A
    successful [ApplyToStateMachine] then commits the staged writes
    followed by exactly these two, and publishes the corrected stats. *)
Theorem legacy_applied_state_layout env sm ops ms :
  b_batch (batch sm) = Some ops ->
  Stats (b_state (batch sm)) = Some ms ->
  UsingAppliedStateKey (b_state (batch sm)) = false ->
  migrateToAppliedStateKey (batch sm) = false ->
  let rai := RaftAppliedIndex (b_state (batch sm)) in
  let lai := LeaseAppliedIndex (b_state (batch sm)) in
  let corrected newSys :=
    Stats_set_SysBytes
      (i64 (SysBytes ms + (newSys - CalcAppliedIndexSysBytes env rai lai)))
      ms in
  (forall out sm',
     addAppliedStateKeyToBatch env sm = (out, sm') ->
     (out = Done tt
      /\ exists newSys,
           SetLegacyAppliedIndexBlind env ops rai lai = Some newSys
           /\ b_batch (batch sm')
              = Some (ops ++ [OpSetLegacyAppliedIndex rai lai;
                              OpSetLegacyMVCCStats (corrected newSys)])
           /\ Stats (b_state (batch sm')) = Some (corrected newSys))
     \/ ((exists msg, out = Abort (NonDeterministicFailure msg))
         /\ (b_batch (batch sm') = Some ops
             \/ b_batch (batch sm')
                = Some (ops ++ [OpSetLegacyAppliedIndex rai lai]))))
  /\ (forall sm',
        replicaAppBatch_ApplyToStateMachine env sm = (Done tt, sm') ->
        exists newSys,
          SetLegacyAppliedIndexBlind env ops rai lai = Some newSys
          /\ engine (r sm')
             = engine (r sm)
               ++ [ops ++ [OpSetLegacyAppliedIndex rai lai;
                           OpSetLegacyMVCCStats (corrected newSys)]]
          /\ Stats (mu_state (r sm')) = Some (corrected newSys)
          /\ UsingAppliedStateKey (b_state (batch sm')) = false).
Proof.
  intros Hb Hs Hu Hm rai lai corrected. split.
  - intros out sm' Hrun.
    destruct (addAppliedStateKeyToBatch_legacy env sm ops ms out sm'
                Hb Hs Hu Hm Hrun)
      as [(Ho & newSys & Hset & Hbatch & Hst & _)|Hfail].
    + left. split; [exact Ho|]. exists newSys. repeat split; assumption.
    + right. exact Hfail.
  - intros sm' Hrun.
    destruct (ApplyToStateMachine_inv env sm (Done tt) sm' Hrun)
      as (aout & sm1 & Hadd & -> & cur & ms1 & Hcur & Hms1 & Heng & Hmu
          & Hst & _).
    destruct (addAppliedStateKeyToBatch_legacy env
                (set_r (set_clock (Forward (clock (r sm)) (maxTS (batch sm)))
                          (r sm)) sm)
                ops ms (Done tt) sm1 Hb Hs Hu Hm Hadd)
      as [(_ & newSys & Hset & Hbatch & Hstats & Hus)|((msg & Habs) & _)];
      [|discriminate Habs].
    exists newSys. split; [exact Hset|].
    cbv zeta in Hbatch, Hstats.
    cbn [batch set_r b_state] in Hbatch, Hstats, Hus.
    subst corrected rai lai. cbv beta.
    rewrite Heng, Hmu, Hst, Hus.
    rewrite Hcur in Hbatch. rewrite Hms1 in Hstats.
    inversion Hbatch; subst cur. inversion Hstats; subst ms1.
    repeat split.
Qed.

Lemma legacy_applied_state_layout_witness :
  exists newSys,
    SetLegacyAppliedIndexBlind Scenario.env0 [] 10 100 = Some newSys
    /\ engine (r (snd (replicaAppBatch_ApplyToStateMachine Scenario.env0
                         (Scenario.smWith Scenario.state0 false))))
       = [[OpSetLegacyAppliedIndex 10 100;
           OpSetLegacyMVCCStats
             (Stats_set_SysBytes
                (i64 (SysBytes zeroStats
                      + (newSys
                         - CalcAppliedIndexSysBytes Scenario.env0 10 100)))
                zeroStats)]].
Proof.
  destruct (legacy_applied_state_layout Scenario.env0
              (Scenario.smWith Scenario.state0 false) [] zeroStats
              eq_refl eq_refl eq_refl eq_refl) as (_ & H).
  destruct (H (snd (replicaAppBatch_ApplyToStateMachine Scenario.env0
                      (Scenario.smWith Scenario.state0 false))))
    as (newSys & Hset & Heng & _).
  - vm_compute. reflexivity.
  - exists newSys. split; [exact Hset|exact Heng].
Defined.

(* ------------------------------------------------------------------ *)
(** ** Error returns of the commit *)

Lemma addAppliedStateKeyToBatch_exits env sm e sm' :
  addAppliedStateKeyToBatch env sm = (Abort e, sm') ->
  (exists msg, e = GoPanic msg)
  \/ e = NonDeterministicFailure "unable to migrate to range applied state"
  \/ e = NonDeterministicFailure "unable to set range applied state"
  \/ e = NonDeterministicFailure "unable to set applied index"
  \/ e = NonDeterministicFailure "unable to update MVCCStats".
Proof.
  open_sm sm.
  unfold addAppliedStateKeyToBatch. run_all.
  repeat split_oracle;
    intros H; inversion H; subst; clear H;
    first [ left; eexists; reflexivity
          | right; left; reflexivity
          | right; right; left; reflexivity
          | right; right; right; left; reflexivity
          | right; right; right; right; reflexivity ].
Qed.

(** X14.  Error returns of [ApplyToStateMachine].  The method never ends
    in [log.Fatalf].  When it returns an error, the error is one of the
    four failures of writing the applied state or the failure of the
    commit, and nothing was committed or recorded: the storage engine,
    the counters of the state machine, the ephemeral batch and the calls
    seen by the replica are as before. *)
Theorem ApplyToStateMachine_error_return env sm out sm' :
  replicaAppBatch_ApplyToStateMachine env sm = (out, sm') ->
  (forall msg, out <> Abort (LogFatal msg))
  /\ (forall msg,
        out = Abort (NonDeterministicFailure msg) ->
        In msg ["unable to migrate to range applied state";
                "unable to set range applied state";
                "unable to set applied index";
                "unable to update MVCCStats";
                "unable to commit Raft entry batch"]
        /\ engine (r sm') = engine (r sm)
        /\ stats sm' = stats sm
        /\ ephemeralBatch sm' = ephemeralBatch sm
        /\ trace (r sm') = trace (r sm)).
Proof.
  unfold replicaAppBatch_ApplyToStateMachine. rewrite bind_get.
  unfold bind at 1. unfold modify_r at 1. unfold modify at 1.
  unfold bind at 1.
  destruct (addAppliedStateKeyToBatch env _) as [aout sm1] eqn:Hadd.
  destruct (addAppliedStateKeyToBatch_frame _ _ _ _ Hadd) as (Hr & Hs & _).
  destruct (addAppliedStateKeyToBatch_keeps _ _ _ _ Hadd)
    as (_ & _ & _ & Heb & _).
  cbn in Hr, Hs, Heb.
  destruct aout as [[]|e].
  - open_sm sm1. subst. unfold recordStatsOnCommit. run_all.
    repeat split_oracle;
      intros H; inversion H; subst; clear H;
      (split; [intros msg; discriminate|]);
      intros msg Hmsg; inversion Hmsg; subst; clear Hmsg; cbn;
      split; [tauto|repeat split].
  - intros H; inversion H; subst; clear H.
    destruct (addAppliedStateKeyToBatch_exits _ _ _ _ Hadd)
      as [(m & ->)|[->|[->|[->| ->]]]];
      (split; [intros msg; discriminate|]);
      intros msg Hmsg; inversion Hmsg; subst; clear Hmsg;
      rewrite Hr, Hs, Heb; cbn; (split; [tauto|repeat split]).
Qed.

Lemma ApplyToStateMachine_error_return_witness :
  engine (r (snd (replicaAppBatch_ApplyToStateMachine Scenario.envCommitFails
                    (Scenario.smWith Scenario.state0 false))))
  = engine (r (Scenario.smWith Scenario.state0 false)).
Proof.
  destruct (ApplyToStateMachine_error_return Scenario.envCommitFails
              (Scenario.smWith Scenario.state0 false)
              (Abort (NonDeterministicFailure
                        "unable to commit Raft entry batch"))
              (snd (replicaAppBatch_ApplyToStateMachine
                      Scenario.envCommitFails
                      (Scenario.smWith Scenario.state0 false))))
    as (_ & H).
  - vm_compute. reflexivity.
  - destruct (H "unable to commit Raft entry batch" eq_refl)
      as (_ & Heng & _).
    exact Heng.
Defined.

(* ------------------------------------------------------------------ *)
(** ** Locks and counters in [ApplySideEffects] *)

Lemma handled_refl s : handled s s.
Proof.
  exists []. unfold handledWith. rewrite app_nil_r. repeat split.
Qed.

Lemma handled_trans s1 s2 s3 : handled s1 s2 -> handled s2 s3 -> handled s1 s3.
Proof.
  intros (e1 & Ht1 & Hn1 & Hb1 & He1 & Hs1) (e2 & Ht2 & Hn2 & Hb2 & He2 & Hs2).
  exists (e1 ++ e2). unfold handledWith.
  rewrite Ht2, Ht1, app_assoc. split; [reflexivity|].
  split.
  { unfold noLockEvent in *. rewrite forallb_app, Hn1, Hn2. reflexivity. }
  split; [congruence|]. split; [congruence|].
  rewrite Hs2, Hs1, countAsserts_app, Nat.add_comm, Nat.iter_add.
  reflexivity.
Qed.

Lemma handled_emitEv e :
  isLockEvent e = false -> isAssertState e = false ->
  respects handled (emitEv e).
Proof.
  intros Hl Ha sm out sm' H. inversion H; subst. exists [e].
  unfold handledWith, noLockEvent, countAsserts. cbn. rewrite Hl, Ha.
  repeat split.
Qed.

Lemma handled_assertState : respects handled assertState.
Proof.
  intros sm out sm' H. inversion H; subst. exists [EvAssertState].
  unfold handledWith. cbn. repeat split.
Qed.

Ltac handled_step :=
  first
    [ apply respects_ret; exact handled_refl
    | apply respects_fail; exact handled_refl
    | apply respects_get; exact handled_refl
    | apply handled_emitEv; reflexivity
    | apply handled_assertState
    | apply respects_bind; [exact handled_trans| |intros ?]
    | match goal with
      | |- respects _ (match ?x with _ => _ end) => destruct x
      | |- respects _ (when ?c _) => destruct c; cbn [when]
      | |- respects _ (let '(_, _) := ?x in _) => destruct x
      end ].

Lemma handleLogEffects_handled env res :
  respects handled (handleLogEffects env res).
Proof. unfold handleLogEffects. repeat handled_step. Qed.

Lemma handleStateEffects_handled res :
  respects handled (handleStateEffects res).
Proof. unfold handleStateEffects. repeat handled_step. Qed.

Lemma handleNonTrivialReplicatedEvalResult_handled env res :
  respects handled (handleNonTrivialReplicatedEvalResult env res).
Proof.
  unfold handleNonTrivialReplicatedEvalResult.
  repeat first [ apply handleLogEffects_handled
               | apply handleStateEffects_handled
               | handled_step ].
Qed.

Lemma applyReplicatedResult_handled env cmd3 :
  respects handled (applyReplicatedResult env cmd3).
Proof.
  unfold applyReplicatedResult.
  repeat first [ apply handleNonTrivialReplicatedEvalResult_handled
               | handled_step ].
Qed.

Lemma finishApplication_handled env cmd4 :
  respects handled (finishApplication env cmd4).
Proof.
  unfold finishApplication, maybeApplyConfChange.
  repeat handled_step.
Qed.

(** [ApplySideEffects] from the state it starts in to the state it
    leaves. *)
Lemma ApplySideEffects_handled env cmd sm out sm' :
  ApplySideEffects env cmd sm = (out, sm') ->
  exists mid,
    noLockEvent mid = true
    /\ trace (r sm')
       = trace (r sm)
         ++ (if BlockReads (replicatedResult cmd)
             then [EvReadOnlyCmdLock] else [])
         ++ mid
         ++ match out with
            | Abort (LogFatal _) => []
            | _ => deferredCalls cmd
            end
    /\ batch sm' = batch sm
    /\ ephemeralBatch sm' = ephemeralBatch sm
    /\ stats sm' = Nat.iter (countAsserts mid) bumpAssertions (stats sm).
Proof.
  destruct (ApplySideEffects_body_steps env cmd sm)
    as (cmd3 & _ & _ & _ & _ & Hbody).
  unfold ApplySideEffects. rewrite Hbody.
  destruct (bind (applyReplicatedResult env cmd3) (finishApplication env)
              (beforeHandlers cmd sm)) as [o sm1] eqn:Hrun.
  assert (handled (beforeHandlers cmd sm) sm1) as (mid & Ht & Hn & Hb & He & Hs).
  { revert Hrun. apply respects_bind.
    - exact handled_trans.
    - apply applyReplicatedResult_handled.
    - intros c. apply finishApplication_handled. }
  fold (deferredCalls cmd).
  assert (trace (r (beforeHandlers cmd sm))
          = trace (r sm) ++ (if BlockReads (replicatedResult cmd)
                             then [EvReadOnlyCmdLock] else [])
          /\ batch (beforeHandlers cmd sm) = batch sm
          /\ ephemeralBatch (beforeHandlers cmd sm) = ephemeralBatch sm
          /\ stats (beforeHandlers cmd sm) = stats sm)
    as (Ht0 & Hb0 & He0 & Hs0).
  { unfold beforeHandlers. destruct (BlockReads (replicatedResult cmd)).
    - repeat split.
    - rewrite app_nil_r. repeat split. }
  rewrite Ht0 in Ht. rewrite Hb0 in Hb. rewrite He0 in He. rewrite Hs0 in Hs.
  destruct (emitAll_frame (deferredCalls cmd) sm1)
    as (Hb1 & He1 & Hs1 & _ & _ & Ht1).
  intros H. exists mid. split; [exact Hn|].
  destruct o as [c|[m|m|m]]; inversion H; subst; clear H;
    rewrite ?Ht1, ?Hb1, ?He1, ?Hs1, Ht, <- ?app_assoc, ?app_nil_r;
    repeat split; assumption.
Qed.


(** X16.  Counters in [ApplySideEffects].  Whatever the outcome, the
    method leaves the application batch and the ephemeral batch alone, and
    of the state machine's counters it moves only [stateAssertions], by
    one for each state assertion among the calls it made. *)
Theorem ApplySideEffects_counts_assertions env cmd sm out sm' :
  ApplySideEffects env cmd sm = (out, sm') ->
  exists evs,
    trace (r sm') = trace (r sm) ++ evs
    /\ stats sm' = Nat.iter (countAsserts evs) bumpAssertions (stats sm)
    /\ batchesProcessed (stats sm') = batchesProcessed (stats sm)
    /\ entriesProcessed (stats sm') = entriesProcessed (stats sm)
    /\ numEmptyEntries (stats sm') = numEmptyEntries (stats sm)
    /\ batch sm' = batch sm
    /\ ephemeralBatch sm' = ephemeralBatch sm.
Proof.
  intros Hrun.
  destruct (ApplySideEffects_handled _ _ _ _ _ Hrun)
    as (mid & _ & Ht & Hb & He & Hs).
  set (pre := if BlockReads (replicatedResult cmd)
              then [EvReadOnlyCmdLock] else []) in *.
  set (post := match out with
               | Abort (LogFatal _) => []
               | _ => deferredCalls cmd
               end) in *.
  assert (countAsserts pre = 0%nat) as Hpre
      by (subst pre; destruct (BlockReads _); reflexivity).
  assert (countAsserts post = 0%nat) as Hpost.
  { subst post. unfold deferredCalls.
    destruct out as [c|[m|m|m]]; try reflexivity;
      destruct (BlockReads _), (splitMergeUnlock cmd); reflexivity. }
  exists (pre ++ mid ++ post).
  split; [exact Ht|].
  rewrite !countAsserts_app, Hpre, Hpost, Nat.add_0_r. cbn [Nat.add].
  split; [exact Hs|].
  assert (forall n s,
            batchesProcessed (Nat.iter n bumpAssertions s) = batchesProcessed s
            /\ entriesProcessed (Nat.iter n bumpAssertions s)
               = entriesProcessed s
            /\ numEmptyEntries (Nat.iter n bumpAssertions s)
               = numEmptyEntries s) as Hiter.
  { induction n as [|n IH]; intros s; [repeat split|].
    cbn. destruct (IH s) as (H1 & H2 & H3). repeat split; assumption. }
  rewrite Hs. destruct (Hiter (countAsserts mid) (stats sm)) as (H1 & H2 & H3).
  repeat split; assumption.
Qed.


Lemma ApplySideEffects_counts_assertions_witness :
  let cmd :=
    set_splitMergeUnlock
      (Some (UnlockSplit (mkSplitTrigger Scenario.desc1 Scenario.desc1)))
      (set_leaseIndex 101 Scenario.splitCmd) in
  let sm := Scenario.smWith Scenario.state0 false in
  exists evs,
    trace (r (snd (ApplySideEffects Scenario.env0 cmd sm)))
    = trace (r sm) ++ evs
    /\ stats (snd (ApplySideEffects Scenario.env0 cmd sm))
       = Nat.iter (countAsserts evs) bumpAssertions (stats sm).
Proof.
  intros cmd sm.
  destruct (ApplySideEffects_counts_assertions Scenario.env0 cmd sm
              (fst (ApplySideEffects Scenario.env0 cmd sm))
              (snd (ApplySideEffects Scenario.env0 cmd sm)))
    as (evs & Ht & Hs & _).
  - vm_compute. reflexivity.
  - exists evs. split; [exact Ht|exact Hs].
Defined.

(* ------------------------------------------------------------------ *)
(** ** Trivial commands and configuration changes in [ApplySideEffects] *)

(** [ApplySideEffects_body] up to the handling of the replicated result:
    the command that reaches it differs from the incoming one in its
    replicated result and its local result only. *)
Lemma ApplySideEffects_body_shape env cmd sm :
  exists cmd3,
    replicatedResult cmd3 = residual cmd
    /\ ent cmd3 = ent cmd
    /\ cc cmd3 = cc cmd
    /\ proposal cmd3 = proposal cmd
    /\ forcedErr cmd3 = forcedErr cmd
    /\ MaxLeaseIndex (raftCmd cmd3) = MaxLeaseIndex (raftCmd cmd)
    /\ ApplySideEffects_body env cmd sm
       = bind (applyReplicatedResult env cmd3) (finishApplication env)
           (beforeHandlers cmd sm).
Proof.
  pose (cmd1 := if BlockReads (replicatedResult cmd)
                then set_replicatedResult
                       (set_BlockReads false (replicatedResult cmd)) cmd
                else cmd).
  pose (cmd2 := prepareLocalResult env (r (beforeHandlers cmd sm)) cmd1).
  exists (set_replicatedResult
            (clearTrivialReplicatedEvalResultFields (replicatedResult cmd2))
            cmd2).
  subst cmd2 cmd1.
  unfold ApplySideEffects_body, residual, beforeHandlers.
  destruct (BlockReads (replicatedResult cmd)) eqn:Hb;
    repeat split; reflexivity.
Qed.

Lemma ReplicatedEvalResult_isZero_fields res :
  ReplicatedEvalResult_isZero res = true ->
  RaftLogDelta res = 0 /\ ChangeReplicas res = None.
Proof.
  unfold ReplicatedEvalResult_isZero. intros H.
  repeat (apply andb_prop in H; destruct H as [H ?]).
  split.
  - apply Z.eqb_eq. assumption.
  - destruct (ChangeReplicas res); [discriminate|reflexivity].
Qed.

(** [ApplySideEffects] on a trivial command with a normal entry. *)
Lemma ApplySideEffects_fast_path env cmd sm out sm' :
  ReplicatedEvalResult_isZero (residual cmd) = true ->
  Type_ (ent cmd) = EntryNormal ->
  ApplySideEffects env cmd sm = (out, sm') ->
  (exists lr,
     trace (r sm')
     = trace (r sm)
       ++ (if BlockReads (replicatedResult cmd)
           then [EvReadOnlyCmdLock] else [])
       ++ [EvHandleNoRaftLogDelta]
       ++ match lr with
          | Some l => [EvHandleLocalEvalResult l]
          | None => []
          end
       ++ match out with
          | Abort (LogFatal _) => []
          | _ => deferredCalls cmd
          end)
  /\ stats sm' = stats sm
  /\ match out with
     | Done cmd' =>
         replicatedResult cmd' = residual cmd
         /\ ent cmd' = ent cmd /\ cc cmd' = cc cmd
     | Abort (LogFatal msg) =>
         (msg = "finishing proposal with outstanding reproposal at a higher max lease index"
          \/ msg = "command already applied; unexpected successful result")
         /\ IsLocal cmd = true /\ Rejected cmd = false
     | Abort _ => False
     end.
Proof.
  intros Hz Hnormal.
  destruct (ApplySideEffects_body_shape env cmd sm)
    as (cmd3 & Hres & Hent & Hcc & Hprop & Hferr & Hmli & Hbody).
  destruct (ReplicatedEvalResult_isZero_fields _ Hz) as (Hdelta & Hchange).
  unfold ApplySideEffects. rewrite Hbody. fold (deferredCalls cmd).
  unfold bind at 1. unfold applyReplicatedResult.
  rewrite (residual_nontrivial cmd cmd3 Hres), Hz, Hres, Hz. cbn [negb].
  unfold ret at 1.
  assert (trace (r (beforeHandlers cmd sm))
          = trace (r sm) ++ (if BlockReads (replicatedResult cmd)
                             then [EvReadOnlyCmdLock] else [])
          /\ stats (beforeHandlers cmd sm) = stats sm) as (Ht0 & Hs0).
  { unfold beforeHandlers. destruct (BlockReads (replicatedResult cmd)).
    - split; reflexivity.
    - rewrite app_nil_r. split; reflexivity. }
  revert Ht0 Hs0. generalize (beforeHandlers cmd sm). intros s0 Ht0 Hs0.
  unfold finishApplication, maybeApplyConfChange, IsLocal, Rejected.
  rewrite Hent, Hnormal, Hres, Hdelta, Hchange.
  cbn [isSome Z.eqb when]. run_all.
  rewrite ?Hprop, ?Hferr, ?Hmli.
  destruct (localResult cmd3) as [l|];
    (destruct (proposal cmd) as [p|];
     [destruct (forcedErr cmd) as [fe|]; cbn [isSome negb];
      [|destruct (MaxLeaseIndex (raftCmd cmd) =? MaxLeaseIndex (command p));
        cbn [negb]; [destruct (applied p)|]]|]);
    intros H; inversion H; subst; clear H.
  all: split;
    [ first [ match goal with
              | l : result_LocalResult |- _ => exists (Some l)
              end
            | exists (@None result_LocalResult) ];
      rewrite ?trace_emitAll; cbn [trace r set_r emit];
      rewrite Ht0, <- ?app_assoc; cbn [app]; rewrite ?app_nil_r;
      reflexivity
    | ].
  all: split;
    [ repeat match goal with
             | |- context [stats (emitAll ?evs ?s)] =>
                 let H := fresh in
                 destruct (emitAll_frame evs s) as (_ & _ & H & _);
                 rewrite H; clear H
             end;
      exact Hs0
    | ].
  all: cbn [replicatedResult raftCmd ent cc set_proposal isSome negb].
  all: first [ split; [exact Hres|split; [exact Hent|exact Hcc]]
             | split; [auto|split; reflexivity] ].
Qed.

(** X17.  The fast path of [ApplySideEffects].  For a command on a normal
    entry whose replicated result is empty once the trivial fields are
    cleared, the method runs no handler of a non-trivial side effect and
    no state assertion: besides taking and releasing its locks, the only
    calls it makes are the no-log-delta hook and, when there is a local
    result, its handler.  It leaves the counters alone and cannot return
    an error: it returns the command with its result unchanged by the
    handlers, or dies in one of the two fatal checks on a local, accepted
    proposal. *)
Theorem ApplySideEffects_trivial_command env cmd sm out sm' :
  ReplicatedEvalResult_isZero (residual cmd) = true ->
  Type_ (ent cmd) = EntryNormal ->
  ApplySideEffects env cmd sm = (out, sm') ->
  (exists lr,
     trace (r sm')
     = trace (r sm)
       ++ (if BlockReads (replicatedResult cmd)
           then [EvReadOnlyCmdLock] else [])
       ++ [EvHandleNoRaftLogDelta]
       ++ match lr with
          | Some l => [EvHandleLocalEvalResult l]
          | None => []
          end
       ++ match out with
          | Abort (LogFatal _) => []
          | _ => deferredCalls cmd
          end)
  /\ stats sm' = stats sm
  /\ match out with
     | Done cmd' =>
         replicatedResult cmd' = residual cmd
         /\ ent cmd' = ent cmd /\ cc cmd' = cc cmd
     | Abort (LogFatal msg) =>
         (msg = "finishing proposal with outstanding reproposal at a higher max lease index"
          \/ msg = "command already applied; unexpected successful result")
         /\ IsLocal cmd = true /\ Rejected cmd = false
     | Abort _ => False
     end.
Proof. apply ApplySideEffects_fast_path. Qed.

Lemma ApplySideEffects_trivial_command_witness :
  let cmd := set_leaseIndex 101 Scenario.happyCmd in
  let sm := Scenario.smWith Scenario.state0 false in
  stats (snd (ApplySideEffects Scenario.env0 cmd sm)) = stats sm.
Proof.
  intros cmd sm.
  destruct (ApplySideEffects_trivial_command Scenario.env0 cmd sm
              (fst (ApplySideEffects Scenario.env0 cmd sm))
              (snd (ApplySideEffects Scenario.env0 cmd sm)))
    as (_ & Hs & _).
  - reflexivity.
  - reflexivity.
  - vm_compute. reflexivity.
  - exact Hs.
Defined.

Section CallsWithin.

Variable P : Event -> bool.

Lemma callsWithin_refl s : callsWithin P s s.
Proof. exists []. rewrite app_nil_r. split; reflexivity. Qed.

Lemma callsWithin_trans s1 s2 s3 :
  callsWithin P s1 s2 -> callsWithin P s2 s3 -> callsWithin P s1 s3.
Proof.
  intros (e1 & Ht1 & Hp1) (e2 & Ht2 & Hp2). exists (e1 ++ e2).
  rewrite Ht2, Ht1, app_assoc, forallb_app, Hp1, Hp2. split; reflexivity.
Qed.

Lemma callsWithin_emitEv e : P e = true -> respects (callsWithin P) (emitEv e).
Proof.
  intros Hp sm out sm' H. inversion H; subst. exists [e]. cbn.
  rewrite Hp. split; reflexivity.
Qed.

Lemma callsWithin_assertState :
  P EvAssertState = true -> respects (callsWithin P) assertState.
Proof.
  intros Hp sm out sm' H. inversion H; subst. exists [EvAssertState]. cbn.
  rewrite Hp. split; reflexivity.
Qed.

End CallsWithin.

Ltac within_step P :=
  first
    [ apply respects_ret; exact (callsWithin_refl P)
    | apply respects_fail; exact (callsWithin_refl P)
    | apply respects_get; exact (callsWithin_refl P)
    | apply callsWithin_emitEv; reflexivity
    | apply callsWithin_assertState; reflexivity
    | apply respects_bind; [exact (callsWithin_trans P)| |intros ?]
    | match goal with
      | |- respects _ (match ?x with _ => _ end) => destruct x
      | |- respects _ (when ?c _) => destruct c; cbn [when]
      | |- respects _ (let '(_, _) := ?x in _) => destruct x
      end ].

Lemma applyReplicatedResult_notConfChange env cmd3 :
  respects (callsWithin notConfChange) (applyReplicatedResult env cmd3).
Proof.
  unfold applyReplicatedResult, handleNonTrivialReplicatedEvalResult,
    handleLogEffects, handleStateEffects.
  repeat within_step notConfChange.
Qed.

Lemma applyReplicatedResult_Done env cmd3 s cmd4 s' :
  applyReplicatedResult env cmd3 s = (Done cmd4, s') ->
  ent cmd4 = ent cmd3
  /\ cc cmd4 = cc cmd3
  /\ ChangeReplicas (replicatedResult cmd4)
     = ChangeReplicas (replicatedResult cmd3).
Proof.
  unfold applyReplicatedResult.
  destruct (negb (IsTrivial cmd3)).
  - intros H. bind_inv H. destruct a as [sa rF]. bind_inv H.
    inversion H; subst. repeat split.
  - destruct (negb _); intros H; inversion H; subst. repeat split.
Qed.

Lemma residual_ChangeReplicas cmd :
  ChangeReplicas (residual cmd) = ChangeReplicas (replicatedResult cmd).
Proof.
  unfold residual, clearTrivialReplicatedEvalResultFields.
  destruct (BlockReads (replicatedResult cmd));
    destruct (replicatedResult cmd) as [? st ? ? ? ? ? ? ? ? ? ? ? ?];
    destruct st; reflexivity.
Qed.

Lemma finishApplication_conf_change env cmd4 s cmd' s' :
  Type_ (ent cmd4) = EntryConfChange ->
  finishApplication env cmd4 s = (Done cmd', s') ->
  let change :=
    if isNone (ChangeReplicas (replicatedResult cmd4))
    then zeroConfChange else cc cmd4 in
  cc cmd' = change
  /\ withRaftGroupFails env change = false
  /\ exists before,
       trace (r s') = trace (r s) ++ before ++ [EvApplyConfChange change]
       /\ forallb notConfChange before = true.
Proof.
  intros Hconf. unfold finishApplication, maybeApplyConfChange.
  rewrite Hconf. intros H.
  bind_inv H. bind_inv H. bind_inv H.
  assert (callsWithin notConfChange s s1) as (before & Ht & Hp).
  { apply (callsWithin_trans notConfChange _ s0).
    - assert (respects (callsWithin notConfChange)
                (when (RaftLogDelta (replicatedResult cmd4) =? 0)
                   (emitEv EvHandleNoRaftLogDelta))) as Hw
          by (repeat within_step notConfChange).
      exact (Hw _ _ _ Hstep).
    - assert (respects (callsWithin notConfChange)
                (match localResult cmd4 with
                 | Some lr => emitEv (EvHandleLocalEvalResult lr)
                 | None => ret tt
                 end)) as Hw
          by (repeat within_step notConfChange).
      exact (Hw _ _ _ Hstep0). }
  clear Hstep Hstep0.
  set (cmd5 := if isNone (ChangeReplicas (replicatedResult cmd4))
               then set_cc zeroConfChange cmd4 else cmd4) in *.
  assert (cc cmd5
          = (if isNone (ChangeReplicas (replicatedResult cmd4))
             then zeroConfChange else cc cmd4)) as Hcc5
      by (subst cmd5; destruct (isNone _); reflexivity).
  cbv zeta. rewrite <- Hcc5.
  destruct (withRaftGroupFails env (cc cmd5)) eqn:Hfail.
  { inversion Hstep1; subst. discriminate H. }
  assert (a1 = Some cmd5
          /\ s2 = set_r (emit (EvApplyConfChange (cc cmd5)) (r s1)) s1)
    as (-> & ->).
  { revert Hstep1. run_all. intros E; inversion E; split; reflexivity. }
  clear Hstep1. cbv iota beta in H.
  assert (cc cmd' = cc cmd5
          /\ trace (r s') = trace (r s1) ++ [EvApplyConfChange (cc cmd5)])
    as (Hcc' & Ht').
  { revert H. destruct (proposal cmd5) as [p|].
    - intros H. apply bind_Done in H. destruct H as (u & s3 & Hchk & H).
      inversion H; subst cmd' s'; clear H.
      assert (s3 = set_r (emit (EvApplyConfChange (cc cmd5)) (r s1)) s1) as ->.
      { revert Hchk. destruct (negb (Rejected cmd5));
          [destruct (negb _); [discriminate|destruct (applied p);
                                              [discriminate|]]|];
          intros E; inversion E; reflexivity. }
      split; reflexivity.
    - intros H; inversion H; subst. split; reflexivity. }
  split; [exact Hcc'|]. split; [reflexivity|].
  exists before. rewrite Ht', Ht, <- app_assoc. split; [reflexivity|exact Hp].
Qed.

(** X18.  Configuration changes in [ApplySideEffects].  For a command on
    a configuration-change entry that the method returns, raft has been
    told of exactly one configuration change, after all handlers: the
    command's own when its replicated result still carries the replica
    change, the zero-value change when it does not (the command was
    rejected); the command returned carries that same change.  The replica
    change is still readable at that point because the handlers work on a
    copy of the result. *)
Theorem ApplySideEffects_conf_change env cmd sm cmd' sm' :
  Type_ (ent cmd) = EntryConfChange ->
  ApplySideEffects env cmd sm = (Done cmd', sm') ->
  let change :=
    if isNone (ChangeReplicas (replicatedResult cmd))
    then zeroConfChange else cc cmd in
  cc cmd' = change
  /\ withRaftGroupFails env change = false
  /\ exists before,
       trace (r sm')
       = trace (r sm) ++ before ++ [EvApplyConfChange change]
         ++ deferredCalls cmd
       /\ forallb notConfChange before = true.
Proof.
  intros Hconf Hrun.
  destruct (ApplySideEffects_body_shape env cmd sm)
    as (cmd3 & Hres & Hent & Hcc & _ & _ & _ & Hbody).
  revert Hrun. unfold ApplySideEffects. rewrite Hbody.
  fold (deferredCalls cmd).
  destruct (bind (applyReplicatedResult env cmd3) (finishApplication env)
              (beforeHandlers cmd sm)) as [o s1] eqn:Hrun.
  destruct o as [c|[m|m|m]]; intros E; inversion E; subst c sm'; clear E.
  bind_inv Hrun. rename a into cmd4.
  destruct (applyReplicatedResult_notConfChange _ _ _ _ _ Hstep)
    as (ev1 & Ht1 & Hp1).
  destruct (applyReplicatedResult_Done _ _ _ _ _ Hstep) as (He4 & Hc4 & Hch4).
  assert (Type_ (ent cmd4) = EntryConfChange) as Hconf4 by congruence.
  destruct (finishApplication_conf_change env cmd4 s cmd' s1 Hconf4 Hrun)
    as (Hcc' & Hfail & ev2 & Ht2 & Hp2).
  rewrite Hch4, Hres, residual_ChangeReplicas, Hc4, Hcc in Hcc', Hfail, Ht2.
  cbv zeta. split; [exact Hcc'|]. split; [exact Hfail|].
  exists ((if BlockReads (replicatedResult cmd)
           then [EvReadOnlyCmdLock] else []) ++ ev1 ++ ev2).
  split.
  - rewrite trace_emitAll, Ht2, Ht1. unfold beforeHandlers.
    destruct (BlockReads (replicatedResult cmd)); cbn [r set_r trace emit];
      rewrite <- ?app_assoc; reflexivity.
  - rewrite !forallb_app, Hp1, Hp2.
    destruct (BlockReads (replicatedResult cmd)); reflexivity.
Qed.

Lemma ApplySideEffects_conf_change_witness :
  let cmd :=
    mkCmd (mkEntry 1 11 EntryConfChange [Byte.x01]) "cmd-a"
      (Scenario.raftCmdWith 5 101 zeroReplicatedEvalResult)
      zeroConfChange None 101 None proposalNoReevaluation None None in
  let sm := Scenario.smWith Scenario.state0 false in
  exists before,
    trace (r (snd (ApplySideEffects Scenario.env0 cmd sm)))
    = trace (r sm) ++ before ++ [EvApplyConfChange zeroConfChange]
      ++ deferredCalls cmd
    /\ forallb notConfChange before = true.
Proof.
  intros cmd sm.
  destruct (ApplySideEffects_conf_change Scenario.env0 cmd sm cmd
              (snd (ApplySideEffects Scenario.env0 cmd sm)))
    as (_ & _ & H).
  - reflexivity.
  - vm_compute. reflexivity.
  - exact H.
Defined.

(* ------------------------------------------------------------------ *)
(** ** A rejected command, end to end *)

(** X19.  A rejected command has no effect beyond the applied indexes.
    When [Stage] hands a command on a normal entry back with a forced
    error, staging has left the replica and the storage batch as they
    were, and [ApplySideEffects] on the command handed back, from any
    state, returns it -- it cannot fail or die -- having run no handler
    and no assertion: the only calls are the no-log-delta hook, the
    handler of the local result if there is one, and the release of a
    lock token the command already held. *)
Theorem rejected_command_has_no_side_effects
    env cmd sm cmd' sm1 smA out smA' :
  replicaAppBatch_Stage env cmd sm = (Done cmd', sm1) ->
  forcedErr cmd' <> None ->
  Type_ (ent cmd) = EntryNormal ->
  ApplySideEffects env cmd' smA = (out, smA') ->
  r sm1 = r sm
  /\ b_batch (batch sm1) = b_batch (batch sm)
  /\ (exists cmd'',
        out = Done cmd''
        /\ replicatedResult cmd'' = zeroReplicatedEvalResult)
  /\ stats smA' = stats smA
  /\ exists lr,
       trace (r smA')
       = trace (r smA)
         ++ [EvHandleNoRaftLogDelta]
         ++ match lr with
            | Some l => [EvHandleLocalEvalResult l]
            | None => []
            end
         ++ match splitMergeUnlock cmd with
            | Some u => [EvUnlock u]
            | None => []
            end.
Proof.
  intros Hstage Hrej Hnormal Hside.
  destruct (Stage_rejected_noop _ _ _ _ _ Hstage Hrej) as (Hr & Hb & _ & Hunl).
  destruct (Stage_command_shape _ _ _ _ _ Hstage)
    as (_ & _ & _ & _ & _ & Hshape & _).
  destruct (Hshape Hrej) as (Hzero & _).
  destruct (Stage_Done _ _ _ _ _ Hstage)
    as (c1 & acc & _ & _ & _ & _ & _ & Hshould & _ & _ & _ & _ & _ & _ & _
        & _ & _ & _ & _ & _ & (Hent1 & _)).
  destruct (shouldApplyCommand_Done _ _ _ _ _ _ Hshould)
    as (? & ? & ? & _ & _ & Hent & _).
  assert (residual cmd' = zeroReplicatedEvalResult) as Hresidual
      by (unfold residual; rewrite Hzero; reflexivity).
  assert (Type_ (ent cmd') = EntryNormal) as Hnormal' by congruence.
  assert (ReplicatedEvalResult_isZero (residual cmd') = true) as Hz
      by (rewrite Hresidual; reflexivity).
  destruct (ApplySideEffects_fast_path env cmd' smA out smA' Hz Hnormal' Hside)
    as ((lr & Ht) & Hs & Hout).
  split; [exact Hr|]. split; [exact Hb|].
  assert (Rejected cmd' = true) as Hrejected
      by (unfold Rejected; destruct (forcedErr cmd'); [reflexivity|congruence]).
  split.
  { destruct out as [c|[m|m|m]].
    - exists c. split; [reflexivity|]. destruct Hout as (Hres & _). congruence.
    - destruct Hout.
    - destruct Hout as (_ & _ & Hno). congruence.
    - destruct Hout. }
  split; [exact Hs|].
  exists lr. rewrite Ht. unfold deferredCalls. rewrite Hzero, Hunl.
  cbn [BlockReads zeroReplicatedEvalResult app].
  destruct out as [c|[m|m|m]]; try reflexivity.
  destruct Hout as (_ & _ & Hno). congruence.
Qed.

Lemma rejected_command_has_no_side_effects_witness :
  let sm := Scenario.smWith Scenario.state0 false in
  let run := ApplySideEffects Scenario.env0 Scenario.rejectedStaleCmd sm in
  stats (snd run) = stats sm.
Proof.
  intros sm run.
  destruct (rejected_command_has_no_side_effects Scenario.env0
              Scenario.staleCmd sm Scenario.rejectedStaleCmd
              (snd (replicaAppBatch_Stage Scenario.env0 Scenario.staleCmd sm))
              sm (fst run) (snd run))
    as (_ & _ & _ & Hs & _).
  - vm_compute. reflexivity.
  - vm_compute. discriminate.
  - reflexivity.
  - vm_compute. reflexivity.
  - exact Hs.
Defined.

(* ------------------------------------------------------------------ *)
(** ** The testing filter and the exits of [Stage] *)

(** X20.  [shouldApplyCommand] applies a command only if
    [checkForcedErr] accepts it.  The command comes back with the lease
    index the check returned and with its raft command, entry, id and
    proposal untouched; it is to be applied exactly when it carries no
    forced error; and the testing filter can only add a rejection: when
    the check rejects, or when there is no filter, the forced error and
    the retry reason are the check's, and a retry reason the check gave
    is never replaced. *)
Theorem shouldApplyCommand_filter_only_rejects env rep cmd st cmd1 accept :
  shouldApplyCommand env rep cmd st = Done (cmd1, accept) ->
  exists li retry ferr,
    checkForcedErr env (idKey cmd) (raftCmd cmd) (IsLocal cmd) st
    = Done (li, retry, ferr)
    /\ leaseIndex cmd1 = li
    /\ raftCmd cmd1 = raftCmd cmd
    /\ ent cmd1 = ent cmd
    /\ idKey cmd1 = idKey cmd
    /\ proposal cmd1 = proposal cmd
    /\ accept = negb (Rejected cmd1)
    /\ (accept = true -> ferr = None)
    /\ (ferr <> None \/ TestingApplyFilter env = None ->
        forcedErr cmd1 = ferr /\ proposalRetry cmd1 = retry)
    /\ (retry <> proposalNoReevaluation -> proposalRetry cmd1 = retry).
Proof.
  unfold shouldApplyCommand, Rejected.
  destruct (checkForcedErr env (idKey cmd) (raftCmd cmd) (IsLocal cmd) st)
    as [[[li retry] ferr]|e]; cbn [obind]; [|discriminate].
  intros H. exists li, retry, ferr. split; [reflexivity|].
  revert H. cbn [forcedErr set_forcedErr].
  destruct (TestingApplyFilter env) as [filter|], ferr as [err|];
    cbn -[Z.eqb].
  2: destruct (filter _) as [newRetry ferr']; cbn -[Z.eqb];
     destruct (Z.eqb_spec retry 0).
  all: intros H; inversion H; subst; clear H; cbn.
  all: do 6 (split; [reflexivity|]).
  all: split; [first [discriminate | reflexivity | intros _; reflexivity]|].
  all: split;
    [ first [ intros _; split; reflexivity
            | intros [Hc|Hc]; solve [congruence | discriminate Hc] ]
    | ].
  all: first [ reflexivity | intros _; reflexivity
             | intros Hc; unfold proposalNoReevaluation in Hc; congruence ].
Qed.

Lemma shouldApplyCommand_filter_only_rejects_witness :
  exists li retry ferr,
    checkForcedErr Scenario.env0 (idKey Scenario.happyCmd)
      (raftCmd Scenario.happyCmd) (IsLocal Scenario.happyCmd) Scenario.state0
    = Done (li, retry, ferr)
    /\ ferr = None.
Proof.
  destruct (shouldApplyCommand_filter_only_rejects Scenario.env0
              (Scenario.replicaWith Scenario.state0) Scenario.happyCmd
              Scenario.state0 (set_leaseIndex 101 Scenario.happyCmd) true)
    as (li & retry & ferr & Hc & _ & _ & _ & _ & _ & _ & Hacc & _).
  - vm_compute. reflexivity.
  - exists li, retry, ferr. split; [exact Hc|exact (Hacc eq_refl)].
Defined.

Section ExitsWith.

Variable P : Exit -> Prop.

Lemma exitsWith_ret {A} (a : A) : exitsWith P (ret a).
Proof. intros sm e sm' H. discriminate H. Qed.

Lemma exitsWith_fail {A} (e : Exit) : P e -> exitsWith P (@fail A e).
Proof. intros Hp sm e' sm' H. inversion H; subst. exact Hp. Qed.

Lemma exitsWith_get : exitsWith P get.
Proof. intros sm e sm' H. discriminate H. Qed.

Lemma exitsWith_modify f : exitsWith P (modify f).
Proof. intros sm e sm' H. discriminate H. Qed.

Lemma exitsWith_liftO {A} (o : Outcome A) :
  (forall e, o = Abort e -> P e) -> exitsWith P (liftO o).
Proof.
  intros Ho sm e sm' H. unfold liftO in H. destruct o; inversion H; subst.
  apply Ho. reflexivity.
Qed.

Lemma exitsWith_bind {A B} (m : M A) (f : A -> M B) :
  exitsWith P m -> (forall a, exitsWith P (f a)) -> exitsWith P (bind m f).
Proof.
  intros Hm Hf sm e sm' H.
  destruct (bind_Abort _ _ _ _ _ H) as [H1|(a & s1 & _ & H2)].
  - eapply Hm; eassumption.
  - eapply Hf; eassumption.
Qed.

End ExitsWith.

Ltac exits_step :=
  first
    [ apply exitsWith_ret
    | apply exitsWith_get
    | apply exitsWith_modify
    | apply exitsWith_fail; cbn; tauto
    | apply exitsWith_liftO;
      let e := fresh in let H := fresh in
      intros e H;
      first [ discriminate H
            | match type of H with
              | deref ?p = _ => destruct p; inversion H; reflexivity
              end ]
    | apply exitsWith_bind; [|intros ?]
    | match goal with
      | |- exitsWith _ (match ?x with _ => _ end) => destruct x
      | |- exitsWith _ (when ?c _) => destruct c; cbn [when]
      | |- exitsWith _ (let '(_, _) := ?x in _) => destruct x
      end ].

(** X21.  The exits of [Stage].  Every error [Stage] returns is a
    non-deterministic failure, for one of seven causes: a zero entry
    index, an index that is not the next one, a split or merge lock that
    cannot be taken, a write batch that cannot be applied, a merge whose
    right-hand replica cannot be found or destroyed, or a truncated state
    that cannot be handled.  Besides returning, [Stage] can only die in
    one of two fatal log calls (a deprecated delta next to a non-empty
    delta, a logical op log without write batch) or panic on a nil
    pointer. *)
Theorem Stage_exits env cmd sm e sm' :
  replicaAppBatch_Stage env cmd sm = (Abort e, sm') ->
  stageExit e.
Proof.
  revert sm e sm'. change (exitsWith stageExit (replicaAppBatch_Stage env cmd)).
  unfold replicaAppBatch_Stage, maybeAcquireSplitMergeLock,
    migrateReplicatedResult, stageWriteBatch, runPreApplyTriggers,
    stageTrivialReplicatedEvalResult, batchWrite, openBatch, batchStats,
    modify_b_state, modify_batch, modify_r, emitEv.
  repeat first
    [ apply exitsWith_liftO; intros ? Hs;
      destruct (shouldApplyCommand_exits _ _ _ _ _ Hs) as [? ->];
      cbn;
      revert Hs; unfold shouldApplyCommand;
      destruct (checkForcedErr _ _ _ _ _) as [[[? ?] ?]|?] eqn:Hc;
      cbn [obind]; [discriminate|];
      intros Hs; inversion Hs; subst; clear Hs; revert Hc;
      unfold checkForcedErr, leaseMismatch, checkGCThreshold, obind, deref;
      repeat match goal with
             | |- context [match ?x with _ => _ end] =>
                 lazymatch x with
                 | context [match _ with _ => _ end] => fail
                 | _ => destruct x
                 end
             end;
      intros Hc; inversion Hc; reflexivity
    | exits_step ].
Qed.

Lemma Stage_exits_witness :
  stageExit (NonDeterministicFailure "applied index jumped from %d to %d").
Proof.
  apply (Stage_exits Scenario.env0
           (Scenario.cmdWith 12
              (Scenario.raftCmdWith 5 101 Scenario.result60) None)
           (Scenario.smWith Scenario.state0 false)
           (NonDeterministicFailure "applied index jumped from %d to %d")
           (Scenario.smWith Scenario.state0 false)).
  vm_compute. reflexivity.
Defined.

(* ------------------------------------------------------------------ *)
(** ** The migration to the applied-state key, end to end *)




(* ------------------------------------------------------------------ *)
(** ** The exits of [ApplySideEffects] *)

Lemma finishApplication_exits env cmd4 s e s' :
  finishApplication env cmd4 s = (Abort e, s') ->
  sideEffectExit (Type_ (ent cmd4)) e.
Proof.
  unfold finishApplication, maybeApplyConfChange, Rejected.
  destruct cmd4 as [en ? rc ? pr ? fe ? ? lr]. cbn. run_all.
  repeat (split_innermost; cbn).
  all: intros H; inversion H; subst; clear H; cbn;
       first [ tauto | split; [reflexivity|eauto] ].
Qed.

(** X23.  The exits of [ApplySideEffects].  The method returns an error
    in one case only: the configuration change of a configuration-change
    entry could not be applied to raft; on a normal entry it never
    returns an error.  Besides returning it can only die in one of its
    fatal log calls, or panic when the entry is neither normal nor a
    configuration change. *)
Theorem ApplySideEffects_exits env cmd sm e sm' :
  ApplySideEffects env cmd sm = (Abort e, sm') ->
  sideEffectExit (Type_ (ent cmd)) e.
Proof.
  intros Hrun.
  destruct (ApplySideEffects_body_outcome _ _ _ _ _ Hrun) as (sm1 & Hbody).
  destruct (ApplySideEffects_body_shape env cmd sm)
    as (cmd3 & _ & Hent & _ & _ & _ & _ & Heq).
  rewrite Heq in Hbody.
  destruct (bind_Abort _ _ _ _ _ Hbody) as [Habort|(cmd4 & s1 & Hdone & Hfin)].
  - pose proof (applyReplicatedResult_frame _ _ _ _ _ Habort) as Hcases.
    cbn in Hcases. destruct Hcases as [->|[->| ->]]; cbn; tauto.
  - destruct (applyReplicatedResult_Done _ _ _ _ _ Hdone) as (Hent4 & _).
    rewrite <- Hent, <- Hent4.
    exact (finishApplication_exits env cmd4 _ _ _ Hfin).
Qed.

Lemma ApplySideEffects_exits_witness :
  sideEffectExit EntryNormal
    (LogFatal "command already applied; unexpected successful result").
Proof.
  apply (ApplySideEffects_exits Scenario.env0
           (Scenario.cmdWith 11 (Scenario.raftCmdWith 5 101 Scenario.result60)
              (Some (mkProposalData
                       (Scenario.raftCmdWith 5 101 Scenario.result60) true)))
           (Scenario.smWith Scenario.state0 false)
           (LogFatal "command already applied; unexpected successful result")
           (snd (ApplySideEffects Scenario.env0
                   (Scenario.cmdWith 11
                      (Scenario.raftCmdWith 5 101 Scenario.result60)
                      (Some (mkProposalData
                               (Scenario.raftCmdWith 5 101 Scenario.result60)
                               true)))
                   (Scenario.smWith Scenario.state0 false)))).
  vm_compute. reflexivity.
Defined.

(* ------------------------------------------------------------------ *)
(** ** The clock *)

Lemma Less_Forward_r t s : Less (Forward t s) s = false.
Proof.
  unfold Forward. destruct (Less t s) eqn:H; [|exact H].
  unfold Less. rewrite Z.ltb_irrefl, Z.eqb_refl, Z.ltb_irrefl. reflexivity.
Qed.

Lemma Less_Forward_l t s : Less (Forward t s) t = false.
Proof.
  unfold Forward. destruct (Less t s) eqn:Hless.
  - revert Hless. unfold Less.
    destruct (Z.ltb_spec (WallTime t) (WallTime s)),
             (Z.ltb_spec (WallTime s) (WallTime t)),
             (Z.eqb_spec (WallTime t) (WallTime s)),
             (Z.eqb_spec (WallTime s) (WallTime t)),
             (Z.ltb_spec (Logical t) (Logical s)),
             (Z.ltb_spec (Logical s) (Logical t));
      cbn; intros Hless; try reflexivity; try discriminate Hless; lia.
  - unfold Less. rewrite Z.ltb_irrefl, Z.eqb_refl, Z.ltb_irrefl. reflexivity.
Qed.

Lemma Less_false_trans a b c :
  Less a b = false -> Less b c = false -> Less a c = false.
Proof.
  unfold Less.
  destruct (Z.ltb_spec (WallTime a) (WallTime b)),
           (Z.ltb_spec (WallTime b) (WallTime c)),
           (Z.ltb_spec (WallTime a) (WallTime c)),
           (Z.eqb_spec (WallTime a) (WallTime b)),
           (Z.eqb_spec (WallTime b) (WallTime c)),
           (Z.eqb_spec (WallTime a) (WallTime c)),
           (Z.ltb_spec (Logical a) (Logical b)),
           (Z.ltb_spec (Logical b) (Logical c)),
           (Z.ltb_spec (Logical a) (Logical c));
    cbn; intros Hab Hbc; try reflexivity; try discriminate; lia.
Qed.

(** [ApplyToStateMachine] forwards the clock before anything can fail. *)
Lemma ApplyToStateMachine_clock env sm out sm' :
  replicaAppBatch_ApplyToStateMachine env sm = (out, sm') ->
  clock (r sm') = Forward (clock (r sm)) (maxTS (batch sm)).
Proof.
  unfold replicaAppBatch_ApplyToStateMachine. rewrite bind_get.
  unfold bind at 1. unfold modify_r at 1. unfold modify at 1.
  unfold bind at 1.
  destruct (addAppliedStateKeyToBatch env _) as [aout sm1] eqn:Hadd.
  destruct (addAppliedStateKeyToBatch_frame _ _ _ _ Hadd) as (Hr & _).
  cbn in Hr.
  destruct aout as [[]|e].
  - open_sm sm1. subst. unfold recordStatsOnCommit. run_all.
    repeat split_oracle; intros H; inversion H; subst; reflexivity.
  - intros H; inversion H; subst. rewrite Hr. reflexivity.
Qed.

(** X24.  The clock is a high-water mark.  Once a command that [Stage]
    accepted is in the batch, [ApplyToStateMachine] -- whether it then
    succeeds or fails -- leaves the node clock not behind the command's
    timestamp, and never behind where the clock was. *)
Theorem clock_covers_applied_commands env cmd sm cmd' sm1 out sm2 :
  replicaAppBatch_Stage env cmd sm = (Done cmd', sm1) ->
  forcedErr cmd' = None ->
  replicaAppBatch_ApplyToStateMachine env sm1 = (out, sm2) ->
  Less (clock (r sm2)) (Timestamp (replicatedResult cmd)) = false
  /\ Less (clock (r sm2)) (clock (r sm)) = false.
Proof.
  intros Hstage Hok Happly.
  destruct (Stage_respects _ _ _ _ _ Hstage) as ((_ & _ & Hclock & _) & _).
  destruct (Stage_command_shape _ _ _ _ _ Hstage)
    as (_ & _ & _ & _ & _ & _ & Hacc).
  destruct (Hacc Hok) as (_ & _ & (_ & _ & _ & _ & _ & Htm & _) & _).
  destruct (Stage_Done _ _ _ _ _ Hstage)
    as (c1 & acc & c3 & c4 & ms & _ & _ & _ & _ & Hmig & _
        & (res2 & Hcmd' & Hres2) & _ & _ & _ & _ & _ & _ & _ & Hts & _).
  assert (Timestamp (replicatedResult cmd')
          = Timestamp (replicatedResult c3)) as Htime.
  { rewrite Hcmd'.
    destruct Hres2 as [->|(st & _ & ->)];
      destruct Hmig as [[_ ->]|(d & _ & ->)]; reflexivity. }
  rewrite <- Htime, Htm in Hts.
  rewrite (ApplyToStateMachine_clock _ _ _ _ Happly), Hts, Hclock.
  split.
  - eapply Less_false_trans; [apply Less_Forward_r|apply Less_Forward_r].
  - apply Less_Forward_l.
Qed.

Lemma clock_covers_applied_commands_witness :
  let sm := Scenario.smWith Scenario.state0 false in
  let sm1 := snd (replicaAppBatch_Stage Scenario.env0 Scenario.happyCmd sm) in
  let run := replicaAppBatch_ApplyToStateMachine Scenario.env0 sm1 in
  Less (clock (r (snd run))) (mkTimestamp 60 0) = false.
Proof.
  intros sm sm1 run.
  destruct (clock_covers_applied_commands Scenario.env0 Scenario.happyCmd sm
              (set_leaseIndex 101 Scenario.happyCmd) sm1 (fst run) (snd run))
    as (H & _).
  - vm_compute. reflexivity.
  - reflexivity.
  - vm_compute. reflexivity.
  - exact H.
Defined.
